(** * UAV route optimizer: the routing core

    A shallow embedding of [core/point.py], [core/map.py], [core/solver.py],
    [core/greedy.py] and [core/heuristic.py], and the properties of the
    specification that concern them; with them the coverage figure of
    [runner.py] and the task generator of [data/data_generator.py].

    The Python code computes with IEEE binary64 numbers.  The embedding is
    written once, over a number type of class [Number], and used at two
    instances:

    - [float_Number], Rocq's primitive binary64 floats.  At this instance
      every definition runs, operation for operation, as the Python code
      does, and concrete inputs are settled by evaluation.
    - [R_Number], the real numbers.  This is the idealised semantics in
      which the general properties are proved: no rounding, no overflow, no
      NaN.  Where rounding changes what the program does, the property is
      stated for exact arithmetic and what the program does on binary64
      numbers is evaluated beside it.

    Conventions of the embedding:

    - a [while] loop whose number of passes is not fixed in advance takes
      fuel and answers [None] when it runs out; that a solver returns is
      stated as: there is an answer for every large enough fuel;
    - a Python [set] of points is the list of its members in iteration
      order; the greedy solver is also given in a form that takes the
      iteration order of its unsurveyed set as an argument;
    - the builtin [hash] of a pair of coordinates is taken to be collision
      free;
    - a call that may raise answers a [result]: the exception or the value;
      [distance_to], [distance_point_to_segment] and [validate] have a second
      form, named [..._or_raise], with the exceptions the arithmetic of
      Python floats raises;
    - the values [random.uniform] returns are an argument of the generator,
      a list read in the order of the calls. *)

From Stdlib Require Import String.
From Stdlib Require Import List ZArith Arith Reals Lra Lia Bool Floats Permutation Factorial.
From Stdlib Require Import DecimalString.
Import ListNotations.

Set Implicit Arguments.

(** ** Numbers *)

Class Number (F : Type) : Type := {
  of_Z : Z -> F;
  add : F -> F -> F;
  sub : F -> F -> F;
  mul : F -> F -> F;
  div : F -> F -> F;
  sqrt : F -> F;          (* np.sqrt *)
  abs : F -> F;           (* abs *)
  eqb : F -> F -> bool;   (* == *)
  ltb : F -> F -> bool;   (* <  *)
  leb : F -> F -> bool;   (* <= *)
  lt_inf : F -> bool      (* x < float('inf') *)
}.

Declare Scope num_scope.
Delimit Scope num_scope with num.
Infix "+" := add : num_scope.
Infix "-" := sub : num_scope.
Infix "*" := mul : num_scope.
Infix "/" := div : num_scope.
Infix "=?" := eqb : num_scope.
Infix "<?" := ltb : num_scope.
Infix "<=?" := leb : num_scope.
Notation "x >? y" := (ltb y x) : num_scope.

Definition Rltb (a b : R) : bool := if Rlt_dec a b then true else false.
Definition Rleb (a b : R) : bool := if Rle_dec a b then true else false.
Definition Reqb (a b : R) : bool := if Req_dec_T a b then true else false.

#[export] Instance R_Number : Number R := {
  of_Z := IZR;
  add := Rplus;
  sub := Rminus;
  mul := Rmult;
  div := Rdiv;
  sqrt := R_sqrt.sqrt;
  abs := Rabs;
  eqb := Reqb;
  ltb := Rltb;
  leb := Rleb;
  lt_inf := fun _ => true
}.

Definition float_of_Z (z : Z) : float :=
  match z with
  | Z0 => PrimFloat.zero
  | Zpos _ => PrimFloat.of_uint63 (Uint63.of_Z z)
  | Zneg p => PrimFloat.opp (PrimFloat.of_uint63 (Uint63.of_Z (Zpos p)))
  end.

#[export] Instance float_Number : Number float := {
  of_Z := float_of_Z;
  add := PrimFloat.add;
  sub := PrimFloat.sub;
  mul := PrimFloat.mul;
  div := PrimFloat.div;
  sqrt := PrimFloat.sqrt;
  abs := PrimFloat.abs;
  eqb := PrimFloat.eqb;
  ltb := PrimFloat.ltb;
  leb := PrimFloat.leb;
  lt_inf := fun x => PrimFloat.ltb x PrimFloat.infinity
}.

(** ** JSON values and exceptions *)

(** The values [json.load] builds and [json.dump] accepts, as far as the
    sources use them; a Python [dict] with string keys is the list of its
    items in insertion order. *)
#[warnings="-register-all"] Inductive json (F : Type) : Type :=
| JNum (v : F)
| JStr (s : string)
| JList (l : list (json F))
| JDict (d : list (string * json F)).
Arguments JNum {F} v.
Arguments JStr {F} s.
Arguments JList {F} l.
Arguments JDict {F} d.

Inductive exn : Type :=
| KeyError (key : string)
| TypeError
| OverflowError
| ZeroDivisionError.

(** The outcome of a call that may raise. *)
Definition result (A : Type) : Type := (exn + A)%type.

Definition raise {A : Type} (e : exn) : result A := inl e.
Definition ret {A : Type} (a : A) : result A := inr a.

Definition and_then {A B : Type} (r : result A) (k : A -> result B) : result B :=
  match r with
  | inl e => inl e
  | inr a => k a
  end.

Module Json.
Section WithNumber.
Context {F : Type}.

Fixpoint lookup (key : string) (d : list (string * json F)) : option (json F) :=
  match d with
  | [] => None
  | (k, v) :: d' => if String.eqb k key then Some v else lookup key d'
  end.

(** [data[key]] *)
Definition getitem (data : json F) (key : string) : result (json F) :=
  match data with
  | JDict d => match lookup key d with
               | Some v => ret v
               | None => raise (KeyError key)
               end
  | _ => raise TypeError
  end.

(** [data.get(key, default)] *)
Definition get (data : json F) (key : string) (default : json F) : result (json F) :=
  match data with
  | JDict d => match lookup key d with
               | Some v => ret v
               | None => ret default
               end
  | _ => raise TypeError
  end.

(** The sources annotate coordinates and distances as [float] and names as
    [str].  A value of another JSON type is answered with [TypeError] here;
    Python would store it and raise at its first use. *)
Definition as_number (v : json F) : result F :=
  match v with
  | JNum x => ret x
  | _ => raise TypeError
  end.

Definition as_string (v : json F) : result string :=
  match v with
  | JStr s => ret s
  | _ => raise TypeError
  end.

Definition as_list (v : json F) : result (list (json F)) :=
  match v with
  | JList l => ret l
  | _ => raise TypeError
  end.

End WithNumber.
End Json.

(** ** core/point.py *)

Module Point.
Section WithNumber.
Context {F : Type} {num : Number F}.
Local Open Scope num_scope.

(** [Point(x, y, name)].  The attribute [error] is assigned the constant 1
    by [__init__] and never reassigned, so it is a function of the object
    rather than a stored field. *)
Record t : Type := make { x : F; y : F; name : string }.

Definition error (self : t) : F := of_Z 1.

Definition distance_to (self other : t) : F :=
  sqrt ((x self - x other) * (x self - x other)
        + (y self - y other) * (y self - y other)) - error self.

(** Python's [max(0, min(1, v))]: [min] keeps its first argument unless the
    second is strictly smaller, [max] unless the second is strictly larger. *)
Definition clamp01 (v : F) : F :=
  let m := if v <? of_Z 1 then v else of_Z 1 in
  if m >? of_Z 0 then m else of_Z 0.

(** [dx == dy == 0] is [dx == dy and dy == 0].  Past that test the divisor
    is zero only when both squares underflow; the division then answers an
    infinity or a NaN here, where Python floats raise: see
    [distance_point_to_segment_or_raise]. *)
Definition distance_point_to_segment (self a b : t) : F :=
  let dx := x b - x a in
  let dy := y b - y a in
  if (dx =? dy) && (dy =? of_Z 0) then distance_to self a
  else
    let t := clamp01 (((x self - x a) * dx + (y self - y a) * dy)
                      / (dx * dx + dy * dy)) in
    let closest := make (x a + t * dx) (y a + t * dy) "" in
    distance_to self closest.

(** What the arithmetic of Python floats raises: [v ** 2] raises
    [OverflowError] when [v] is finite and its square is not, and [a / b]
    raises [ZeroDivisionError] when [b == 0].  The coordinates of the
    points a caller supplies are Python floats; the float64 of numpy, which
    [np.sqrt] returns, raises neither. *)
Definition power2 (v : F) : result F :=
  if lt_inf (abs v) && negb (lt_inf (v * v)) then raise OverflowError
  else ret (v * v).


(** [distance_to], with what it raises on Python floats. *)
Definition distance_to_or_raise (self other : t) : result F :=
  and_then (power2 (x self - x other)) (fun square_x =>
  and_then (power2 (y self - y other)) (fun square_y =>
  ret (sqrt (square_x + square_y) - error self))).


(** The literal [0.01]. *)
Definition tolerance : F := of_Z 1 / of_Z 100.

Definition __eq__ (self other : t) : bool :=
  (abs (x self - x other) <? tolerance) && (abs (y self - y other) <? tolerance).

(** [hash((self.x, self.y))]: the value handed to the builtin hash is the
    pair of exact coordinates.  The builtin is modelled as collision free,
    so two hashes are equal exactly when the two pairs are. *)
Definition __hash__ (self : t) : F * F := (x self, y self).

Definition to_dict (self : t) : json F :=
  JDict [("x"%string, JNum (x self)); ("y"%string, JNum (y self));
         ("name"%string, JStr (name self))].

(** [Point(data["x"], data["y"], data.get("name", ""))], the arguments
    evaluated from left to right. *)
Definition from_dict (data : json F) : result t :=
  and_then (and_then (Json.getitem data "x") Json.as_number) (fun vx =>
  and_then (and_then (Json.getitem data "y") Json.as_number) (fun vy =>
  and_then (and_then (Json.get data "name" (JStr "")) Json.as_string) (fun vname =>
  ret (make vx vy vname)))).

End WithNumber.
Arguments t F : clear implicits.
End Point.


(** ** Python containers *)

(** A Python [set] of points is a list of pairwise distinct elements kept in
    iteration order.  Two elements are the same member when their hashes
    agree and [__eq__] holds.  Insertion order is taken as iteration order;
    removing a member leaves the order of the others unchanged. *)
Module PySet.
Section WithNumber.
Context {F : Type} {num : Number F}.
Local Open Scope num_scope.

Definition hash_eqb (h1 h2 : F * F) : bool :=
  (fst h1 =? fst h2) && (snd h1 =? snd h2).

Definition same_member (p q : Point.t F) : bool :=
  hash_eqb (Point.__hash__ p) (Point.__hash__ q) && Point.__eq__ p q.

Definition mem (p : Point.t F) (s : list (Point.t F)) : bool :=
  existsb (same_member p) s.

Definition add (p : Point.t F) (s : list (Point.t F)) : list (Point.t F) :=
  if mem p s then s else s ++ [p].

(** [s.remove(p)]; every call in the sources removes a member of [s], so
    the [KeyError] branch is never taken. *)
Definition remove (p : Point.t F) (s : list (Point.t F)) : list (Point.t F) :=
  filter (fun q => negb (same_member p q)) s.

Definition of_list (l : list (Point.t F)) : list (Point.t F) :=
  fold_left (fun s p => add p s) l [].

End WithNumber.
End PySet.

(** Loops whose number of iterations is not fixed in advance take fuel and
    answer [None] when it runs out. *)
Definition bind {A B : Type} (o : option A) (k : A -> option B) : option B :=
  match o with
  | Some a => k a
  | None => None
  end.
Notation "x <- c ;; k" := (bind c (fun x => k))
  (at level 61, c at next level, right associativity).

(** [range(a, b)] *)
Definition range (a b : nat) : list nat := seq a (b - a).

Fixpoint find_first {A B : Type} (f : A -> option B) (l : list A) : option B :=
  match l with
  | [] => None
  | a :: l' => match f a with
               | Some b => Some b
               | None => find_first f l'
               end
  end.

(** [l[i] = v] for an index in range. *)
Fixpoint set_nth {A : Type} (i : nat) (v : A) (l : list A) {struct l} : list A :=
  match l, i with
  | [], _ => []
  | _ :: l', O => v :: l'
  | a :: l', S i' => a :: set_nth i' v l'
  end.

(** ** core/map.py *)

Module Map.
Section WithNumber.
Context {F : Type} {num : Number F}.
Local Open Scope num_scope.

Record t : Type := make {
  start_point : Point.t F;
  end_point : Point.t F;
  objects : list (Point.t F);
  max_distance : F;
  survey_radius : F
}.

Definition add_object (self : t) (point : Point.t F) : t :=
  make (start_point self) (end_point self) (objects self ++ [point])
       (max_distance self) (survey_radius self).

Definition validate (self : t) : bool :=
  if Point.__eq__ (start_point self) (end_point self) then false
  else if max_distance self <=? of_Z 0 then false
  else if survey_radius self <? of_Z 0 then false
  else
    let direct_distance := Point.distance_to (start_point self) (end_point self) in
    if direct_distance >? max_distance self then false
    else true.

(** [validate], with what it raises: the start and the end point are
    points the caller supplied. *)
Definition validate_or_raise (self : t) : result bool :=
  if Point.__eq__ (start_point self) (end_point self) then ret false
  else if max_distance self <=? of_Z 0 then ret false
  else if survey_radius self <? of_Z 0 then ret false
  else
    and_then (Point.distance_to_or_raise (start_point self) (end_point self))
      (fun direct_distance =>
         if direct_distance >? max_distance self then ret false
         else ret true).

Definition get_objects (self : t) : list (Point.t F) := objects self.

Definition to_dict (self : t) : json F :=
  JDict [("start_point"%string, Point.to_dict (start_point self));
         ("end_point"%string, Point.to_dict (end_point self));
         ("objects"%string, JList (map Point.to_dict (objects self)));
         ("max_distance"%string, JNum (max_distance self));
         ("survey_radius"%string, JNum (survey_radius self))].

(** The [for obj_data in data["objects"]] loop of [from_dict]. *)
Fixpoint add_objects (map_obj : t) (items : list (json F)) : result t :=
  match items with
  | [] => ret map_obj
  | obj_data :: items' =>
      and_then (Point.from_dict obj_data) (fun p =>
      add_objects (add_object map_obj p) items')
  end.

Definition from_dict (data : json F) : result t :=
  and_then (and_then (Json.getitem data "start_point") Point.from_dict) (fun s =>
  and_then (and_then (Json.getitem data "end_point") Point.from_dict) (fun e =>
  and_then (and_then (Json.getitem data "max_distance") Json.as_number) (fun l =>
  and_then (and_then (Json.getitem data "survey_radius") Json.as_number) (fun r =>
  and_then (and_then (Json.getitem data "objects") Json.as_list) (fun items =>
  add_objects (make s e [] l r) items))))).

End WithNumber.
Arguments t F : clear implicits.
End Map.

(** ** core/solver.py *)

Module Solver.
Section WithNumber.
Context {F : Type} {num : Number F}.
Local Open Scope num_scope.

Definition route_t : Type := list (Point.t F).

(** The pairs [(route[i], route[i + 1])]. *)
Fixpoint segments (route : route_t) : list (Point.t F * Point.t F) :=
  match route with
  | a :: (b :: _) as tl => (a, b) :: segments tl
  | _ => []
  end.

Definition calculate_route_distance (route : route_t) : F :=
  if (length route <? 2)%nat then of_Z 0
  else fold_left (fun total ab => total + Point.distance_to (fst ab) (snd ab))
                 (segments route) (of_Z 0).

Definition is_surveyed (map_data : Map.t F) (route : route_t) (obj : Point.t F) : bool :=
  existsb (fun ab => Point.distance_point_to_segment obj (fst ab) (snd ab)
                     <=? Map.survey_radius map_data)
          (segments route).

Definition get_surveyed_objects (map_data : Map.t F) (route : route_t) : list (Point.t F) :=
  let route := [Map.start_point map_data] ++ route ++ [Map.end_point map_data] in
  fold_left (fun surveyed obj =>
               if is_surveyed map_data route obj then PySet.add obj surveyed
               else surveyed)
            (Map.objects map_data) [].

Definition is_valid_route (map_data : Map.t F) (route : route_t) : bool :=
  if (length route <? 2)%nat then false
  else
    match hd_error route, hd_error (rev route) with
    | Some first, Some last =>
        if negb (Point.__eq__ first (Map.start_point map_data))
           || negb (Point.__eq__ last (Map.end_point map_data))
        then false
        else calculate_route_distance route <=? Map.max_distance map_data
    | _, _ => false
    end.

End WithNumber.
End Solver.

(** ** core/greedy.py *)

Module GreedySolver.
Section WithNumber.
Context {F : Type} {num : Number F}.
Local Open Scope num_scope.

Definition _find_intersection_with_circle
    (start target center : Point.t F) (radius : F) : option (Point.t F) :=
  let dx := Point.x target - Point.x start in
  let dy := Point.y target - Point.y start in
  let dist := sqrt (dx * dx + dy * dy) in
  if dist =? of_Z 0 then Some start
  else
    let dx := dx / dist in
    let dy := dy / dist in
    let dist_to_center := Point.distance_to start center in
    if dist_to_center <=? radius then Some start
    else
      let projection := (Point.x center - Point.x start) * dx
                        + (Point.y center - Point.y start) * dy in
      if projection <=? of_Z 0 then None
      else
        let closest_x := Point.x start + projection * dx in
        let closest_y := Point.y start + projection * dy in
        let dist_to_line :=
          sqrt ((Point.x center - closest_x) * (Point.x center - closest_x)
                + (Point.y center - closest_y) * (Point.y center - closest_y)) in
        if dist_to_line >? radius then None
        else
          let offset := sqrt (radius * radius - dist_to_line * dist_to_line) in
          let intersection_x := closest_x - offset * dx in
          let intersection_y := closest_y - offset * dy in
          Some (Point.make intersection_x intersection_y "").

Definition _point_to_line_distance (point line_start line_end : Point.t F) : F :=
  let x1 := Point.x line_start in
  let y1 := Point.y line_start in
  let x2 := Point.x line_end in
  let y2 := Point.y line_end in
  let x0 := Point.x point in
  let y0 := Point.y point in
  let line_length := Point.distance_to line_start line_end in
  if line_length =? of_Z 0 then Point.distance_to point line_start
  else
    let t := Point.clamp01 (((x0 - x1) * (x2 - x1) + (y0 - y1) * (y2 - y1))
                            / (line_length * line_length)) in
    let nearest_x := x1 + t * (x2 - x1) in
    let nearest_y := y1 + t * (y2 - y1) in
    sqrt ((x0 - nearest_x) * (x0 - nearest_x) + (y0 - nearest_y) * (y0 - nearest_y)).

(** The local variables of [solve]. *)
Record state : Type := mkState {
  route : list (Point.t F);
  surveyed_objects : list (Point.t F);
  current_position : Point.t F;
  route_length : F;
  unsurveyed_objects : list (Point.t F)
}.

Inductive flow : Type :=
| Continue (s : state)
| Break (s : state).

(** The scan for the nearest unsurveyed object; [min_distance] starts at
    [float('inf')], which is [None] here. *)
Definition nearest_step (current_position : Point.t F)
    (acc : option F * option (Point.t F)) (obj : Point.t F)
    : option F * option (Point.t F) :=
  let dist := Point.distance_to current_position obj in
  let smaller := match fst acc with
                 | None => lt_inf dist
                 | Some min_distance => dist <? min_distance
                 end in
  if smaller then (Some dist, Some obj) else acc.

Definition find_nearest (current_position : Point.t F)
    (unsurveyed : list (Point.t F)) : option (Point.t F) :=
  snd (fold_left (nearest_step current_position) unsurveyed (None, None)).

(** The [while] condition. *)
Definition guard (map_data : Map.t F) (s : state) : bool :=
  (route_length s + Point.distance_to (current_position s) (Map.end_point map_data)
     <=? Map.max_distance map_data)
  && negb (Nat.eqb (length (unsurveyed_objects s)) 0).

(** One pass through the body of the [while] loop. *)
Definition body (map_data : Map.t F) (s : state) : flow :=
  match find_nearest (current_position s) (unsurveyed_objects s) with
  | None => Break s
  | Some nearest_object =>
      match _find_intersection_with_circle (current_position s) nearest_object
              nearest_object (Map.survey_radius map_data) with
      | None =>
          Continue (mkState (route s) (surveyed_objects s) (current_position s)
                            (route_length s)
                            (PySet.remove nearest_object (unsurveyed_objects s)))
      | Some intersection =>
          let new_route_length :=
            route_length s + Point.distance_to (current_position s) intersection in
          let distance_to_end :=
            Point.distance_to intersection (Map.end_point map_data) in
          let total_needed := new_route_length + distance_to_end in
          if total_needed >? Map.max_distance map_data then Break s
          else
            let objects_to_survey :=
              filter (fun obj => Point.distance_to intersection obj
                                 <=? Map.survey_radius map_data)
                     (unsurveyed_objects s) in
            Continue (mkState
              (route s ++ [intersection])
              (fold_left (fun acc obj => PySet.add obj acc)
                         objects_to_survey (surveyed_objects s))
              intersection
              new_route_length
              (fold_left (fun acc obj => PySet.remove obj acc)
                         objects_to_survey (unsurveyed_objects s)))
      end
  end.

Fixpoint while_loop (fuel : nat) (map_data : Map.t F) (s : state) : option state :=
  match fuel with
  | O => None
  | S fuel' =>
      if guard map_data s then
        match body map_data s with
        | Continue s' => while_loop fuel' map_data s'
        | Break s' => Some s'
        end
      else Some s
  end.

(** The state on entry to the loop.  The order in which Python iterates
    [set(self.map_data.objects)] is not fixed by the language; [unsurveyed]
    is that set in the order it is iterated. *)
Definition initial_state (map_data : Map.t F) (unsurveyed : list (Point.t F))
    : state :=
  mkState [Map.start_point map_data] [] (Map.start_point map_data) (of_Z 0)
          unsurveyed.

(** Everything after the [while] loop. *)
Definition finish (map_data : Map.t F) (s : state)
    : list (Point.t F) * list (Point.t F) * F :=
  let surveyed :=
    if negb (Nat.eqb (length (unsurveyed_objects s)) 0)
       && (route_length s
           + Point.distance_to (current_position s) (Map.end_point map_data)
           <=? Map.max_distance map_data)
    then
      fold_left (fun acc obj =>
                   if _point_to_line_distance obj (current_position s)
                        (Map.end_point map_data)
                      <=? Map.survey_radius map_data
                   then PySet.add obj acc else acc)
                (unsurveyed_objects s) (surveyed_objects s)
    else surveyed_objects s in
  let route := route s ++ [Map.end_point map_data] in
  let total_distance := Solver.calculate_route_distance route in
  (route, surveyed, total_distance).

Definition solve_in_order (fuel : nat) (map_data : Map.t F)
    (unsurveyed : list (Point.t F))
    : option (list (Point.t F) * list (Point.t F) * F) :=
  s <- while_loop fuel map_data (initial_state map_data unsurveyed) ;;
  Some (finish map_data s).

(** [solve], with the set iterated in insertion order.  CPython iterates a
    set by hash slot, so a property that depends on the order is stated for
    [solve_in_order], for every order. *)
Definition solve (fuel : nat) (map_data : Map.t F)
    : option (list (Point.t F) * list (Point.t F) * F) :=
  solve_in_order fuel map_data (PySet.of_list (Map.objects map_data)).

End WithNumber.
End GreedySolver.

(** ** core/heuristic.py *)

Module HeuristicSolver.
Section WithNumber.
Context {F : Type} {num : Number F}.
Local Open Scope num_scope.

Definition max_iterations : nat := 50.

(** [min(l, key=key)]: the first element whose key no later one beats. *)
Fixpoint min_by (key : Point.t F -> F) (best : Point.t F) (l : list (Point.t F))
    : Point.t F :=
  match l with
  | [] => best
  | p :: l' => min_by key (if key p <? key best then p else best) l'
  end.

(** [l.remove(v)]: drops the first element equal to [v] under [__eq__]. *)
Fixpoint list_remove (v : Point.t F) (l : list (Point.t F)) : list (Point.t F) :=
  match l with
  | [] => []
  | p :: l' => if Point.__eq__ p v then l' else p :: list_remove v l'
  end.

(** The [while remaining_objects] loop of [_greedy_initial_route]. *)
Fixpoint chain (fuel : nat) (route : list (Point.t F))
    (current_position : Point.t F) (remaining_objects : list (Point.t F))
    : option (list (Point.t F)) :=
  match remaining_objects with
  | [] => Some route
  | p :: l' =>
      match fuel with
      | O => None
      | S fuel' =>
          let closest_obj :=
            min_by (fun obj => Point.distance_to current_position obj) p l' in
          chain fuel' (route ++ [closest_obj]) closest_obj
                (list_remove closest_obj remaining_objects)
      end
  end.

Definition _greedy_initial_route (fuel : nat) (map_data : Map.t F)
    : option (list (Point.t F)) :=
  route <- chain fuel [Map.start_point map_data] (Map.start_point map_data)
                 (Map.objects map_data) ;;
  Some (route ++ [Map.end_point map_data]).

(** [route[:i] + route[i:j + 1][::-1] + route[j + 1:]] *)
Definition reverse_segment (route : list (Point.t F)) (i j : nat)
    : list (Point.t F) :=
  firstn i route ++ rev (firstn (j + 1 - i) (skipn i route)) ++ skipn (j + 1) route.

(** One run of the two nested [for] loops: the first reversal that beats
    [best_distance], if any. *)
Definition scan_2opt (route : list (Point.t F)) (best_distance : F)
    : option (list (Point.t F)) :=
  find_first (fun i =>
    find_first (fun j =>
      let new_route := reverse_segment route i j in
      let new_distance := Solver.calculate_route_distance new_route in
      if new_distance <? best_distance then Some new_route else None)
      (range (i + 1) (length route - 1)))
    (range 1 (length route - 2)).

(** The [while improved] loop. *)
Fixpoint improve_loop (fuel : nat) (route best_route : list (Point.t F))
    (best_distance : F) : option (list (Point.t F)) :=
  match fuel with
  | O => None
  | S fuel' =>
      match scan_2opt route best_distance with
      | Some new_route =>
          improve_loop fuel' new_route new_route
                       (Solver.calculate_route_distance new_route)
      | None => Some best_route
      end
  end.

Definition _local_search_2opt (fuel : nat) (route : list (Point.t F))
    : option (list (Point.t F)) :=
  improve_loop fuel route route (Solver.calculate_route_distance route).

Definition _project_point_on_segment (point seg_start seg_end : Point.t F)
    : Point.t F :=
  let seg_vec_x := Point.x seg_end - Point.x seg_start in
  let seg_vec_y := Point.y seg_end - Point.y seg_start in
  let point_vec_x := Point.x point - Point.x seg_start in
  let point_vec_y := Point.y point - Point.y seg_start in
  let seg_len_sq := seg_vec_x * seg_vec_x + seg_vec_y * seg_vec_y in
  if seg_len_sq =? of_Z 0 then seg_start
  else
    let t := Point.clamp01 ((point_vec_x * seg_vec_x + point_vec_y * seg_vec_y)
                            / seg_len_sq) in
    Point.make (Point.x seg_start + t * seg_vec_x)
               (Point.y seg_start + t * seg_vec_y) "".

Definition _optimize_point_position (map_data : Map.t F)
    (obj_point prev_point next_point : Point.t F) : Point.t F :=
  let projection := _project_point_on_segment obj_point prev_point next_point in
  let to_proj_x := Point.x projection - Point.x obj_point in
  let to_proj_y := Point.y projection - Point.y obj_point in
  let dist_to_proj := sqrt (to_proj_x * to_proj_x + to_proj_y * to_proj_y) in
  if dist_to_proj =? of_Z 0 then obj_point
  else
    let to_proj_x := to_proj_x / dist_to_proj in
    let to_proj_y := to_proj_y / dist_to_proj in
    if dist_to_proj <=? Map.survey_radius map_data then projection
    else
      Point.make (Point.x obj_point + to_proj_x * Map.survey_radius map_data)
                 (Point.y obj_point + to_proj_y * Map.survey_radius map_data) "".

(** The body of the [for i] loop of [_geometric_optimization]; [route] is
    the argument, read only, and [optimized_route] the copy being updated.
    The three indices are in range for every [i] the loop supplies. *)
Definition geometric_step (map_data : Map.t F) (route : list (Point.t F))
    (optimized_route : list (Point.t F)) (i : nat) : list (Point.t F) :=
  match nth_error route (i - 1), nth_error route i, nth_error route (i + 1) with
  | Some prev, Some cur, Some next =>
      match find (fun obj => Point.distance_to cur obj
                             <=? Map.survey_radius map_data)
                 (Map.objects map_data) with
      | Some original_obj =>
          let new_position :=
            _optimize_point_position map_data original_obj prev next in
          let old_dist := Point.distance_to prev cur + Point.distance_to cur next in
          let new_dist := Point.distance_to prev new_position
                          + Point.distance_to new_position next in
          if new_dist <? old_dist then set_nth i new_position optimized_route
          else optimized_route
      | None => optimized_route
      end
  | _, _, _ => optimized_route
  end.

Definition _geometric_optimization (map_data : Map.t F) (route : list (Point.t F))
    : list (Point.t F) :=
  fold_left (geometric_step map_data route) (range 1 (length route - 1)) route.

(** [route[:i] + route[i + 1:]] *)
Definition drop_nth (route : list (Point.t F)) (i : nat) : list (Point.t F) :=
  firstn i route ++ skipn (i + 1) route.

Definition _remove_farthest_point (map_data : Map.t F) (route : list (Point.t F))
    : list (Point.t F) :=
  if (length route <=? 3)%nat
  then [Map.start_point map_data; Map.end_point map_data]
  else
    fst (fold_left
           (fun acc i =>
              let temp_route := drop_nth route i in
              let temp_distance := Solver.calculate_route_distance temp_route in
              if temp_distance <? snd acc then (temp_route, temp_distance) else acc)
           (range 1 (length route - 1))
           (route, Solver.calculate_route_distance route)).

(** How the [while iteration < max_iterations] loop was left. *)
Inductive exit : Type :=
| Feasible      (* first [break]: the budget is met *)
| Collapsed     (* second [break]: at most two points are left *)
| Exhausted.    (* the condition failed: the cap was reached *)

(** One pass through the body of the outer loop: either a [break] with the
    final route, or the route the next iteration starts from. *)
Definition iteration (fuel : nat) (map_data : Map.t F) (route : list (Point.t F))
    : option (exit * list (Point.t F) + list (Point.t F)) :=
  route <- _local_search_2opt fuel route ;;
  let route := _geometric_optimization map_data route in
  let current_distance := Solver.calculate_route_distance route in
  if current_distance <=? Map.max_distance map_data
  then Some (inl (Feasible, route))
  else
    let route := _remove_farthest_point map_data route in
    if (length route <=? 2)%nat then Some (inl (Collapsed, route))
    else Some (inr route).

(** The outer loop, with [remaining = max_iterations - iteration].  The
    answer carries the final route, the way the loop was left, and
    [history]: the working route at the start of every iteration entered. *)
Fixpoint outer_loop (fuel remaining : nat) (map_data : Map.t F)
    (route : list (Point.t F)) (history : list (list (Point.t F)))
    : option (list (Point.t F) * exit * list (list (Point.t F))) :=
  match remaining with
  | O => Some (route, Exhausted, history)
  | S remaining' =>
      r <- iteration fuel map_data route ;;
      match r with
      | inl (e, route') => Some (route', e, history ++ [route])
      | inr route' =>
          outer_loop fuel remaining' map_data route' (history ++ [route])
      end
  end.

Definition run (fuel : nat) (map_data : Map.t F)
    : option (list (Point.t F) * exit * list (list (Point.t F))) :=
  route <- _greedy_initial_route fuel map_data ;;
  outer_loop fuel max_iterations map_data route [].

Definition solve (fuel : nat) (map_data : Map.t F)
    : option (list (Point.t F) * list (Point.t F) * F) :=
  r <- run fuel map_data ;;
  let route := fst (fst r) in
  let surveyed_objects := Solver.get_surveyed_objects map_data route in
  let total_distance := Solver.calculate_route_distance route in
  Some (route, surveyed_objects, total_distance).

End WithNumber.
End HeuristicSolver.

(** ** runner.py *)

Module Runner.
Section WithNumber.
Context {F : Type} {num : Number F}.
Local Open Scope num_scope.

(** [len(surveyed) / len(map_data.objects) * 100 if map_data.objects else 0],
    the coverage [run_single_experiment] reports. *)
Definition coverage (surveyed : list (Point.t F)) (map_data : Map.t F) : F :=
  if Nat.eqb (length (Map.objects map_data)) 0 then of_Z 0
  else of_Z (Z.of_nat (length surveyed))
       / of_Z (Z.of_nat (length (Map.objects map_data)))
       * of_Z 100.

End WithNumber.
End Runner.

(** ** data/data_generator.py *)

Module DataGenerator.
Section WithNumber.
Context {F : Type} {num : Number F}.
Local Open Scope num_scope.

Definition _is_point_unique (point : Point.t F) (existing_points : list (Point.t F))
    : bool :=
  let min_distance := of_Z 5 in
  (fix scan (l : list (Point.t F)) : bool :=
     match l with
     | [] => true
     | existing :: l' =>
         if Point.distance_to point existing <? min_distance then false
         else scan l'
     end) existing_points.

End WithNumber.

(** The rest of the generator works on the reals: it truncates a distance
    to an integer and numbers the objects in their names. *)

(** [int(x)]: truncation towards zero. *)
Definition int (x : R) : Z :=
  if Rle_dec 0 x then Int_part x else (- Int_part (- x))%Z.

(** [f"Object_{i + 1}"] *)
Definition object_name (i : nat) : string :=
  ("Object_" ++ NilEmpty.string_of_uint (Nat.to_uint (i + 1)))%string.

(** The [while True] loop that places one object.  [draws] holds the
    values the calls of [random.uniform] return, in the order of the calls,
    two for every attempt; the answer is the point placed and the draws
    left, or [None] when the draws run out. *)
Fixpoint place_object (draws : list R) (name : string)
    (existing_points : list (Point.t R)) : option (Point.t R * list R) :=
  match draws with
  | x :: y :: draws' =>
      let new_point := Point.make x y name in
      if _is_point_unique new_point existing_points then Some (new_point, draws')
      else place_object draws' name existing_points
  | _ => None
  end.

(** The [for i in range(n)] loop, from [i] on, with [count] objects still
    to place. *)
Fixpoint place_objects (count i : nat) (draws : list R)
    (start end_ : Point.t R) (map_data : Map.t R) : option (Map.t R) :=
  match count with
  | O => Some map_data
  | S count' =>
      match place_object draws (object_name i)
              ([start; end_] ++ Map.objects map_data) with
      | Some (new_point, draws') =>
          place_objects count' (S i) draws' start end_
                        (Map.add_object map_data new_point)
      | None => None
      end
  end.

Definition generate_single_task (plane_size : R) (draws : list R)
    (n : nat) (L r : R) : option (Map.t R) :=
  match draws with
  | y_start :: y_end :: draws' =>
      let start := Point.make 0%R y_start "Start" in
      let end_ := Point.make plane_size y_end "End" in
      let L := if Rltb L (Point.distance_to start end_)
               then IZR (int (Point.distance_to start end_ * (12 / 10))%R)
               else L in
      let map_data := Map.make start end_ [] L r in
      place_objects n 0 draws' start end_ map_data
  | _ => None
  end.

End DataGenerator.

(** * Vocabulary of the properties *)

Abbreviation fpt a b := (@Point.make float a%float b%float EmptyString).
Abbreviation rpt a b := (@Point.make R a%R b%R EmptyString).

(** The Euclidean distance of the specification. *)
Definition euclid (a b : Point.t R) : R :=
  R_sqrt.sqrt ((Point.x b - Point.x a) ^ 2 + (Point.y b - Point.y a) ^ 2).

(** A route in the sense of the data model: from the start point to the
    end point, with at least two points. *)
Definition well_formed_route (m : Map.t R) (route : list (Point.t R)) : Prop :=
  hd_error route = Some (Map.start_point m)
  /\ last route (Map.start_point m) = Map.end_point m
  /\ (2 <= length route)%nat.

(** Two routes with the same first point, the same last point and the
    same number of points. *)
Definition same_ends (r r' : list (Point.t R)) : Prop :=
  hd_error r' = hd_error r
  /\ (forall d, last r' d = last r d)
  /\ length r' = length r.

(** The same map with another survey radius. *)
Definition with_radius (m : Map.t R) (r : R) : Map.t R :=
  Map.make (Map.start_point m) (Map.end_point m) (Map.objects m)
           (Map.max_distance m) r.

(** The number of surveyed objects in a solver's answer. *)
Definition surveyed_count {F : Type}
    (answer : option (list (Point.t F) * list (Point.t F) * F)) : option nat :=
  option_map (fun a => length (snd (fst a))) answer.

(** ** Invariants and measures *)

(** The sum over the consecutive pairs of a route, as the loop of
    [calculate_route_distance] accumulates it. *)
Definition path_length (route : list (Point.t R)) : R :=
  fold_left (fun total ab => (total + Point.distance_to (fst ab) (snd ab))%R)
            (Solver.segments route) 0%R.

(** What the greedy loop maintains: the route starts at the start point and
    ends at the current position, [route_length] is the length of the route
    so far, and the end point is still within the budget from there. *)
Definition greedy_inv (m : Map.t R) (s : GreedySolver.state) : Prop :=
  hd_error (GreedySolver.route s) = Some (Map.start_point m)
  /\ last (GreedySolver.route s) (Map.start_point m)
     = GreedySolver.current_position s
  /\ GreedySolver.route_length s = path_length (GreedySolver.route s)
  /\ (GreedySolver.route_length s
      + Point.distance_to (GreedySolver.current_position s) (Map.end_point m)
      <= Map.max_distance m)%R.

(** All the orders in which the elements of a list can be arranged; 2-opt
    only ever moves between these. *)
Fixpoint insert_all {A : Type} (a : A) (l : list A) : list (list A) :=
  match l with
  | [] => [[a]]
  | x :: t => (a :: x :: t) :: map (cons x) (insert_all a t)
  end.

Fixpoint all_perms {A : Type} (l : list A) : list (list A) :=
  match l with
  | [] => [[]]
  | a :: t => flat_map (insert_all a) (all_perms t)
  end.

(** How many arrangements of [route0] are shorter than [d]: the measure
    that every accepted 2-opt move decreases. *)
Definition shorter_arrangements (route0 : list (Point.t R)) (d : R) : nat :=
  length (filter (fun r => Rltb (Solver.calculate_route_distance r) d)
                 (all_perms route0)).

(** ** Concrete inputs *)

(** C3: a map that passes validation although start and end are farther
    apart (5) than the budget (4.5). *)
Definition map_c3 : Map.t R :=
  Map.make (rpt 0 0) (rpt 3 4) [] (9/2)%R 0%R.

Definition fmap_c3 : Map.t float :=
  Map.make (fpt 0 0) (fpt 3 4) [] 4.5%float 0%float.

(** C4: the point (0.005, 0); the quotient is the double the literal
    [0.005] denotes. *)
Definition fpt_near : Point.t float := fpt (1 / 200)%float 0%float.

(** C5: a validated map on which the post-loop coverage test of the greedy
    solver and the coverage test of [get_surveyed_objects] disagree. *)
Definition map_c5 : Map.t R :=
  Map.make (rpt 0 0) (rpt 10 0) [rpt 14 0] 9%R 3%R.

Definition fmap_c5 : Map.t float :=
  Map.make (fpt 0 0) (fpt 10 0) [fpt 14 0] 9%float 3%float.

(** C6: a validated map on which the heuristic starts from a route within
    the budget and ends, after fifty iterations, on a longer one outside
    it. *)
Definition fmap_c6_run : Map.t float :=
  Map.make (fpt 0 0) (fpt 4 4) [fpt 3 (-3); fpt 2 (-2); fpt 3 1] 8%float 8%float.

(** C6: a validated map, and the route 2-opt returns on it in the first
    iteration of the heuristic, with distances that are all rational. *)
Definition map_c6_step : Map.t R :=
  Map.make (rpt 0 0) (rpt 17 0) [rpt 7 24; rpt 14 0] 20%R 24%R.

Definition route_c6_step : list (Point.t R) :=
  [rpt 0 0; rpt 7 24; rpt 14 0; rpt 17 0].

Definition fmap_c6_step : Map.t float :=
  Map.make (fpt 0 0) (fpt 17 0) [fpt 7 24; fpt 14 0] 20%float 24%float.

Definition froute_c6_step : list (Point.t float) :=
  [fpt 0 0; fpt 7 24; fpt 14 0; fpt 17 0].

(** C8: a map, validated for every radius that is not negative, on which
    the greedy solver surveys fewer objects once the survey radius grows
    from 3 to 6.  No two objects are equally near at any step, so the
    order in which the unsurveyed set is iterated does not matter. *)
Definition map_c8 (r : R) : Map.t R :=
  Map.make (rpt 0 0) (rpt 8 0) [rpt (-6) 0; rpt (-16) 0; rpt 12 0] 33%R r.

Definition fmap_c8 (r : float) : Map.t float :=
  Map.make (fpt 0 0) (fpt 8 0) [fpt (-6) 0; fpt (-16) 0; fpt 12 0] 33%float r.

(** C9: a map with a survey radius below -1 and an object on the start
    point; it does not pass validation. *)
Definition map_c9 : Map.t R :=
  Map.make (rpt 0 0) (rpt 1 0) [rpt 0 0] 10%R (-2)%R.

(** C3: a map whose end points are 2^601 apart; the square of that
    difference is not a binary64 number. *)
Definition fmap_apart : Map.t float :=
  Map.make (fpt (-0x1p600) 0) (fpt 0x1p600 0) [] 1%float 0%float.

(** C1, C2, C9: validated maps with an object about 1e17 away from the
    start, where neighbouring binary64 numbers are 16 apart. *)
Definition fmap_far : Map.t float :=
  Map.make (fpt 0 0) (fpt 100000000000001600 0)
           [fpt 100000000000000016 0] 1e18%float 10%float.

Definition fmap_far_detour : Map.t float :=
  Map.make (fpt 0 0) (fpt 100000000000001600 0)
           [fpt 100 0; fpt 100000000000000016 0] 1e18%float 10%float.

Definition fmap_far_north : Map.t float :=
  Map.make (fpt 0 0) (fpt 0 100000000000001600)
           [fpt 0 100000000000000016] 1e18%float 10%float.

(** ** Vocabulary of the further properties *)

(** A nearest-neighbour chain: every point of [visits] is, from the point
    before it, one of the nearest among itself and the points after it. *)
Fixpoint nearest_first (cur : Point.t R) (visits : list (Point.t R)) : Prop :=
  match visits with
  | [] => True
  | v :: rest =>
      (forall w, In w (v :: rest) ->
         (Point.distance_to cur v <= Point.distance_to cur w)%R)
      /\ nearest_first v rest
  end.

(** The Euclidean length of a route: the sum over its legs. *)
Definition euclid_length (route : list (Point.t R)) : R :=
  fold_right (fun ab acc => (euclid (fst ab) (snd ab) + acc)%R) 0%R
             (Solver.segments route).

(** What the greedy loop keeps about its surveyed set: every member came
    from the set [U] the loop started with and is within the radius of a
    point of the route so far. *)
Definition surveyed_inv (m : Map.t R) (U : list (Point.t R))
    (s : GreedySolver.state) : Prop :=
  GreedySolver.route s <> []
  /\ last (GreedySolver.route s) (Map.start_point m) = GreedySolver.current_position s
  /\ incl (GreedySolver.unsurveyed_objects s) U
  /\ forall p, In p (GreedySolver.surveyed_objects s) ->
       In p U /\ exists w, In w (GreedySolver.route s)
                           /\ (Point.distance_to p w <= Map.survey_radius m)%R.

(** Points at Euclidean distance 6 or more from one another. *)
Definition far_apart (p q : Point.t R) : Prop := (6 <= euclid p q)%R.

(** * Properties *)

Local Open Scope R_scope.

(** ** Comparisons on the reals *)

Lemma Rltb_true_iff (a b : R) : Rltb a b = true <-> a < b.
Proof. unfold Rltb; destruct (Rlt_dec a b); split; intros; auto; discriminate. Qed.

Lemma Rltb_false_iff (a b : R) : Rltb a b = false <-> b <= a.
Proof.
  unfold Rltb; destruct (Rlt_dec a b); split; intros; auto; try discriminate; lra.
Qed.

Lemma Rleb_true_iff (a b : R) : Rleb a b = true <-> a <= b.
Proof. unfold Rleb; destruct (Rle_dec a b); split; intros; auto; discriminate. Qed.

Lemma Rleb_false_iff (a b : R) : Rleb a b = false <-> b < a.
Proof.
  unfold Rleb; destruct (Rle_dec a b); split; intros; auto; try discriminate; lra.
Qed.

Lemma Reqb_true_iff (a b : R) : Reqb a b = true <-> a = b.
Proof. unfold Reqb; destruct (Req_dec_T a b); split; intros; auto; discriminate. Qed.

Lemma Reqb_false_iff (a b : R) : Reqb a b = false <-> a <> b.
Proof.
  unfold Reqb; destruct (Req_dec_T a b); split; intros; auto; try discriminate.
  contradiction.
Qed.

Lemma Reqb_refl (a : R) : Reqb a a = true.
Proof. apply Reqb_true_iff; reflexivity. Qed.

(** Turn every boolean comparison on reals in the context and the goal into
    the proposition it decides. *)
Ltac reflect_R :=
  repeat match goal with
    | H : Rltb _ _ = true |- _ => apply Rltb_true_iff in H
    | H : Rltb _ _ = false |- _ => apply Rltb_false_iff in H
    | H : Rleb _ _ = true |- _ => apply Rleb_true_iff in H
    | H : Rleb _ _ = false |- _ => apply Rleb_false_iff in H
    | H : Reqb _ _ = true |- _ => apply Reqb_true_iff in H
    | H : Reqb _ _ = false |- _ => apply Reqb_false_iff in H
    | |- Rltb _ _ = true => apply Rltb_true_iff
    | |- Rltb _ _ = false => apply Rltb_false_iff
    | |- Rleb _ _ = true => apply Rleb_true_iff
    | |- Rleb _ _ = false => apply Rleb_false_iff
    | |- Reqb _ _ = true => apply Reqb_true_iff
    | |- Reqb _ _ = false => apply Reqb_false_iff
    end.

(** ** Distances *)

Lemma distance_to_unfold (a b : Point.t R) :
  Point.distance_to a b
  = R_sqrt.sqrt ((Point.x a - Point.x b) * (Point.x a - Point.x b)
                 + (Point.y a - Point.y b) * (Point.y a - Point.y b)) - 1.
Proof. reflexivity. Qed.

Lemma distance_to_euclid (a b : Point.t R) :
  Point.distance_to a b = euclid a b - Point.error a.
Proof.
  rewrite distance_to_unfold. unfold euclid, Point.error; cbn.
  f_equal. f_equal. ring.
Qed.

Lemma euclid_nonneg (a b : Point.t R) : 0 <= euclid a b.
Proof. apply sqrt_pos. Qed.

Lemma distance_to_lower (a b : Point.t R) : -1 <= Point.distance_to a b.
Proof. rewrite distance_to_euclid. pose proof (euclid_nonneg a b). cbn. lra. Qed.

Lemma sqrt_value (x c : R) : 0 <= c -> x = c * c -> R_sqrt.sqrt x = c.
Proof. intros Hc ->. apply sqrt_square; assumption. Qed.

Lemma euclid_self (p : Point.t R) : euclid p p = 0.
Proof. unfold euclid. apply sqrt_value; [lra | ring]. Qed.

Lemma route_distance_two (a b : Point.t R) :
  Solver.calculate_route_distance [a; b] = Point.distance_to a b.
Proof. unfold Solver.calculate_route_distance; cbn. lra. Qed.

(** C10: the computed distance can be negative.  A point is at distance -1
    from itself; two points less than 1 apart are at a negative distance;
    and a route of three distinct, closely spaced points has a negative
    total. *)
Theorem distance_can_be_negative (a b : Point.t R) (Hclose : euclid a b < 1) :
  Point.error a = 1
  /\ Point.distance_to a a = -1
  /\ Point.distance_to a b < 0
  /\ Solver.calculate_route_distance [rpt 0 0; rpt (1/2) 0; rpt 1 0] < 0.
Proof.
  split; [reflexivity|]. split; [|split].
  - rewrite distance_to_euclid, euclid_self. cbn. lra.
  - rewrite distance_to_euclid. cbn. lra.
  - unfold Solver.calculate_route_distance; cbn.
    rewrite !(sqrt_value (c := 1/2)) by lra.
    lra.
Qed.

Lemma distance_can_be_negative_witness :
  euclid (rpt 0 0) (rpt (1/2) 0) < 1
  /\ Point.distance_to (rpt 0 0) (rpt (1/2) 0) < 0.
Proof.
  assert (H : euclid (rpt 0 0) (rpt (1/2) 0) < 1).
  { unfold euclid; cbn. rewrite (sqrt_value (c := 1/2)) by lra. lra. }
  split; [exact H|].
  exact (proj1 (proj2 (proj2 (distance_can_be_negative (rpt 0 0) (rpt (1/2) 0) H)))).
Defined.

(** ** Deciding comparisons between closed real expressions *)

Ltac solve_R :=
  cbn [Point.x Point.y Point.name of_Z add sub mul div abs R_Number] in *;
  try (unfold Rabs; repeat match goal with |- context [Rcase_abs ?x] =>
                              destruct (Rcase_abs x) end);
  lra.

Ltac decide_R :=
  repeat match goal with
    | |- context [Rltb ?a ?b] =>
        first [ rewrite (proj2 (Rltb_true_iff a b)) by solve_R
              | rewrite (proj2 (Rltb_false_iff a b)) by solve_R ]
    | |- context [Rleb ?a ?b] =>
        first [ rewrite (proj2 (Rleb_true_iff a b)) by solve_R
              | rewrite (proj2 (Rleb_false_iff a b)) by solve_R ]
    | |- context [Reqb ?a ?b] =>
        first [ rewrite (proj2 (Reqb_true_iff a b)) by solve_R
              | rewrite (proj2 (Reqb_false_iff a b)) by solve_R ]
    end.

(** ** Map validation *)

Lemma validate_iff (m : Map.t R) :
  Map.validate m = true
  <-> Point.__eq__ (Map.start_point m) (Map.end_point m) = false
      /\ 0 < Map.max_distance m
      /\ 0 <= Map.survey_radius m
      /\ Point.distance_to (Map.start_point m) (Map.end_point m)
         <= Map.max_distance m.
Proof.
  unfold Map.validate.
  destruct (Point.__eq__ (Map.start_point m) (Map.end_point m)).
  { split; [discriminate | intros [H _]; discriminate]. }
  cbn [leb ltb of_Z R_Number].
  destruct (Rleb (Map.max_distance m) 0) eqn:H1;
    destruct (Rltb (Map.survey_radius m) 0) eqn:H2;
    destruct (Rltb (Map.max_distance m)
                (Point.distance_to (Map.start_point m) (Map.end_point m))) eqn:H3;
    reflect_R; split; try discriminate; intros; try tauto; lra.
Qed.

Lemma point_eq_iff (a b : Point.t R) :
  Point.__eq__ a b = true
  <-> Rabs (Point.x a - Point.x b) < 1/100 /\ Rabs (Point.y a - Point.y b) < 1/100.
Proof.
  unfold Point.__eq__, Point.tolerance. cbn [ltb abs sub div of_Z R_Number].
  rewrite andb_true_iff, !Rltb_true_iff. tauto.
Qed.

Lemma point_eq_refl (a : Point.t R) : Point.__eq__ a a = true.
Proof.
  apply point_eq_iff.
  replace (Point.x a - Point.x a) with 0 by ring.
  replace (Point.y a - Point.y a) with 0 by ring.
  rewrite Rabs_R0. lra.
Qed.

Lemma euclid_3_4 : euclid (rpt 0 0) (rpt 3 4) = 5.
Proof. unfold euclid; cbn. apply sqrt_value; lra. Qed.

Lemma validate_map_c3 : Map.validate map_c3 = true.
Proof.
  apply validate_iff. rewrite distance_to_euclid.
  cbn [map_c3 Map.start_point Map.end_point Map.max_distance Map.survey_radius].
  rewrite euclid_3_4.
  split; [|cbn; lra].
  unfold Point.__eq__, Point.tolerance; cbn. decide_R. reflexivity.
Qed.

(** ** What [validate] raises *)

Section Raising.
Context {F : Type} {num : Number F}.

Lemma distance_to_or_raise_cases (a b : Point.t F) :
  Point.distance_to_or_raise a b = ret (Point.distance_to a b)
  \/ Point.distance_to_or_raise a b = raise OverflowError.
Proof.
  unfold Point.distance_to_or_raise, Point.power2.
  destruct (_ && _); [right; reflexivity|].
  destruct (_ && _); [right; reflexivity | left; reflexivity].
Qed.

Lemma distance_to_or_raise_iff (a b : Point.t F) :
  Point.distance_to_or_raise a b = raise OverflowError
  <-> Point.power2 (Point.x a - Point.x b)%num = raise OverflowError
      \/ Point.power2 (Point.y a - Point.y b)%num = raise OverflowError.
Proof.
  unfold Point.distance_to_or_raise, Point.power2.
  destruct (_ && _); [split; [left; reflexivity | reflexivity]|].
  destruct (_ && _); [split; [right; reflexivity | reflexivity]|].
  split; [discriminate | intros [H | H]; discriminate].
Qed.

Lemma validate_or_raise_cases (m : Map.t F) :
  Map.validate_or_raise m = ret (Map.validate m)
  \/ (Map.validate_or_raise m = raise OverflowError
      /\ Point.distance_to_or_raise (Map.start_point m) (Map.end_point m)
         = raise OverflowError).
Proof.
  unfold Map.validate_or_raise, Map.validate.
  destruct (Point.__eq__ _ _); [left; reflexivity|].
  destruct (_ <=? _)%num; [left; reflexivity|].
  destruct (_ <? _)%num; [left; reflexivity|].
  destruct (distance_to_or_raise_cases (Map.start_point m) (Map.end_point m)) as [-> | ->].
  - left. cbn [and_then ret]. destruct (_ <? _)%num; reflexivity.
  - right. split; reflexivity.
Qed.

End Raising.

Lemma distance_to_never_raises (a b : Point.t R) :
  Point.distance_to_or_raise a b = ret (Point.distance_to a b).
Proof. reflexivity. Qed.

Lemma validate_never_raises (m : Map.t R) :
  Map.validate_or_raise m = ret (Map.validate m).
Proof.
  destruct (validate_or_raise_cases m) as [H | [_ H]]; [exact H|].
  rewrite distance_to_never_raises in H. discriminate.
Qed.

(** C3, as amended: [validate] answers true exactly when the start and the
    end differ under [__eq__], the budget is positive, the radius is not
    negative, and the distance from start to end as [distance_to] computes
    it, that is the Euclidean distance minus the error 1, is within the
    budget.  In exact arithmetic it never raises.  On binary64 numbers it
    either answers as [validate] does here or raises [OverflowError], and it
    raises exactly when the first three checks pass and the square of a
    coordinate difference of start and end overflows. *)
Theorem validate_characterisation (m : Map.t R) (fm : Map.t float) :
  (Map.validate m = true
   <-> Point.__eq__ (Map.start_point m) (Map.end_point m) = false
       /\ 0 < Map.max_distance m
       /\ 0 <= Map.survey_radius m
       /\ euclid (Map.start_point m) (Map.end_point m) - 1 <= Map.max_distance m)
  /\ Map.validate_or_raise m = ret (Map.validate m)
  /\ (Map.validate_or_raise fm = ret (Map.validate fm)
      \/ Map.validate_or_raise fm = raise OverflowError)
  /\ (Map.validate_or_raise fm = raise OverflowError
      <-> Point.__eq__ (Map.start_point fm) (Map.end_point fm) = false
          /\ (Map.max_distance fm <=? of_Z 0)%num = false
          /\ (Map.survey_radius fm <? of_Z 0)%num = false
          /\ (Point.power2 (Point.x (Map.start_point fm)
                              - Point.x (Map.end_point fm))%num
               = raise OverflowError
              \/ Point.power2 (Point.y (Map.start_point fm)
                                 - Point.y (Map.end_point fm))%num
                 = raise OverflowError)).
Proof.
  split; [rewrite validate_iff, distance_to_euclid; reflexivity|].
  split; [apply validate_never_raises|].
  split; [destruct (validate_or_raise_cases fm) as [H | [H _]]; auto|].
  rewrite <- distance_to_or_raise_iff. unfold Map.validate_or_raise.
  destruct (Point.__eq__ _ _);
    [split; [discriminate | intros [H _]; discriminate]|].
  destruct (_ <=? _)%num;
    [split; [discriminate | intros (_ & H & _); discriminate]|].
  destruct (Map.survey_radius fm <? _)%num;
    [split; [discriminate | intros (_ & _ & H & _); discriminate]|].
  destruct (distance_to_or_raise_cases (Map.start_point fm) (Map.end_point fm))
    as [-> | ->].
  - cbn [and_then ret]. destruct (_ <? _)%num;
      (split; [discriminate | intros (_ & _ & _ & H); discriminate]).
  - cbn [and_then raise]. split; [auto | reflexivity].
Qed.

(** A map that passes [validate] although the plain Euclidean distance
    from start to end, 5, exceeds the budget 4.5.  The float instance,
    which computes as the Python code does, agrees. *)
Lemma validate_not_plain_euclid :
  Map.validate map_c3 = true
  /\ ~ (euclid (Map.start_point map_c3) (Map.end_point map_c3)
        <= Map.max_distance map_c3)
  /\ Map.validate fmap_c3 = true.
Proof.
  split; [|split].
  - exact validate_map_c3.
  - cbn [map_c3 Map.start_point Map.end_point Map.max_distance].
    rewrite euclid_3_4. lra.
  - vm_compute. reflexivity.
Qed.

Lemma validate_raises_overflow :
  Map.validate_or_raise fmap_apart = raise OverflowError.
Proof. vm_compute. reflexivity. Qed.

(** C3, counterexample: a map that passes [validate] although the plain
    Euclidean distance from start to end, 5, exceeds the budget 4.5; the
    float instance, which computes as the Python code does, agrees.  And a
    map on which [validate] raises: its end points are 2^601 apart. *)
Lemma validate_neither_plain_nor_total :
  (Map.validate map_c3 = true
   /\ ~ (euclid (Map.start_point map_c3) (Map.end_point map_c3)
         <= Map.max_distance map_c3)
   /\ Map.validate fmap_c3 = true)
  /\ Map.validate_or_raise fmap_apart = raise OverflowError.
Proof.
  split; [exact validate_not_plain_euclid | exact validate_raises_overflow].
Qed.

(** ** Point equality and hashing *)

Lemma point_eq_ignores_name (a b a' b' : Point.t R) :
  Point.x a = Point.x a' -> Point.y a = Point.y a' ->
  Point.x b = Point.x b' -> Point.y b = Point.y b' ->
  Point.__eq__ a b = Point.__eq__ a' b'.
Proof. unfold Point.__eq__. intros -> -> -> ->. reflexivity. Qed.

Lemma point_hash_ignores_name (a a' : Point.t R) :
  Point.x a = Point.x a' -> Point.y a = Point.y a' ->
  Point.__hash__ a = Point.__hash__ a'.
Proof. unfold Point.__hash__. intros -> ->. reflexivity. Qed.

(** C4: the code breaks the claim.  The points (0, 0) and (0.005, 0) are
    equal under [__eq__], yet the pairs handed to the builtin hash differ;
    as a result the second is not found in a set that holds the first.
    The same holds when the code is run on floats. *)
Theorem equal_points_hash_differently :
  Point.__eq__ (rpt 0 0) (rpt (1/200) 0) = true
  /\ Point.__hash__ (rpt 0 0) <> Point.__hash__ (rpt (1/200) 0)
  /\ PySet.mem (rpt (1/200) 0) (PySet.add (rpt 0 0) []) = false
  /\ Point.__eq__ (fpt 0 0) fpt_near = true
  /\ PySet.hash_eqb (Point.__hash__ (fpt 0 0)) (Point.__hash__ fpt_near) = false
  /\ PySet.mem fpt_near (PySet.add (fpt 0 0) []) = false.
Proof.
  repeat split; try (vm_compute; reflexivity).
  - unfold Point.__eq__, Point.tolerance; cbn. decide_R. reflexivity.
  - unfold Point.__hash__; cbn. intros H. injection H. lra.
  - unfold PySet.mem, PySet.add, PySet.same_member, PySet.hash_eqb; cbn.
    decide_R. reflexivity.
Qed.

(** ** Routes and their length *)

Ltac unfold_num :=
  cbn [Point.x Point.y Point.name of_Z add sub mul div sqrt abs eqb ltb leb lt_inf
       R_Number] in *.

Lemma sum_squares_nonneg (a b : R) : 0 <= a * a + b * b.
Proof. nra. Qed.

Lemma route_distance_path (route : list (Point.t R)) :
  Solver.calculate_route_distance route = path_length route.
Proof. destruct route as [|a [|b tl]]; reflexivity. Qed.

Lemma segments_snoc (r : list (Point.t R)) (d e : Point.t R) :
  r <> [] ->
  Solver.segments (r ++ [e]) = Solver.segments r ++ [(last r d, e)].
Proof.
  induction r as [|a [|b tl] IH]; intros Hne.
  - contradiction.
  - reflexivity.
  - change (Solver.segments ((a :: b :: tl) ++ [e]))
      with ((a, b) :: Solver.segments ((b :: tl) ++ [e])).
    rewrite IH by discriminate. reflexivity.
Qed.

Lemma path_length_snoc (r : list (Point.t R)) (d e : Point.t R) :
  r <> [] ->
  path_length (r ++ [e]) = path_length r + Point.distance_to (last r d) e.
Proof.
  intros Hne. unfold path_length.
  rewrite (segments_snoc d e Hne), fold_left_app. reflexivity.
Qed.

Lemma hd_error_nonempty {A : Type} (l : list A) (a : A) :
  hd_error l = Some a -> l <> [].
Proof. destruct l; [discriminate | discriminate]. Qed.

Lemma hd_error_app {A : Type} (l l' : list A) (a : A) :
  hd_error l = Some a -> hd_error (l ++ l') = Some a.
Proof. destruct l; [discriminate | auto]. Qed.

(** ** The greedy loop: what it maintains *)

Section GreedyInvariant.
Variable m : Map.t R.

Lemma greedy_inv_initial (unsurveyed : list (Point.t R)) :
  Map.validate m = true -> greedy_inv m (GreedySolver.initial_state m unsurveyed).
Proof.
  intros Hv. apply validate_iff in Hv. destruct Hv as (_ & _ & _ & Hd).
  unfold greedy_inv, GreedySolver.initial_state;
    cbn [GreedySolver.route GreedySolver.current_position
         GreedySolver.route_length hd_error last].
  repeat split; auto. unfold_num. lra.
Qed.

Lemma greedy_inv_body (s s' : GreedySolver.state) :
  greedy_inv m s -> GreedySolver.body m s = GreedySolver.Continue s' ->
  greedy_inv m s'.
Proof.
  intros (Hhd & Hlast & Hlen & Hbud). unfold GreedySolver.body.
  destruct (GreedySolver.find_nearest _ _) as [o|]; [|discriminate].
  destruct (GreedySolver._find_intersection_with_circle _ _ _ _) as [i|].
  - unfold_num.
    destruct (Rltb _ _) eqn:Hfuel; [discriminate|].
    intros [= <-]. reflect_R.
    unfold greedy_inv; cbn [GreedySolver.route GreedySolver.current_position
                            GreedySolver.route_length].
    pose proof (hd_error_nonempty Hhd) as Hne.
    repeat split.
    + apply hd_error_app; assumption.
    + apply last_last.
    + rewrite (path_length_snoc (Map.start_point m) i Hne), Hlast, Hlen.
      reflexivity.
    + exact Hfuel.
  - intros [= <-]. unfold greedy_inv; cbn. auto.
Qed.

Lemma greedy_inv_body_break (s s' : GreedySolver.state) :
  GreedySolver.body m s = GreedySolver.Break s' -> s' = s.
Proof.
  unfold GreedySolver.body.
  destruct (GreedySolver.find_nearest _ _) as [o|]; [|intros [= <-]; reflexivity].
  destruct (GreedySolver._find_intersection_with_circle _ _ _ _) as [i|];
    [|discriminate].
  destruct (_ >? _)%num; [intros [= <-]; reflexivity | discriminate].
Qed.

Lemma greedy_inv_while (fuel : nat) (s s' : GreedySolver.state) :
  greedy_inv m s -> GreedySolver.while_loop fuel m s = Some s' ->
  greedy_inv m s'.
Proof.
  revert s. induction fuel as [|fuel IH]; intros s Hinv; cbn; [discriminate|].
  destruct (GreedySolver.guard m s); [|intros [= <-]; exact Hinv].
  destruct (GreedySolver.body m s) as [s1|s1] eqn:Hbody.
  - apply IH. eapply greedy_inv_body; eassumption.
  - intros [= <-]. apply greedy_inv_body_break in Hbody. subst s1. exact Hinv.
Qed.

Lemma greedy_finish (s : GreedySolver.state) :
  greedy_inv m s ->
  let route := fst (fst (GreedySolver.finish m s)) in
  let total := snd (GreedySolver.finish m s) in
  well_formed_route m route
  /\ total = Solver.calculate_route_distance route
  /\ Solver.calculate_route_distance route <= Map.max_distance m.
Proof.
  intros (Hhd & Hlast & Hlen & Hbud). cbn.
  pose proof (hd_error_nonempty Hhd) as Hne.
  repeat split.
  - apply hd_error_app; assumption.
  - apply last_last.
  - rewrite length_app; cbn. destruct (GreedySolver.route s); [contradiction|].
    cbn; lia.
  - rewrite route_distance_path,
      (path_length_snoc (Map.start_point m) (Map.end_point m) Hne),
      Hlast, <- Hlen.
    exact Hbud.
Qed.

End GreedyInvariant.

(** ** The greedy loop: why it ends *)

Lemma same_member_refl (p : Point.t R) : PySet.same_member p p = true.
Proof.
  unfold PySet.same_member, PySet.hash_eqb, Point.__hash__; cbn [fst snd].
  unfold_num. rewrite !Reqb_refl, point_eq_refl. reflexivity.
Qed.

Lemma nearest_fold_In (cur : Point.t R) (u U : list (Point.t R))
    (acc : option R * option (Point.t R)) (o : Point.t R) :
  incl u U ->
  (forall o', snd acc = Some o' -> In o' U) ->
  snd (fold_left (GreedySolver.nearest_step cur) u acc) = Some o -> In o U.
Proof.
  revert acc. induction u as [|p u IH]; intros acc Hincl Hacc; cbn.
  - apply Hacc.
  - apply IH.
    + intros x Hx. apply Hincl. right; exact Hx.
    + unfold GreedySolver.nearest_step.
      destruct (match fst acc with Some _ => _ | None => _ end); cbn.
      * intros o' [= <-]. apply Hincl. left; reflexivity.
      * apply Hacc.
Qed.

Lemma find_nearest_In (cur : Point.t R) (u : list (Point.t R)) (o : Point.t R) :
  GreedySolver.find_nearest cur u = Some o -> In o u.
Proof.
  apply nearest_fold_In; [apply incl_refl | cbn; discriminate].
Qed.

Lemma filter_length_le {A : Type} (f : A -> bool) (l : list A) :
  (length (filter f l) <= length l)%nat.
Proof. induction l as [|a l IH]; cbn; [lia|]. destruct (f a); cbn; lia. Qed.

Lemma filter_length_lt {A : Type} (f : A -> bool) (l : list A) (x : A) :
  In x l -> f x = false -> (length (filter f l) < length l)%nat.
Proof.
  induction l as [|a l IH]; cbn; [contradiction|].
  intros [-> | Hin] Hx.
  - rewrite Hx. pose proof (filter_length_le f l). lia.
  - specialize (IH Hin Hx). destruct (f a); cbn; lia.
Qed.

Lemma remove_length_lt (o : Point.t R) (u : list (Point.t R)) :
  In o u -> (length (PySet.remove o u) < length u)%nat.
Proof.
  intros Hin. unfold PySet.remove.
  apply filter_length_lt with (x := o); [exact Hin|].
  rewrite same_member_refl. reflexivity.
Qed.

Lemma fold_remove_length_le (l u : list (Point.t R)) :
  (length (fold_left (fun acc obj => PySet.remove obj acc) l u) <= length u)%nat.
Proof.
  revert u. induction l as [|a l IH]; intros u; cbn; [lia|].
  etransitivity; [apply IH|]. apply filter_length_le.
Qed.

Lemma fold_remove_length_lt (l u : list (Point.t R)) (o : Point.t R) :
  In o l -> In o u ->
  (length (fold_left (fun acc obj => PySet.remove obj acc) l u) < length u)%nat.
Proof.
  revert u. induction l as [|a l IH]; intros u Hl Hu; cbn; [contradiction|].
  destruct (PySet.same_member a o) eqn:Hao.
  - eapply Nat.le_lt_trans; [apply fold_remove_length_le|].
    unfold PySet.remove. apply filter_length_lt with (x := o); [exact Hu|].
    rewrite Hao. reflexivity.
  - destruct Hl as [-> | Hl].
    + rewrite same_member_refl in Hao. discriminate.
    + eapply Nat.lt_le_trans; [apply IH; [exact Hl|]|apply filter_length_le].
      unfold PySet.remove. apply filter_In. rewrite Hao. auto.
Qed.

(** The entry point computed for an object is within the survey radius of
    that object, as [distance_to] measures it. *)
Lemma entry_point_within_radius (start obj i : Point.t R) (r : R) :
  -1 <= r ->
  GreedySolver._find_intersection_with_circle start obj obj r = Some i ->
  Point.distance_to i obj <= r.
Proof.
  intros Hr.
  unfold GreedySolver._find_intersection_with_circle.
  unfold_num.
  set (Dx := Point.x obj - Point.x start).
  set (Dy := Point.y obj - Point.y start).
  set (D := R_sqrt.sqrt (Dx * Dx + Dy * Dy)).
  set (dx := Dx / D). set (dy := Dy / D).
  set (p := Dx * dx + Dy * dy).
  set (cx := Point.x start + p * dx). set (cy := Point.y start + p * dy).
  set (dl := R_sqrt.sqrt ((Point.x obj - cx) * (Point.x obj - cx)
                          + (Point.y obj - cy) * (Point.y obj - cy))).
  set (off := R_sqrt.sqrt (r * r - dl * dl)).
  destruct (Reqb D 0) eqn:HD0.
  { intros H; injection H as Hi; subst i. reflect_R.
    rewrite distance_to_unfold.
    replace ((Point.x start - Point.x obj) * (Point.x start - Point.x obj)
             + (Point.y start - Point.y obj) * (Point.y start - Point.y obj))
      with (Dx * Dx + Dy * Dy) by (unfold Dx, Dy; ring).
    fold D. lra. }
  destruct (Rleb (Point.distance_to start obj) r) eqn:Hin.
  { intros H; injection H as Hi; subst i. reflect_R. exact Hin. }
  destruct (Rleb p 0) eqn:Hp; [discriminate|].
  destruct (Rltb r dl) eqn:Hdl; [discriminate|].
  intros H; injection H as Hi; subst i. reflect_R.
  rewrite distance_to_unfold. unfold_num.
  assert (HDpos : 0 <= D) by apply sqrt_pos.
  assert (HDD : D * D = Dx * Dx + Dy * Dy).
  { unfold D. apply sqrt_sqrt. apply sum_squares_nonneg. }
  assert (HU : dx * dx + dy * dy = 1).
  { unfold dx, dy.
    replace (Dx / D * (Dx / D) + Dy / D * (Dy / D))
      with ((Dx * Dx + Dy * Dy) / (D * D)) by (field; lra).
    rewrite <- HDD. field. lra. }
  assert (Hdlpos : 0 <= dl) by apply sqrt_pos.
  assert (Hdl2 : dl * dl = (Point.x obj - cx) * (Point.x obj - cx)
                           + (Point.y obj - cy) * (Point.y obj - cy)).
  { unfold dl. apply sqrt_sqrt. apply sum_squares_nonneg. }
  assert (Hoff : off * off = r * r - dl * dl).
  { unfold off. apply sqrt_sqrt. nra. }
  assert (HB : dx * (cx - Point.x obj) + dy * (cy - Point.y obj) = 0).
  { unfold cx, cy.
    replace (dx * (Point.x start + p * dx - Point.x obj)
             + dy * (Point.y start + p * dy - Point.y obj))
      with (p * (dx * dx + dy * dy) - (Dx * dx + Dy * dy))
      by (unfold Dx, Dy; ring).
    rewrite HU. unfold p. ring. }
  rewrite (sqrt_value (c := r)); [lra | lra |].
  replace ((cx - off * dx - Point.x obj) * (cx - off * dx - Point.x obj)
           + (cy - off * dy - Point.y obj) * (cy - off * dy - Point.y obj))
    with ((Point.x obj - cx) * (Point.x obj - cx)
          + (Point.y obj - cy) * (Point.y obj - cy)
          - 2 * off * (dx * (cx - Point.x obj) + dy * (cy - Point.y obj))
          + off * off * (dx * dx + dy * dy)) by ring.
  rewrite HB, HU, Hoff, <- Hdl2. ring.
Qed.

Section GreedyTermination.
Variable m : Map.t R.
Hypothesis radius_ok : -1 <= Map.survey_radius m.

(** Every pass through the loop body that does not break takes at least
    one object out of the unsurveyed set. *)
Lemma body_shrinks (s s' : GreedySolver.state) :
  GreedySolver.body m s = GreedySolver.Continue s' ->
  (length (GreedySolver.unsurveyed_objects s')
   < length (GreedySolver.unsurveyed_objects s))%nat.
Proof.
  unfold GreedySolver.body.
  destruct (GreedySolver.find_nearest _ _) as [o|] eqn:Hnear; [|discriminate].
  apply find_nearest_In in Hnear.
  destruct (GreedySolver._find_intersection_with_circle _ _ _ _) as [i|] eqn:Hi.
  - destruct (_ >? _)%num; [discriminate|].
    intros [= <-]. cbn [GreedySolver.unsurveyed_objects].
    apply fold_remove_length_lt with (o := o); [|exact Hnear].
    apply filter_In. split; [exact Hnear|].
    unfold_num. reflect_R.
    eapply entry_point_within_radius; eassumption.
  - intros [= <-]. cbn [GreedySolver.unsurveyed_objects].
    apply remove_length_lt; exact Hnear.
Qed.

Lemma while_loop_terminates (fuel : nat) (s : GreedySolver.state) :
  (length (GreedySolver.unsurveyed_objects s) < fuel)%nat ->
  exists s', GreedySolver.while_loop fuel m s = Some s'.
Proof.
  revert s. induction fuel as [|fuel IH]; intros s Hlt; [lia|]. cbn.
  destruct (GreedySolver.guard m s); [|eauto].
  destruct (GreedySolver.body m s) as [s1|s1] eqn:Hbody; [|eauto].
  apply IH. apply body_shrinks in Hbody. lia.
Qed.

End GreedyTermination.

Lemma validate_radius (m : Map.t R) :
  Map.validate m = true -> -1 <= Map.survey_radius m.
Proof. intros Hv. apply validate_iff in Hv. lra. Qed.

(** The answer of the greedy solver on a validated map, whatever the order
    in which the unsurveyed set is iterated, for any fuel above the size of
    that set. *)
Lemma greedy_solve_validated (m : Map.t R) (fuel : nat)
    (unsurveyed : list (Point.t R)) :
  Map.validate m = true ->
  (length unsurveyed < fuel)%nat ->
  exists route surveyed total,
    GreedySolver.solve_in_order fuel m unsurveyed = Some (route, surveyed, total)
    /\ well_formed_route m route
    /\ total = Solver.calculate_route_distance route
    /\ Solver.calculate_route_distance route <= Map.max_distance m.
Proof.
  intros Hv Hfuel.
  destruct (@while_loop_terminates m (@validate_radius m Hv) fuel
              (GreedySolver.initial_state m unsurveyed) Hfuel) as [s Hs].
  pose proof (@greedy_inv_while m fuel _ _ (@greedy_inv_initial m unsurveyed Hv) Hs)
    as Hinv.
  pose proof (@greedy_finish m s Hinv) as Hfin.
  unfold GreedySolver.solve_in_order. rewrite Hs. cbn [bind].
  destruct (GreedySolver.finish m s) as [[route surveyed] total].
  exists route, surveyed, total. cbn in Hfin. tauto.
Qed.

(** ** Evaluating the greedy loop on concrete states *)

Lemma distance_axis (a b : R) :
  Point.distance_to (rpt a 0) (rpt b 0) = Rabs (a - b) - 1.
Proof.
  rewrite distance_to_unfold. cbn [Point.x Point.y].
  replace ((a - b) * (a - b) + (0 - 0) * (0 - 0)) with (Rsqr (a - b))
    by (unfold Rsqr; ring).
  rewrite sqrt_Rsqr_abs. reflexivity.
Qed.

Lemma distance_to_same (p : Point.t R) : Point.distance_to p p = -1.
Proof. rewrite distance_to_euclid, euclid_self. cbn. lra. Qed.

Section BodyCases.
Variables (m : Map.t R) (s : @GreedySolver.state R) (o : Point.t R).
Hypothesis Hnear :
  GreedySolver.find_nearest (GreedySolver.current_position s)
    (GreedySolver.unsurveyed_objects s) = Some o.

Lemma body_drop :
  GreedySolver._find_intersection_with_circle (GreedySolver.current_position s)
    o o (Map.survey_radius m) = None ->
  GreedySolver.body m s
  = GreedySolver.Continue
      (GreedySolver.mkState (GreedySolver.route s) (GreedySolver.surveyed_objects s)
         (GreedySolver.current_position s) (GreedySolver.route_length s)
         (PySet.remove o (GreedySolver.unsurveyed_objects s))).
Proof. intros Hi. unfold GreedySolver.body. rewrite Hnear, Hi. reflexivity. Qed.

Lemma body_break (i : Point.t R) :
  GreedySolver._find_intersection_with_circle (GreedySolver.current_position s)
    o o (Map.survey_radius m) = Some i ->
  Map.max_distance m
  < GreedySolver.route_length s
    + Point.distance_to (GreedySolver.current_position s) i
    + Point.distance_to i (Map.end_point m) ->
  GreedySolver.body m s = GreedySolver.Break s.
Proof.
  intros Hi Hlt. unfold GreedySolver.body. rewrite Hnear, Hi.
  unfold_num. apply Rltb_true_iff in Hlt. rewrite Hlt. reflexivity.
Qed.

Lemma body_commit (i : Point.t R) :
  GreedySolver._find_intersection_with_circle (GreedySolver.current_position s)
    o o (Map.survey_radius m) = Some i ->
  GreedySolver.route_length s
  + Point.distance_to (GreedySolver.current_position s) i
  + Point.distance_to i (Map.end_point m) <= Map.max_distance m ->
  GreedySolver.body m s
  = let objects_to_survey :=
      filter (fun obj => Rleb (Point.distance_to i obj) (Map.survey_radius m))
             (GreedySolver.unsurveyed_objects s) in
    GreedySolver.Continue
      (GreedySolver.mkState (GreedySolver.route s ++ [i])
         (fold_left (fun acc obj => PySet.add obj acc) objects_to_survey
                    (GreedySolver.surveyed_objects s))
         i
         (GreedySolver.route_length s
          + Point.distance_to (GreedySolver.current_position s) i)
         (fold_left (fun acc obj => PySet.remove obj acc) objects_to_survey
                    (GreedySolver.unsurveyed_objects s))).
Proof.
  intros Hi Hle. unfold GreedySolver.body. rewrite Hnear, Hi.
  unfold_num. apply Rltb_false_iff in Hle. rewrite Hle. reflexivity.
Qed.
End BodyCases.

Lemma intersection_same_place (start obj : Point.t R) (r : R) :
  Point.x obj = Point.x start -> Point.y obj = Point.y start ->
  GreedySolver._find_intersection_with_circle start obj obj r = Some start.
Proof.
  intros Hx Hy. unfold GreedySolver._find_intersection_with_circle.
  rewrite Hx, Hy. unfold_num.
  rewrite (sqrt_value (c := 0)) by lra.
  rewrite Reqb_refl. reflexivity.
Qed.

Lemma validate_map_c5 : Map.validate map_c5 = true.
Proof.
  apply validate_iff.
  cbn [map_c5 Map.start_point Map.end_point Map.max_distance Map.survey_radius].
  rewrite distance_axis.
  split; [|solve_R].
  unfold Point.__eq__, Point.tolerance; cbn. decide_R. reflexivity.
Qed.

(** In exact arithmetic the greedy solver returns on every validated map,
    whatever the order in which it iterates the unsurveyed set, and the
    route it returns is within the budget; the total it reports is the
    length of that route.  [GreedySolver.solve] is the case of insertion
    order.  On binary64 numbers the solver need not return. *)
Theorem greedy_route_within_budget (m : Map.t R) (Hvalid : Map.validate m = true) :
  forall unsurveyed, exists N, forall fuel, (N <= fuel)%nat ->
    exists route surveyed total,
      GreedySolver.solve_in_order fuel m unsurveyed = Some (route, surveyed, total)
      /\ total = Solver.calculate_route_distance route
      /\ Solver.calculate_route_distance route <= Map.max_distance m.
Proof.
  intros unsurveyed. exists (S (length unsurveyed)). intros fuel Hfuel.
  destruct (@greedy_solve_validated m fuel unsurveyed Hvalid)
    as (route & surveyed & total & Hsolve & _ & Htotal & Hbudget); [lia|].
  exists route, surveyed, total. auto.
Qed.

Lemma greedy_route_within_budget_witness :
  Map.validate map_c5 = true
  /\ exists N, forall fuel, (N <= fuel)%nat ->
       exists route surveyed total,
         GreedySolver.solve fuel map_c5 = Some (route, surveyed, total)
         /\ total = Solver.calculate_route_distance route
         /\ Solver.calculate_route_distance route <= Map.max_distance map_c5.
Proof.
  split; [exact validate_map_c5|].
  exact (greedy_route_within_budget map_c5 validate_map_c5
           (PySet.of_list (Map.objects map_c5))).
Defined.

(** ** A map on which the greedy loop never ends *)

Lemma c9_stuck (fuel : nat) : forall route sv rl, rl <= 0 ->
  GreedySolver.while_loop fuel map_c9
    (GreedySolver.mkState route sv (rpt 0 0) rl [rpt 0 0]) = None.
Proof.
  induction fuel as [|fuel IH]; intros route sv rl Hrl; [reflexivity|].
  cbn [GreedySolver.while_loop].
  assert (Hguard : GreedySolver.guard map_c9
            (GreedySolver.mkState route sv (rpt 0 0) rl [rpt 0 0]) = true).
  { unfold GreedySolver.guard.
    cbn [GreedySolver.current_position GreedySolver.route_length
         GreedySolver.unsurveyed_objects map_c9 Map.end_point Map.max_distance
         length Nat.eqb negb].
    rewrite distance_axis. unfold_num. rewrite andb_true_r.
    reflect_R. solve_R. }
  rewrite Hguard.
  rewrite (@body_commit map_c9
             (GreedySolver.mkState route sv (rpt 0 0) rl [rpt 0 0])
             (rpt 0 0) eq_refl (rpt 0 0)).
  - cbn [GreedySolver.current_position GreedySolver.route_length
         GreedySolver.unsurveyed_objects GreedySolver.surveyed_objects
         GreedySolver.route map_c9 Map.survey_radius filter].
    rewrite distance_to_same.
    replace (Rleb (-1) (-2)) with false by (symmetry; reflect_R; lra).
    cbn [fold_left]. apply IH. lra.
  - apply intersection_same_place; reflexivity.
  - cbn [GreedySolver.current_position GreedySolver.route_length
         map_c9 Map.end_point Map.max_distance].
    rewrite distance_to_same, distance_axis. solve_R.
Qed.

Lemma of_list_map_c9 : PySet.of_list (Map.objects map_c9) = [rpt 0 0].
Proof. reflexivity. Qed.

(** In exact arithmetic, with survey radius -2 and an object on the start
    point, the greedy loop commits the start point again and again, one unit
    of route length cheaper each time, and the object is never taken out of
    the unsurveyed set: no amount of fuel yields an answer. *)
Lemma greedy_diverges_on_negative_radius :
  ~ exists fuel result, GreedySolver.solve fuel map_c9 = Some result.
Proof.
  intros (fuel & result & H).
  unfold GreedySolver.solve, GreedySolver.solve_in_order,
    GreedySolver.initial_state in H. rewrite of_list_map_c9 in H.
  cbn [map_c9 Map.start_point] in H.
  rewrite c9_stuck in H by (unfold_num; lra). discriminate.
Qed.

(** In exact arithmetic, on every map whose survey radius is at least -1,
    in particular on every validated map, an entry point the solver computes
    for an object lies within the survey radius of that object as
    [distance_to] measures it, each pass through the loop body that does
    not break shrinks the unsurveyed set, and the solver returns, whatever
    the order in which it iterates the unsurveyed set.  On binary64 numbers
    the entry point can round onto the current position, and none of this
    holds. *)
Theorem greedy_terminates (m : Map.t R) (Hradius : -1 <= Map.survey_radius m) :
  (forall current obj entry,
     GreedySolver._find_intersection_with_circle current obj obj
       (Map.survey_radius m) = Some entry ->
     Point.distance_to entry obj <= Map.survey_radius m)
  /\ (forall s s', GreedySolver.body m s = GreedySolver.Continue s' ->
        (length (GreedySolver.unsurveyed_objects s')
         < length (GreedySolver.unsurveyed_objects s))%nat)
  /\ (forall unsurveyed fuel, (length unsurveyed < fuel)%nat ->
        exists result, GreedySolver.solve_in_order fuel m unsurveyed = Some result).
Proof.
  split; [|split].
  - intros current obj entry. apply entry_point_within_radius; exact Hradius.
  - intros s s'. apply body_shrinks; exact Hradius.
  - intros unsurveyed fuel Hfuel.
    destruct (@while_loop_terminates m Hradius fuel
                (GreedySolver.initial_state m unsurveyed) Hfuel) as [s Hs].
    unfold GreedySolver.solve_in_order. rewrite Hs. cbn [bind]. eauto.
Qed.

Lemma greedy_terminates_witness :
  -1 <= Map.survey_radius map_c5
  /\ exists result, GreedySolver.solve 2 map_c5 = Some result.
Proof.
  assert (H : -1 <= Map.survey_radius map_c5) by (cbn; lra).
  split; [exact H|].
  apply (proj2 (proj2 (greedy_terminates map_c5 H))).
  cbn. lia.
Defined.

(** ** The greedy loop on binary64 numbers, far from the origin *)

(** A state the loop body maps to itself, but for the route, is never
    left. *)
Lemma loop_without_progress {F : Type} {num : Number F} (m : Map.t F)
    (cur obj : Point.t F) (rl : F) :
  (forall route sv,
     GreedySolver.guard m (GreedySolver.mkState route sv cur rl [obj]) = true) ->
  (forall route sv,
     GreedySolver.body m (GreedySolver.mkState route sv cur rl [obj])
     = GreedySolver.Continue (GreedySolver.mkState (route ++ [cur]) sv cur rl [obj])) ->
  forall fuel route sv,
    GreedySolver.while_loop fuel m (GreedySolver.mkState route sv cur rl [obj]) = None.
Proof.
  intros Hguard Hbody. induction fuel as [|fuel IH]; intros route sv; [reflexivity|].
  cbn [GreedySolver.while_loop]. rewrite Hguard, Hbody. apply IH.
Qed.

Lemma far_loop (fuel : nat) (route sv : list (Point.t float)) :
  GreedySolver.while_loop fuel fmap_far
    (GreedySolver.mkState route sv (fpt 1e17 0) 1e17%float [fpt 100000000000000016 0])
  = None.
Proof.
  apply loop_without_progress; intros; vm_compute; reflexivity.
Qed.

Lemma far_detour_loop (fuel : nat) (route sv : list (Point.t float)) :
  GreedySolver.while_loop fuel fmap_far_detour
    (GreedySolver.mkState route sv (fpt 1e17 0) 1e17%float [fpt 100000000000000016 0])
  = None.
Proof.
  apply loop_without_progress; intros; vm_compute; reflexivity.
Qed.

Lemma far_north_loop (fuel : nat) (route sv : list (Point.t float)) :
  GreedySolver.while_loop fuel fmap_far_north
    (GreedySolver.mkState route sv (fpt 0 1e17) 1e17%float [fpt 0 100000000000000016])
  = None.
Proof.
  apply loop_without_progress; intros; vm_compute; reflexivity.
Qed.

Lemma far_never_returns (fuel : nat) : GreedySolver.solve fuel fmap_far = None.
Proof.
  destruct fuel as [|fuel]; [reflexivity|].
  unfold GreedySolver.solve, GreedySolver.solve_in_order.
  change (PySet.of_list (Map.objects fmap_far)) with [fpt 100000000000000016 0].
  cbn [GreedySolver.while_loop].
  change (GreedySolver.guard fmap_far
            (GreedySolver.initial_state fmap_far [fpt 100000000000000016 0]))
    with true.
  change (GreedySolver.body fmap_far
            (GreedySolver.initial_state fmap_far [fpt 100000000000000016 0]))
    with (GreedySolver.Continue
            (GreedySolver.mkState ([fpt 0 0] ++ [fpt 1e17 0]) [] (fpt 1e17 0) 1e17%float
                                  [fpt 100000000000000016 0])).
  cbv beta iota. rewrite far_loop. reflexivity.
Qed.

Lemma far_detour_never_returns (fuel : nat) (unsurveyed : list (Point.t float)) :
  unsurveyed = [fpt 100 0; fpt 100000000000000016 0]
  \/ unsurveyed = [fpt 100000000000000016 0; fpt 100 0] ->
  GreedySolver.solve_in_order fuel fmap_far_detour unsurveyed = None.
Proof.
  intros Horder.
  destruct fuel as [|[|fuel]];
    [destruct Horder as [-> | ->]; reflexivity
    | destruct Horder as [-> | ->]; vm_compute; reflexivity |].
  unfold GreedySolver.solve_in_order. cbn [GreedySolver.while_loop].
  assert (Hguard : GreedySolver.guard fmap_far_detour
                     (GreedySolver.initial_state fmap_far_detour unsurveyed) = true)
    by (destruct Horder as [-> | ->]; vm_compute; reflexivity).
  assert (Hbody : GreedySolver.body fmap_far_detour
                    (GreedySolver.initial_state fmap_far_detour unsurveyed)
                  = GreedySolver.Continue
                      (GreedySolver.mkState [fpt 0 0; fpt 90 0] [fpt 100 0] (fpt 90 0)
                         89%float [fpt 100000000000000016 0]))
    by (destruct Horder as [-> | ->]; vm_compute; reflexivity).
  rewrite Hguard, Hbody.
  replace (GreedySolver.guard fmap_far_detour
             (GreedySolver.mkState [fpt 0 0; fpt 90 0] [fpt 100 0] (fpt 90 0)
                89%float [fpt 100000000000000016 0]))
    with true by (vm_compute; reflexivity).
  replace (GreedySolver.body fmap_far_detour
             (GreedySolver.mkState [fpt 0 0; fpt 90 0] [fpt 100 0] (fpt 90 0)
                89%float [fpt 100000000000000016 0]))
    with (GreedySolver.Continue
            (GreedySolver.mkState [fpt 0 0; fpt 90 0; fpt 1e17 0] [fpt 100 0]
               (fpt 1e17 0) 1e17%float [fpt 100000000000000016 0]))
    by (vm_compute; reflexivity).
  rewrite far_detour_loop. reflexivity.
Qed.

Lemma far_north_never_returns (fuel : nat) :
  GreedySolver.solve fuel fmap_far_north = None.
Proof.
  destruct fuel as [|fuel]; [reflexivity|].
  unfold GreedySolver.solve, GreedySolver.solve_in_order.
  change (PySet.of_list (Map.objects fmap_far_north)) with [fpt 0 100000000000000016].
  cbn [GreedySolver.while_loop].
  change (GreedySolver.guard fmap_far_north
            (GreedySolver.initial_state fmap_far_north [fpt 0 100000000000000016]))
    with true.
  change (GreedySolver.body fmap_far_north
            (GreedySolver.initial_state fmap_far_north [fpt 0 100000000000000016]))
    with (GreedySolver.Continue
            (GreedySolver.mkState ([fpt 0 0] ++ [fpt 0 1e17]) [] (fpt 0 1e17) 1e17%float
                                  [fpt 0 100000000000000016])).
  cbv beta iota. rewrite far_north_loop. reflexivity.
Qed.

(** C9: the code breaks the claim.  On this validated map the object is at
    (1e17 + 16, 0) and the radius is 10.  Once the current position is
    (1e17, 0), the entry point the code computes for the object,
    1e17 + 16 - 10, rounds to the current position itself, 15 away from the
    object as [distance_to] measures it: the bonus step removes nothing, the
    pass costs nothing, and the next pass is the same.  The solver returns
    for no amount of fuel. *)
Theorem greedy_loop_makes_no_progress :
  Map.validate fmap_far = true
  /\ GreedySolver._find_intersection_with_circle
       (fpt 1e17 0) (fpt 100000000000000016 0) (fpt 100000000000000016 0) 10%float
     = Some (fpt 1e17 0)
  /\ Point.distance_to (fpt 1e17 0) (fpt 100000000000000016 0) = 15%float
  /\ (forall route sv,
        GreedySolver.body fmap_far
          (GreedySolver.mkState route sv (fpt 1e17 0) 1e17%float
                                [fpt 100000000000000016 0])
        = GreedySolver.Continue
            (GreedySolver.mkState (route ++ [fpt 1e17 0]) sv (fpt 1e17 0) 1e17%float
                                  [fpt 100000000000000016 0]))
  /\ forall fuel, GreedySolver.solve fuel fmap_far = None.
Proof.
  split; [vm_compute; reflexivity|].
  split; [vm_compute; reflexivity|].
  split; [vm_compute; reflexivity|].
  split; [intros; vm_compute; reflexivity|].
  exact far_never_returns.
Qed.

(** C1: the code breaks the claim.  On this validated map the greedy
    solver commits the detour to the object at (100, 0), within the budget,
    and then makes for the object at (1e17 + 16, 0): it commits (1e17, 0),
    and from there the entry point it computes is (1e17, 0) again.  In
    either order of the unsurveyed set it returns no triple, for any amount
    of fuel. *)
Theorem greedy_returns_no_route :
  Map.validate fmap_far_detour = true
  /\ GreedySolver.body fmap_far_detour
       (GreedySolver.initial_state fmap_far_detour
          [fpt 100 0; fpt 100000000000000016 0])
     = GreedySolver.Continue
         (GreedySolver.mkState [fpt 0 0; fpt 90 0] [fpt 100 0] (fpt 90 0) 89%float
                               [fpt 100000000000000016 0])
  /\ (forall fuel,
        GreedySolver.solve_in_order fuel fmap_far_detour
          [fpt 100 0; fpt 100000000000000016 0] = None)
  /\ (forall fuel,
        GreedySolver.solve_in_order fuel fmap_far_detour
          [fpt 100000000000000016 0; fpt 100 0] = None).
Proof.
  split; [vm_compute; reflexivity|].
  split; [vm_compute; reflexivity|].
  split; intros fuel; apply far_detour_never_returns; auto.
Qed.

(** C2: the code breaks the claim for the greedy solver.  On this
    validated map the heuristic returns a route from the start point to the
    end point; the greedy solver returns no route, for any amount of fuel:
    its loop commits (0, 1e17) again and again. *)
Theorem greedy_returns_no_route_where_heuristic_does :
  Map.validate fmap_far_north = true
  /\ HeuristicSolver.solve 7 fmap_far_north
     = Some ([fpt 0 0; fpt 0 100000000000000016; fpt 0 100000000000001600],
             [fpt 0 100000000000000016], 100000000000001600%float)
  /\ forall fuel, GreedySolver.solve fuel fmap_far_north = None.
Proof.
  split; [vm_compute; reflexivity|].
  split; [vm_compute; reflexivity|].
  exact far_north_never_returns.
Qed.

(** ** 2-opt ends: arrangements of a route are finitely many *)

Lemma insert_all_spec {A : Type} (a : A) (l1 l2 : list A) :
  In (l1 ++ a :: l2) (insert_all a (l1 ++ l2)).
Proof.
  induction l1 as [|x l1 IH]; cbn.
  - destruct l2; cbn; auto.
  - right. apply in_map. exact IH.
Qed.

Lemma all_perms_complete {A : Type} (l l' : list A) :
  Permutation l l' -> In l' (all_perms l).
Proof.
  revert l'. induction l as [|a t IH]; intros l' Hp.
  - apply Permutation_nil in Hp. subst. cbn. auto.
  - assert (Hin : In a l') by (eapply Permutation_in; [exact Hp | left; reflexivity]).
    apply in_split in Hin. destruct Hin as (l1 & l2 & ->).
    apply Permutation_cons_app_inv in Hp.
    cbn. apply in_flat_map. exists (l1 ++ l2). split.
    + apply IH; exact Hp.
    + apply insert_all_spec.
Qed.

Lemma insert_all_length {A : Type} (a : A) (l : list A) :
  length (insert_all a l) = S (length l).
Proof. induction l as [|x t IH]; cbn; [reflexivity|]. rewrite length_map, IH. reflexivity. Qed.

Lemma flat_map_length_const {A B : Type} (f : A -> list B) (l : list A) (k : nat) :
  (forall a, In a l -> length (f a) = k) ->
  length (flat_map f l) = (length l * k)%nat.
Proof.
  induction l as [|a l IH]; intros H; cbn; [reflexivity|].
  rewrite length_app, H by (left; reflexivity).
  rewrite IH by (intros; apply H; right; assumption). lia.
Qed.

Lemma insert_all_In_length {A : Type} (a : A) (l p : list A) :
  In p (insert_all a l) -> length p = S (length l).
Proof.
  revert p. induction l as [|x t IH]; cbn; intros p.
  - intros [<- | []]. reflexivity.
  - intros [<- | Hin]; [reflexivity|].
    apply in_map_iff in Hin. destruct Hin as (q & <- & Hq).
    cbn. rewrite (IH q Hq). reflexivity.
Qed.

Lemma all_perms_In_length {A : Type} (l p : list A) :
  In p (all_perms l) -> length p = length l.
Proof.
  revert p. induction l as [|a t IH]; cbn; intros p.
  - intros [<- | []]. reflexivity.
  - intros Hin. apply in_flat_map in Hin. destruct Hin as (q & Hq & Hp).
    apply insert_all_In_length in Hp. rewrite Hp, (IH q Hq). reflexivity.
Qed.

Lemma all_perms_length {A : Type} (l : list A) :
  length (all_perms l) = fact (length l).
Proof.
  induction l as [|a t IH]; [reflexivity|].
  cbn [all_perms].
  rewrite (@flat_map_length_const _ _ _ _ (S (length t))).
  - rewrite IH. cbn [length fact]. lia.
  - intros q Hq. rewrite insert_all_length, (all_perms_In_length _ _ Hq). reflexivity.
Qed.


Lemma find_first_Some {A B : Type} (f : A -> option B) (l : list A) (b : B) :
  find_first f l = Some b -> exists a, In a l /\ f a = Some b.
Proof.
  induction l as [|a l IH]; cbn; [discriminate|].
  destruct (f a) as [b'|] eqn:Hfa.
  - intros [= <-]. exists a. auto.
  - intros H. destruct (IH H) as (a' & Hin & Ha'). exists a'. auto.
Qed.

Lemma range_In (a b i : nat) : In i (range a b) <-> (a <= i < b)%nat.
Proof. unfold range. rewrite in_seq. lia. Qed.

Lemma reverse_segment_perm (route : list (Point.t R)) (i j : nat) :
  (i <= j + 1)%nat -> Permutation route (HeuristicSolver.reverse_segment route i j).
Proof.
  intros Hij. unfold HeuristicSolver.reverse_segment.
  rewrite <- (firstn_skipn i route) at 1.
  apply Permutation_app_head.
  rewrite <- (firstn_skipn (j + 1 - i) (skipn i route)) at 1.
  rewrite skipn_skipn. replace (j + 1 - i + i)%nat with (j + 1)%nat by lia.
  apply Permutation_app_tail. apply Permutation_rev.
Qed.

Lemma last_app_nonempty {A : Type} (l1 l2 : list A) (d : A) :
  l2 <> [] -> last (l1 ++ l2) d = last l2 d.
Proof.
  intros Hne. induction l1 as [|a l1 IH]; [reflexivity|].
  cbn [app]. destruct (l1 ++ l2) eqn:E.
  - apply app_eq_nil in E. destruct E; contradiction.
  - rewrite <- IH. reflexivity.
Qed.

Lemma skipn_nonempty {A : Type} (n : nat) (l : list A) :
  (n < length l)%nat -> skipn n l <> [].
Proof.
  intros Hn He. apply (f_equal (@length A)) in He.
  rewrite length_skipn in He. cbn in He. lia.
Qed.

Lemma last_skipn {A : Type} (n : nat) (l : list A) (d : A) :
  (n < length l)%nat -> last (skipn n l) d = last l d.
Proof.
  intros Hn. rewrite <- (firstn_skipn n l) at 2.
  symmetry. apply last_app_nonempty. apply skipn_nonempty; exact Hn.
Qed.

Lemma hd_error_firstn_app {A : Type} (n : nat) (l l' : list A) :
  (1 <= n)%nat -> l <> [] -> hd_error (firstn n l ++ l') = hd_error l.
Proof.
  intros Hn Hne. destruct l as [|a l]; [contradiction|].
  destruct n as [|n]; [lia|]. reflexivity.
Qed.

Lemma reverse_segment_same_ends (route : list (Point.t R)) (i j : nat) :
  (1 <= i)%nat -> (i <= j)%nat -> (j + 1 < length route)%nat ->
  same_ends route (HeuristicSolver.reverse_segment route i j).
Proof.
  intros Hi Hij Hj. repeat split.
  - unfold HeuristicSolver.reverse_segment. apply hd_error_firstn_app; [exact Hi|].
    destruct route; [cbn in Hj; lia | discriminate].
  - intros d. unfold HeuristicSolver.reverse_segment.
    rewrite app_assoc, last_app_nonempty by (apply skipn_nonempty; exact Hj).
    apply last_skipn; exact Hj.
  - symmetry. apply Permutation_length. apply reverse_segment_perm. lia.
Qed.

Lemma scan_2opt_sound (route : list (Point.t R)) (best : R) (nr : list (Point.t R)) :
  HeuristicSolver.scan_2opt route best = Some nr ->
  Permutation route nr /\ same_ends route nr
  /\ Solver.calculate_route_distance nr < best.
Proof.
  unfold HeuristicSolver.scan_2opt. intros H.
  apply find_first_Some in H. destruct H as (i & Hi & H).
  apply find_first_Some in H. destruct H as (j & Hj & H).
  apply range_In in Hi. apply range_In in Hj.
  unfold_num.
  destruct (Rltb _ _) eqn:Hlt; [|discriminate].
  injection H as <-. reflect_R.
  split; [apply reverse_segment_perm; lia|].
  split; [apply reverse_segment_same_ends; lia | exact Hlt].
Qed.

Lemma filter_length_lt_strict {A : Type} (f g : A -> bool) (l : list A) (y : A) :
  (forall x, f x = true -> g x = true) ->
  In y l -> g y = true -> f y = false ->
  (length (filter f l) < length (filter g l))%nat.
Proof.
  intros Hfg. induction l as [|a l IH]; cbn; [contradiction|].
  assert (Hle : (length (filter f l) <= length (filter g l))%nat).
  { clear IH. induction l as [|b l IHl]; cbn; [lia|].
    destruct (f b) eqn:Hfb.
    - rewrite (Hfg b Hfb). cbn. lia.
    - destruct (g b); cbn; lia. }
  intros [-> | Hin] Hgy Hfy.
  - rewrite Hgy, Hfy. cbn. lia.
  - specialize (IH Hin Hgy Hfy).
    destruct (f a) eqn:Hfa.
    + rewrite (Hfg a Hfa). cbn. lia.
    + destruct (g a); cbn; lia.
Qed.

Lemma shorter_arrangements_decreases (route0 nr : list (Point.t R)) (best : R) :
  Permutation route0 nr ->
  Solver.calculate_route_distance nr < best ->
  (shorter_arrangements route0 (Solver.calculate_route_distance nr)
   < shorter_arrangements route0 best)%nat.
Proof.
  intros Hp Hlt. unfold shorter_arrangements.
  apply filter_length_lt_strict with (y := nr).
  - intros r Hr. reflect_R. lra.
  - apply all_perms_complete; exact Hp.
  - reflect_R; exact Hlt.
  - reflect_R; lra.
Qed.

Lemma shorter_arrangements_bound (route0 : list (Point.t R)) (d : R) :
  (shorter_arrangements route0 d <= fact (length route0))%nat.
Proof.
  unfold shorter_arrangements. rewrite <- all_perms_length.
  apply filter_length_le.
Qed.

Lemma same_ends_refl (r : list (Point.t R)) : same_ends r r.
Proof. repeat split. Qed.

Lemma same_ends_trans (r1 r2 r3 : list (Point.t R)) :
  same_ends r1 r2 -> same_ends r2 r3 -> same_ends r1 r3.
Proof.
  intros (H1 & H2 & H3) (H4 & H5 & H6). repeat split.
  - rewrite H4; exact H1.
  - intros d. rewrite H5; apply H2.
  - rewrite H6; exact H3.
Qed.

Lemma improve_loop_spec (route0 : list (Point.t R)) (B : R) :
  forall fuel route best_route best,
    Permutation route0 route -> same_ends route0 route ->
    same_ends route0 best_route ->
    Solver.calculate_route_distance best_route <= B -> best <= B ->
    (shorter_arrangements route0 best < fuel)%nat ->
    exists r, HeuristicSolver.improve_loop fuel route best_route best = Some r
              /\ same_ends route0 r
              /\ Solver.calculate_route_distance r <= B.
Proof.
  induction fuel as [|fuel IH]; intros route br best Hp Hse Hbr HB Hbest Hfuel; [lia|].
  cbn [HeuristicSolver.improve_loop].
  destruct (HeuristicSolver.scan_2opt route best) as [nr|] eqn:Hscan.
  - apply scan_2opt_sound in Hscan. destruct Hscan as (Hp' & Hse' & Hlt).
    assert (Hp0 : Permutation route0 nr) by (exact (Permutation_trans Hp Hp')).
    assert (Hse0 : same_ends route0 nr) by (exact (same_ends_trans Hse Hse')).
    apply IH; auto; try lra.
    pose proof (shorter_arrangements_decreases Hp0 Hlt). lia.
  - exists br. auto.
Qed.

(** 2-opt returns, keeps both ends and the number of points, and never
    returns a longer route than it was given. *)
Lemma local_search_2opt_spec (fuel : nat) (route : list (Point.t R)) :
  (fact (length route) < fuel)%nat ->
  exists r, HeuristicSolver._local_search_2opt fuel route = Some r
            /\ same_ends route r
            /\ Solver.calculate_route_distance r
               <= Solver.calculate_route_distance route.
Proof.
  intros Hfuel. unfold HeuristicSolver._local_search_2opt.
  apply improve_loop_spec; auto using same_ends_refl; try lra.
  pose proof (shorter_arrangements_bound route
                (Solver.calculate_route_distance route)). lia.
Qed.

(** ** Geometric optimisation and point removal keep the ends *)

Lemma set_nth_length {A : Type} (i : nat) (v : A) (l : list A) :
  length (set_nth i v l) = length l.
Proof.
  revert i. induction l as [|a l IH]; intros i; [reflexivity|].
  destruct i; cbn; [reflexivity|]. rewrite IH. reflexivity.
Qed.

Lemma set_nth_hd {A : Type} (i : nat) (v : A) (l : list A) :
  (1 <= i)%nat -> hd_error (set_nth i v l) = hd_error l.
Proof. intros Hi. destruct l; [reflexivity|]. destruct i; [lia|reflexivity]. Qed.

Lemma last_cons_nonempty {A : Type} (a : A) (l : list A) (d : A) :
  l <> [] -> last (a :: l) d = last l d.
Proof. destruct l; [contradiction | reflexivity]. Qed.

Lemma set_nth_last {A : Type} (i : nat) (v : A) (l : list A) (d : A) :
  (S i < length l)%nat -> last (set_nth i v l) d = last l d.
Proof.
  revert i. induction l as [|a l IH]; intros i Hi; [reflexivity|].
  cbn [length] in Hi.
  destruct i as [|i]; cbn [set_nth].
  - destruct l; [cbn in Hi; lia | reflexivity].
  - assert (Hl : (S i < length l)%nat) by lia.
    rewrite !last_cons_nonempty.
    + apply IH; exact Hl.
    + destruct l; [cbn in Hl; lia | discriminate].
    + intros E. apply (f_equal (@length A)) in E.
      rewrite set_nth_length in E. cbn in E. lia.
Qed.

Lemma geometric_step_same_ends (m : Map.t R) (route opt : list (Point.t R)) (i : nat) :
  (1 <= i)%nat -> (S i < length opt)%nat ->
  same_ends opt (HeuristicSolver.geometric_step m route opt i).
Proof.
  intros Hi Hlen. unfold HeuristicSolver.geometric_step.
  destruct (nth_error route (i - 1)); [|apply same_ends_refl].
  destruct (nth_error route i); [|apply same_ends_refl].
  destruct (nth_error route (i + 1)); [|apply same_ends_refl].
  destruct (find _ _); [|apply same_ends_refl].
  destruct (_ <? _)%num; [|apply same_ends_refl].
  repeat split.
  - apply set_nth_hd; exact Hi.
  - intros d. apply set_nth_last; exact Hlen.
  - apply set_nth_length.
Qed.

Lemma geometric_fold_same_ends (m : Map.t R) (route : list (Point.t R)) :
  forall (l : list nat) (opt : list (Point.t R)),
    (forall i, In i l -> (1 <= i)%nat /\ (S i < length opt)%nat) ->
    same_ends opt (fold_left (HeuristicSolver.geometric_step m route) l opt).
Proof.
  induction l as [|i l IH]; intros opt Hl; [apply same_ends_refl|].
  cbn [fold_left].
  assert (Hstep : same_ends opt (HeuristicSolver.geometric_step m route opt i)).
  { apply geometric_step_same_ends; apply Hl; left; reflexivity. }
  eapply same_ends_trans; [exact Hstep|].
  apply IH. intros j Hj. destruct Hstep as (_ & _ & Hlen). rewrite Hlen.
  apply Hl. right; exact Hj.
Qed.

Lemma geometric_optimization_same_ends (m : Map.t R) (route : list (Point.t R)) :
  same_ends route (HeuristicSolver._geometric_optimization m route).
Proof.
  unfold HeuristicSolver._geometric_optimization.
  apply geometric_fold_same_ends. intros i Hi. apply range_In in Hi. lia.
Qed.

Lemma drop_nth_same_ends (route : list (Point.t R)) (i : nat) :
  (1 <= i)%nat -> (S i < length route)%nat ->
  hd_error (HeuristicSolver.drop_nth route i) = hd_error route
  /\ (forall d, last (HeuristicSolver.drop_nth route i) d = last route d)
  /\ S (length (HeuristicSolver.drop_nth route i)) = length route.
Proof.
  intros Hi Hlen. unfold HeuristicSolver.drop_nth. repeat split.
  - apply hd_error_firstn_app; [exact Hi|].
    destruct route; [cbn in Hlen; lia | discriminate].
  - intros d. rewrite last_app_nonempty by (apply skipn_nonempty; lia).
    apply last_skipn. lia.
  - rewrite length_app, length_firstn, length_skipn. lia.
Qed.

Lemma well_formed_same_ends (m : Map.t R) (r r' : list (Point.t R)) :
  well_formed_route m r -> same_ends r r' -> well_formed_route m r'.
Proof.
  intros (H1 & H2 & H3) (H4 & H5 & H6). repeat split.
  - rewrite H4; exact H1.
  - rewrite H5; exact H2.
  - rewrite H6; exact H3.
Qed.

(** Point removal keeps a route well formed, never lengthens the list, and
    leaves at least three points unless it collapses to start and end. *)
Lemma remove_farthest_point_spec (m : Map.t R) (route : list (Point.t R)) :
  well_formed_route m route ->
  well_formed_route m (HeuristicSolver._remove_farthest_point m route)
  /\ (length (HeuristicSolver._remove_farthest_point m route) <= length route)%nat.
Proof.
  intros Hwf. unfold HeuristicSolver._remove_farthest_point.
  destruct (length route <=? 3)%nat eqn:Hlen.
  { destruct Hwf as (_ & _ & Hlen2). split; [repeat split; cbn; lia | cbn; lia]. }
  apply Nat.leb_gt in Hlen.
  set (step := fun (acc : list (Point.t R) * R) (i : nat) =>
                 if (Solver.calculate_route_distance (HeuristicSolver.drop_nth route i)
                     <? snd acc)%num
                 then (HeuristicSolver.drop_nth route i,
                       Solver.calculate_route_distance (HeuristicSolver.drop_nth route i))
                 else acc).
  assert (Hfold : forall l acc,
             (forall i, In i l -> (1 <= i)%nat /\ (S i < length route)%nat) ->
             (well_formed_route m (fst acc) /\ (length (fst acc) <= length route)%nat) ->
             well_formed_route m (fst (fold_left step l acc))
             /\ (length (fst (fold_left step l acc)) <= length route)%nat).
  { induction l as [|i l IH]; intros acc Hl Hacc; [exact Hacc|].
    cbn [fold_left]. apply IH; [intros j Hj; apply Hl; right; exact Hj|].
    unfold step. destruct (_ <? _)%num; [|exact Hacc].
    cbn [fst].
    destruct (Hl i (or_introl eq_refl)) as [Hi1 Hi2].
    destruct (@drop_nth_same_ends route i Hi1 Hi2) as (Hh & Hla & Hle).
    destruct Hwf as (W1 & W2 & W3).
    split; [repeat split|lia].
    - rewrite Hh; exact W1.
    - rewrite Hla; exact W2.
    - lia. }
  apply Hfold; [|split; [exact Hwf | cbn; lia]].
  intros i Hi. apply range_In in Hi. lia.
Qed.

(** ** The initial nearest-neighbour chain *)

Lemma min_by_In (key : Point.t R -> R) (l : list (Point.t R)) (best : Point.t R) :
  In (HeuristicSolver.min_by key best l) (best :: l).
Proof.
  revert best. induction l as [|p l IH]; intros best;
    cbn [HeuristicSolver.min_by]; [left; reflexivity|].
  specialize (IH (if (key p <? key best)%num then p else best)).
  destruct (key p <? key best)%num; destruct IH as [H | H].
  - right; left; exact H.
  - right; right; exact H.
  - left; exact H.
  - right; right; exact H.
Qed.

Lemma list_remove_length (v : Point.t R) (l : list (Point.t R)) :
  In v l -> S (length (HeuristicSolver.list_remove v l)) = length l.
Proof.
  induction l as [|p l IH]; [contradiction|].
  intros Hin. cbn [HeuristicSolver.list_remove].
  destruct (Point.__eq__ p v) eqn:Heq; [reflexivity|].
  destruct Hin as [-> | Hin].
  - rewrite point_eq_refl in Heq. discriminate.
  - cbn [length]. rewrite IH by exact Hin. reflexivity.
Qed.

Lemma chain_spec :
  forall (fuel : nat) (remaining route : list (Point.t R)) (cur : Point.t R),
    (length remaining <= fuel)%nat ->
    exists extra,
      HeuristicSolver.chain fuel route cur remaining = Some (route ++ extra)
      /\ length extra = length remaining.
Proof.
  induction fuel as [|fuel IH]; intros remaining route cur Hfuel.
  - destruct remaining; [|cbn in Hfuel; lia]. exists []. rewrite app_nil_r. auto.
  - destruct remaining as [|p l]; [exists []; rewrite app_nil_r; auto|].
    cbn [HeuristicSolver.chain].
    set (c := HeuristicSolver.min_by _ p l).
    pose proof (@list_remove_length c (p :: l) (min_by_In _ l p)) as Hlen.
    destruct (IH (HeuristicSolver.list_remove c (p :: l)) (route ++ [c]) c)
      as (extra & Hchain & Hextra); [cbn [length] in *; lia|].
    exists (c :: extra). rewrite Hchain, <- app_assoc. cbn [app length] in *.
    split; [reflexivity | lia].
Qed.

Lemma fact_ge_self (n : nat) : (n <= fact n)%nat.
Proof.
  induction n as [|n IH]; [cbn; lia|].
  cbn [fact]. pose proof (lt_O_fact n). nia.
Qed.

Lemma greedy_initial_route_spec (fuel : nat) (m : Map.t R) :
  (length (Map.objects m) <= fuel)%nat ->
  exists route,
    HeuristicSolver._greedy_initial_route fuel m = Some route
    /\ well_formed_route m route
    /\ length route = (length (Map.objects m) + 2)%nat.
Proof.
  intros Hfuel. unfold HeuristicSolver._greedy_initial_route.
  destruct (@chain_spec fuel (Map.objects m) [Map.start_point m]
              (Map.start_point m) Hfuel) as (extra & -> & Hlen).
  cbn [bind]. eexists; split; [reflexivity|].
  split; [repeat split|].
  - apply last_last.
  - rewrite !length_app; cbn; lia.
  - rewrite !length_app; cbn; lia.
Qed.

(** ** The outer loop *)

Lemma iteration_spec (fuel : nat) (m : Map.t R) (route : list (Point.t R)) :
  well_formed_route m route ->
  (fact (length route) < fuel)%nat ->
  exists res,
    HeuristicSolver.iteration fuel m route = Some res
    /\ match res with
       | inl (_, r) => well_formed_route m r
       | inr r => well_formed_route m r /\ (length r <= length route)%nat
       end.
Proof.
  intros Hwf Hfuel. unfold HeuristicSolver.iteration.
  destruct (@local_search_2opt_spec fuel route Hfuel) as (r1 & -> & Hse1 & _).
  cbn [bind].
  pose proof (geometric_optimization_same_ends m r1) as Hse2.
  pose proof (@well_formed_same_ends m _ _ Hwf (same_ends_trans Hse1 Hse2)) as Hwf2.
  destruct (_ <=? _)%num; [eexists; split; [reflexivity | exact Hwf2]|].
  destruct (@remove_farthest_point_spec m _ Hwf2) as (Hwf3 & Hlen3).
  destruct (length _ <=? 2)%nat;
    (eexists; split; [reflexivity|]); [exact Hwf3|].
  split; [exact Hwf3|].
  destruct Hse1 as (_ & _ & L1). destruct Hse2 as (_ & _ & L2). lia.
Qed.

Lemma outer_loop_spec (fuel : nat) (m : Map.t R) :
  forall (remaining : nat) (route : list (Point.t R)) history,
    well_formed_route m route ->
    (fact (length route) < fuel)%nat ->
    exists r e h,
      HeuristicSolver.outer_loop fuel remaining m route history = Some (r, e, h)
      /\ well_formed_route m r.
Proof.
  induction remaining as [|k IH]; intros route history Hwf Hfuel.
  - cbn. eauto.
  - cbn [HeuristicSolver.outer_loop].
    destruct (@iteration_spec fuel m route Hwf Hfuel) as (res & -> & Hres). cbn [bind].
    destruct res as [[e r]|r].
    + eauto.
    + destruct Hres as [Hwf' Hlen]. apply IH; [exact Hwf'|].
      pose proof (@fact_le _ _ Hlen). lia.
Qed.

Lemma heuristic_run_spec (fuel : nat) (m : Map.t R) :
  (fact (length (Map.objects m) + 2) < fuel)%nat ->
  exists route e h,
    HeuristicSolver.run fuel m = Some (route, e, h)
    /\ well_formed_route m route.
Proof.
  intros Hfuel. unfold HeuristicSolver.run.
  pose proof (fact_ge_self (length (Map.objects m) + 2)) as Hge.
  destruct (@greedy_initial_route_spec fuel m) as (route & -> & Hwf & Hlen); [lia|].
  cbn [bind]. apply outer_loop_spec; [exact Hwf|]. rewrite Hlen. exact Hfuel.
Qed.

(** ** Both solvers return well-formed routes *)

Lemma add_length_le (p : Point.t R) (s : list (Point.t R)) :
  (length (PySet.add p s) <= S (length s))%nat.
Proof.
  unfold PySet.add. destruct (PySet.mem p s); [lia|].
  rewrite length_app; cbn; lia.
Qed.

Lemma of_list_length_le (l : list (Point.t R)) :
  (length (PySet.of_list l) <= length l)%nat.
Proof.
  unfold PySet.of_list.
  assert (H : forall acc, (length (fold_left (fun s p => PySet.add p s) l acc)
                           <= length acc + length l)%nat).
  { induction l as [|p l IH]; intros acc; cbn [fold_left length]; [lia|].
    specialize (IH (PySet.add p acc)). pose proof (add_length_le p acc). lia. }
  apply (H []).
Qed.

Lemma improve_loop_same_ends (route0 : list (Point.t R)) :
  forall fuel route best_route best r,
    same_ends route0 route -> same_ends route0 best_route ->
    HeuristicSolver.improve_loop fuel route best_route best = Some r ->
    same_ends route0 r.
Proof.
  induction fuel as [|fuel IH]; intros route br best r Hse Hbr; [discriminate|].
  cbn [HeuristicSolver.improve_loop].
  destruct (HeuristicSolver.scan_2opt route best) as [nr|] eqn:Hscan.
  - apply scan_2opt_sound in Hscan. destruct Hscan as (_ & Hse' & _).
    apply IH; exact (same_ends_trans Hse Hse').
  - intros [= <-]. exact Hbr.
Qed.

(** In exact arithmetic both solvers return on every validated map, the
    greedy one whatever the order in which it iterates the unsurveyed set,
    and the route either of them returns starts at the start point, ends at
    the end point and has at least two points.  The three steps of the
    heuristic leave the first and the last position alone.  On binary64
    numbers the greedy solver need not return. *)
Theorem routes_run_from_start_to_end (m : Map.t R) (Hvalid : Map.validate m = true) :
  (forall unsurveyed, exists N, forall fuel, (N <= fuel)%nat ->
     (exists route surveyed total,
        GreedySolver.solve_in_order fuel m unsurveyed = Some (route, surveyed, total)
        /\ well_formed_route m route)
     /\ (exists route surveyed total,
           HeuristicSolver.solve fuel m = Some (route, surveyed, total)
           /\ well_formed_route m route))
  /\ (forall fuel route r,
        HeuristicSolver._local_search_2opt fuel route = Some r -> same_ends route r)
  /\ (forall route, same_ends route (HeuristicSolver._geometric_optimization m route))
  /\ (forall route, well_formed_route m route ->
        well_formed_route m (HeuristicSolver._remove_farthest_point m route)).
Proof.
  split; [|split; [|split]].
  - intros unsurveyed.
    exists (S (fact (length (Map.objects m) + 2) + length unsurveyed)).
    intros fuel Hfuel. split.
    + destruct (@greedy_solve_validated m fuel unsurveyed Hvalid)
        as (route & surveyed & total & Hsolve & Hwf & _); [lia|].
      exists route, surveyed, total. auto.
    + destruct (@heuristic_run_spec fuel m) as (route & e & h & Hrun & Hwf); [lia|].
      unfold HeuristicSolver.solve. rewrite Hrun. cbn [bind fst].
      eexists _, _, _. split; [reflexivity | exact Hwf].
  - intros fuel route r. unfold HeuristicSolver._local_search_2opt.
    apply improve_loop_same_ends; apply same_ends_refl.
  - intros route. apply geometric_optimization_same_ends.
  - intros route Hwf. apply remove_farthest_point_spec; exact Hwf.
Qed.

Lemma routes_run_from_start_to_end_witness :
  Map.validate map_c5 = true
  /\ exists N, forall fuel, (N <= fuel)%nat ->
       (exists route surveyed total,
          GreedySolver.solve fuel map_c5 = Some (route, surveyed, total)
          /\ well_formed_route map_c5 route)
       /\ (exists route surveyed total,
             HeuristicSolver.solve fuel map_c5 = Some (route, surveyed, total)
             /\ well_formed_route map_c5 route).
Proof.
  split; [exact validate_map_c5|].
  exact (proj1 (routes_run_from_start_to_end map_c5 validate_map_c5)
           (PySet.of_list (Map.objects map_c5))).
Defined.

(** C7: on a validated map without objects both solvers return the direct
    route from start to end, nothing surveyed, and the distance from start
    to end as the total. *)
Theorem no_objects_direct_route (m : Map.t R)
    (Hvalid : Map.validate m = true) (Hempty : Map.objects m = []) :
  forall fuel, (1 <= fuel)%nat ->
    GreedySolver.solve fuel m
    = Some ([Map.start_point m; Map.end_point m], [],
            Point.distance_to (Map.start_point m) (Map.end_point m))
    /\ HeuristicSolver.solve fuel m
       = Some ([Map.start_point m; Map.end_point m], [],
               Point.distance_to (Map.start_point m) (Map.end_point m)).
Proof.
  intros fuel Hfuel. destruct fuel as [|fuel]; [lia|].
  apply validate_iff in Hvalid. destruct Hvalid as (_ & _ & _ & Hd).
  destruct m as [s e objs mx r]. cbn [Map.objects Map.start_point Map.end_point
                                     Map.max_distance] in *. subst objs.
  split.
  - unfold GreedySolver.solve, GreedySolver.solve_in_order, GreedySolver.initial_state.
    cbn [GreedySolver.while_loop Map.objects Map.start_point].
    unfold GreedySolver.guard.
    cbn [GreedySolver.unsurveyed_objects PySet.of_list fold_left length Nat.eqb negb].
    rewrite andb_false_r. cbn [bind].
    unfold GreedySolver.finish.
    cbn [GreedySolver.unsurveyed_objects GreedySolver.surveyed_objects
         GreedySolver.route length Nat.eqb negb andb app Map.end_point].
    rewrite route_distance_two. reflexivity.
  - unfold HeuristicSolver.solve, HeuristicSolver.run,
      HeuristicSolver._greedy_initial_route.
    cbn [Map.objects Map.start_point Map.end_point HeuristicSolver.chain bind app].
    unfold HeuristicSolver.max_iterations.
    cbn [HeuristicSolver.outer_loop].
    unfold HeuristicSolver.iteration, HeuristicSolver._local_search_2opt.
    cbn [HeuristicSolver.improve_loop].
    unfold HeuristicSolver.scan_2opt, HeuristicSolver._geometric_optimization.
    cbn [length Nat.sub range seq find_first fold_left bind].
    rewrite route_distance_two.
    cbn [Map.max_distance]. unfold_num.
    apply Rleb_true_iff in Hd. rewrite Hd.
    cbn [bind fst snd]. unfold Solver.get_surveyed_objects. cbn [Map.objects fold_left].
    rewrite route_distance_two. reflexivity.
Qed.

Lemma no_objects_direct_route_witness :
  Map.validate map_c3 = true
  /\ Map.objects map_c3 = []
  /\ GreedySolver.solve 1 map_c3
     = Some ([Map.start_point map_c3; Map.end_point map_c3], [],
             Point.distance_to (Map.start_point map_c3) (Map.end_point map_c3))
  /\ HeuristicSolver.solve 1 map_c3
     = Some ([Map.start_point map_c3; Map.end_point map_c3], [],
             Point.distance_to (Map.start_point map_c3) (Map.end_point map_c3)).
Proof.
  split; [exact validate_map_c3|]. split; [reflexivity|].
  exact (no_objects_direct_route map_c3 validate_map_c3 eq_refl (le_n 1)).
Defined.

(** ** Coverage of a fixed route grows with the radius *)

Lemma same_member_coords (p q : Point.t R) :
  PySet.same_member p q = true -> Point.x p = Point.x q /\ Point.y p = Point.y q.
Proof.
  unfold PySet.same_member, PySet.hash_eqb, Point.__hash__. cbn [fst snd].
  unfold_num. rewrite !andb_true_iff. intros [[Hx Hy] _]. reflect_R. auto.
Qed.

Lemma distance_point_to_segment_coords (p q a b : Point.t R) :
  Point.x p = Point.x q -> Point.y p = Point.y q ->
  Point.distance_point_to_segment p a b = Point.distance_point_to_segment q a b.
Proof.
  intros Hx Hy. unfold Point.distance_point_to_segment, Point.distance_to, Point.error.
  rewrite Hx, Hy. reflexivity.
Qed.

Lemma is_surveyed_same_member (m : Map.t R) (route : list (Point.t R)) (p q : Point.t R) :
  PySet.same_member p q = true ->
  Solver.is_surveyed m route p = Solver.is_surveyed m route q.
Proof.
  intros H. apply same_member_coords in H. destruct H as [Hx Hy].
  unfold Solver.is_surveyed.
  induction (Solver.segments route) as [|ab l IH]; [reflexivity|].
  cbn [existsb]. rewrite IH, (@distance_point_to_segment_coords p q _ _ Hx Hy).
  reflexivity.
Qed.

Lemma mem_filter (test : Point.t R -> bool) (p : Point.t R) (acc : list (Point.t R)) :
  (forall q, PySet.same_member p q = true -> test q = test p) ->
  test p = true ->
  PySet.mem p (filter test acc) = PySet.mem p acc.
Proof.
  intros Hresp Hp. unfold PySet.mem.
  induction acc as [|q acc IH]; [reflexivity|].
  cbn [filter existsb].
  destruct (PySet.same_member p q) eqn:Hpq.
  - rewrite (Hresp q Hpq), Hp. cbn [existsb]. rewrite Hpq. reflexivity.
  - destruct (test q); cbn [existsb]; rewrite ?Hpq; exact IH.
Qed.

Lemma add_filter (test : Point.t R -> bool) (p : Point.t R) (acc : list (Point.t R)) :
  (forall q, PySet.same_member p q = true -> test q = test p) ->
  filter test (PySet.add p acc)
  = if test p then PySet.add p (filter test acc) else filter test acc.
Proof.
  intros Hresp. unfold PySet.add.
  pose proof (@mem_filter test p acc Hresp) as Hmem.
  destruct (test p) eqn:Hp.
  - rewrite (Hmem eq_refl).
    destruct (PySet.mem p acc); [reflexivity|].
    rewrite filter_app. cbn [filter]. rewrite Hp. reflexivity.
  - destruct (PySet.mem p acc); [reflexivity|].
    rewrite filter_app. cbn [filter]. rewrite Hp. apply app_nil_r.
Qed.

Lemma surveyed_fold_filter (test : Point.t R -> bool) :
  (forall p q, PySet.same_member p q = true -> test q = test p) ->
  forall (l acc : list (Point.t R)),
    fold_left (fun surveyed obj => if test obj then PySet.add obj surveyed else surveyed)
              l (filter test acc)
    = filter test (fold_left (fun s p => PySet.add p s) l acc).
Proof.
  intros Hresp. induction l as [|obj l IH]; intros acc; [reflexivity|].
  cbn [fold_left]. rewrite <- IH.
  rewrite (@add_filter test obj acc (Hresp obj)). reflexivity.
Qed.

(** The surveyed set of a route: the distinct objects, in order, that pass
    the coverage test. *)
Lemma get_surveyed_objects_filter (m : Map.t R) (route : list (Point.t R)) :
  Solver.get_surveyed_objects m route
  = filter (Solver.is_surveyed m ([Map.start_point m] ++ route ++ [Map.end_point m]))
           (PySet.of_list (Map.objects m)).
Proof.
  unfold Solver.get_surveyed_objects, PySet.of_list.
  rewrite <- surveyed_fold_filter; [reflexivity|].
  intros p q H. symmetry. apply is_surveyed_same_member; exact H.
Qed.

Lemma filter_length_mono {A : Type} (f g : A -> bool) (l : list A) :
  (forall x, f x = true -> g x = true) ->
  incl (filter f l) (filter g l)
  /\ (length (filter f l) <= length (filter g l))%nat.
Proof.
  intros Hfg. split.
  - intros x Hx. apply filter_In in Hx. apply filter_In.
    split; [tauto | apply Hfg; tauto].
  - induction l as [|a l IH]; cbn; [lia|].
    destruct (f a) eqn:Hfa.
    + rewrite (Hfg a Hfa). cbn. lia.
    + destruct (g a); cbn; lia.
Qed.

Lemma is_surveyed_radius_mono (m : Map.t R) (route : list (Point.t R))
    (r1 r2 : R) (p : Point.t R) :
  r1 <= r2 ->
  Solver.is_surveyed (with_radius m r1) route p = true ->
  Solver.is_surveyed (with_radius m r2) route p = true.
Proof.
  intros Hle. unfold Solver.is_surveyed, with_radius. cbn [Map.survey_radius].
  rewrite !existsb_exists. intros (ab & Hin & Hd). exists ab. split; [exact Hin|].
  unfold_num. reflect_R. lra.
Qed.

(** C8, as amended: for a fixed route, every object surveyed with radius
    [r1] is surveyed with any radius [r2 >= r1], so the surveyed set and
    its size can only grow. *)
Theorem surveyed_set_grows_with_radius (m : Map.t R) (route : list (Point.t R))
    (r1 r2 : R) (Hle : r1 <= r2) :
  incl (Solver.get_surveyed_objects (with_radius m r1) route)
       (Solver.get_surveyed_objects (with_radius m r2) route)
  /\ (length (Solver.get_surveyed_objects (with_radius m r1) route)
      <= length (Solver.get_surveyed_objects (with_radius m r2) route))%nat.
Proof.
  rewrite !get_surveyed_objects_filter.
  cbn [with_radius Map.start_point Map.end_point Map.objects].
  apply filter_length_mono. intros p. apply is_surveyed_radius_mono; exact Hle.
Qed.

(** ** The entry point for objects on the x axis *)

Lemma sqrt_axis (u : R) : R_sqrt.sqrt (u * u + (0 - 0) * (0 - 0)) = Rabs u.
Proof.
  replace (u * u + (0 - 0) * (0 - 0)) with (Rsqr u) by (unfold Rsqr; ring).
  apply sqrt_Rsqr_abs.
Qed.

Lemma intersection_axis (a c r s : R) :
  0 <= r -> r < Rabs (c - a) - 1 -> s = (c - a) / Rabs (c - a) ->
  GreedySolver._find_intersection_with_circle (rpt a 0) (rpt c 0) (rpt c 0) r
  = Some (rpt (c - r * s) 0).
Proof.
  intros Hr Hfar Hs.
  assert (Hpos : 0 < Rabs (c - a)) by lra.
  assert (Hs2 : s * s = 1).
  { subst s. unfold Rabs in *. destruct (Rcase_abs (c - a)); field; lra. }
  assert (Hsa : (c - a) * s = Rabs (c - a)).
  { subst s. unfold Rabs in *. destruct (Rcase_abs (c - a)); field; lra. }
  unfold GreedySolver._find_intersection_with_circle.
  rewrite distance_axis.
  cbn [Point.x Point.y]. unfold_num.
  rewrite sqrt_axis.
  replace (Rabs (a - c)) with (Rabs (c - a)) by apply Rabs_minus_sym.
  rewrite <- Hs.
  replace ((0 - 0) / Rabs (c - a)) with 0 by (field; lra).
  replace ((c - a) * s + (0 - 0) * 0) with (Rabs (c - a)) by lra.
  replace (c - (a + Rabs (c - a) * s)) with ((1 - s * s) * (c - a))
    by (rewrite <- Hsa; ring).
  rewrite Hs2.
  replace ((1 - 1) * (c - a) * ((1 - 1) * (c - a))
           + (0 - (0 + Rabs (c - a) * 0)) * (0 - (0 + Rabs (c - a) * 0)))
    with (0 * 0) by ring.
  rewrite sqrt_square by lra.
  replace (r * r - 0 * 0) with (r * r) by ring.
  rewrite sqrt_square by exact Hr.
  replace (Reqb (Rabs (c - a)) 0) with false by (symmetry; reflect_R; lra).
  replace (Rleb (Rabs (c - a) - 1) r) with false by (symmetry; reflect_R; lra).
  replace (Rleb (Rabs (c - a)) 0) with false by (symmetry; reflect_R; lra).
  replace (Rltb r 0) with false by (symmetry; reflect_R; lra).
  f_equal. f_equal; [|ring].
  rewrite <- Hsa.
  replace (a + (c - a) * s * s - r * s) with (a + (c - a) * (s * s) - r * s) by ring.
  rewrite Hs2. ring.
Qed.

Lemma intersection_inside (start obj : Point.t R) (r : R) :
  Point.distance_to start obj <= r ->
  GreedySolver._find_intersection_with_circle start obj obj r = Some start.
Proof.
  intros Hin. unfold GreedySolver._find_intersection_with_circle.
  destruct (_ =? _)%num; [reflexivity|].
  unfold_num. apply Rleb_true_iff in Hin. rewrite Hin. reflexivity.
Qed.

Lemma clamp01_low (v : R) : v <= 0 -> Point.clamp01 v = 0.
Proof.
  intros Hv. unfold Point.clamp01. unfold_num.
  rewrite (proj2 (Rltb_true_iff v 1)) by lra.
  rewrite (proj2 (Rltb_false_iff 0 v)) by lra. reflexivity.
Qed.

Lemma clamp01_high (v : R) : 1 <= v -> Point.clamp01 v = 1.
Proof.
  intros Hv. unfold Point.clamp01. unfold_num.
  rewrite (proj2 (Rltb_false_iff v 1)) by lra.
  rewrite (proj2 (Rltb_true_iff 0 1)) by lra. reflexivity.
Qed.

(** The distance the post-loop coverage test of the greedy solver uses,
    for a point on the x axis beyond the end of a segment of the x axis. *)
Lemma point_to_line_axis (p a b t : R) :
  Rabs (a - b) - 1 <> 0 ->
  Point.clamp01 ((p - a) * (b - a) / ((Rabs (a - b) - 1) * (Rabs (a - b) - 1))) = t ->
  GreedySolver._point_to_line_distance (rpt p 0) (rpt a 0) (rpt b 0)
  = Rabs (p - (a + t * (b - a))).
Proof.
  intros Hlen Ht. unfold GreedySolver._point_to_line_distance.
  rewrite distance_axis. cbn [Point.x Point.y]. unfold_num.
  rewrite (proj2 (Reqb_false_iff _ _) Hlen).
  replace ((p - a) * (b - a) + (0 - 0) * (0 - 0)) with ((p - a) * (b - a)) by ring.
  rewrite Ht.
  replace (0 - (0 + t * (0 - 0))) with (0 - 0) by ring.
  apply sqrt_axis.
Qed.

Ltac eval_axis :=
  repeat progress
    (cbn [fold_left filter existsb fst snd negb andb orb app length Nat.eqb
          Point.x Point.y Point.__hash__
          GreedySolver.route GreedySolver.surveyed_objects
          GreedySolver.current_position GreedySolver.route_length
          GreedySolver.unsurveyed_objects
          Map.start_point Map.end_point Map.objects Map.max_distance
          Map.survey_radius];
     rewrite ?distance_axis;
     unfold_num;
     decide_R).

Lemma of_list_map_c8 (r : R) :
  PySet.of_list (Map.objects (map_c8 r)) = [rpt (-6) 0; rpt (-16) 0; rpt 12 0].
Proof.
  unfold PySet.of_list, map_c8, PySet.add, PySet.mem, PySet.same_member,
    PySet.hash_eqb.
  eval_axis. reflexivity.
Qed.

Lemma while_continue (m : Map.t R) (fuel : nat) (s s' : @GreedySolver.state R) :
  GreedySolver.guard m s = true ->
  GreedySolver.body m s = GreedySolver.Continue s' ->
  GreedySolver.while_loop (S fuel) m s = GreedySolver.while_loop fuel m s'.
Proof. intros Hg Hb. cbn [GreedySolver.while_loop]. rewrite Hg, Hb. reflexivity. Qed.

Lemma while_break (m : Map.t R) (fuel : nat) (s : @GreedySolver.state R) :
  GreedySolver.guard m s = true ->
  GreedySolver.body m s = GreedySolver.Break s ->
  GreedySolver.while_loop (S fuel) m s = Some s.
Proof. intros Hg Hb. cbn [GreedySolver.while_loop]. rewrite Hg, Hb. reflexivity. Qed.

Lemma while_stop (m : Map.t R) (fuel : nat) (s : @GreedySolver.state R) :
  GreedySolver.guard m s = false ->
  GreedySolver.while_loop (S fuel) m s = Some s.
Proof. intros Hg. cbn [GreedySolver.while_loop]. rewrite Hg. reflexivity. Qed.

Ltac solve_guard :=
  unfold GreedySolver.guard; eval_axis; reflexivity.

Ltac solve_nearest :=
  unfold GreedySolver.find_nearest, GreedySolver.nearest_step; eval_axis;
  reflexivity.

Ltac unfold_sets :=
  unfold PySet.add, PySet.remove, PySet.mem, PySet.same_member, PySet.hash_eqb,
    Point.__eq__, Point.tolerance.

Lemma intersection_axis_to (a c r i : R) :
  0 <= r -> r < Rabs (c - a) - 1 -> i = c - r * ((c - a) / Rabs (c - a)) ->
  GreedySolver._find_intersection_with_circle (rpt a 0) (rpt c 0) (rpt c 0) r
  = Some (rpt i 0).
Proof. intros Hr Hfar ->. apply intersection_axis; auto. Qed.

Ltac solve_abs :=
  unfold Rabs; repeat match goal with |- context [Rcase_abs ?x] =>
                        destruct (Rcase_abs x) end;
  try (exfalso; lra); try lra; field; lra.

Ltac solve_far :=
  match goal with
  | |- ?n / ?d <= 0 =>
      assert (0 < d) by solve_abs;
      apply Rmult_le_reg_r with (r := d); [assumption|];
      unfold Rdiv; rewrite Rmult_assoc, Rinv_l by lra; lra
  | |- 1 <= ?n / ?d =>
      assert (0 < d) by solve_abs;
      apply Rmult_le_reg_r with (r := d); [assumption|];
      unfold Rdiv; rewrite Rmult_assoc, Rinv_l by lra; solve_abs
  end.

Ltac solve_total :=
  unfold Solver.calculate_route_distance;
  cbn [length Nat.ltb Nat.leb Solver.segments fold_left fst snd];
  rewrite ?distance_to_same, ?distance_axis; unfold_num;
  repeat f_equal; solve_R.

Lemma greedy_c8_radius_6 :
  GreedySolver.solve 4 (map_c8 6)
  = Some ([rpt 0 0; rpt 0 0; rpt 6 0; rpt 8 0], [rpt (-6) 0; rpt 12 0], 5).
Proof.
  unfold GreedySolver.solve, GreedySolver.solve_in_order, GreedySolver.initial_state.
  rewrite of_list_map_c8. unfold map_c8. cbn [Map.start_point].
  (* first pass: the nearest object is within reach of the start *)
  erewrite while_continue; cycle 1.
  { solve_guard. }
  { apply body_commit with (o := rpt (-6) 0) (i := rpt 0 0).
    - solve_nearest.
    - apply intersection_inside. eval_axis. solve_R.
    - eval_axis. solve_R. }
  unfold_sets; eval_axis.
  (* second pass: on to the object at 12 *)
  erewrite while_continue; cycle 1.
  { solve_guard. }
  { apply body_commit with (o := rpt 12 0) (i := rpt 6 0).
    - solve_nearest.
    - apply intersection_axis_to; cbn [Map.survey_radius];
        [lra | solve_abs | solve_abs].
    - eval_axis. solve_R. }
  unfold_sets; eval_axis.
  (* third pass: the object at -16 is out of reach *)
  erewrite while_break; cycle 1.
  { solve_guard. }
  { apply body_break with (o := rpt (-16) 0) (i := rpt (-10) 0).
    - solve_nearest.
    - apply intersection_axis_to; cbn [Map.survey_radius];
        [lra | solve_abs | solve_abs].
    - eval_axis. solve_R. }
  cbn [bind]. unfold GreedySolver.finish.
  eval_axis.
  rewrite (@point_to_line_axis (-16) 6 8 0);
    [|solve_abs | apply clamp01_low; solve_far].
  eval_axis. solve_total.
Qed.

Lemma greedy_c8_radius_3 :
  GreedySolver.solve 4 (map_c8 3)
  = Some ([rpt 0 0; rpt (-3) 0; rpt (-13) 0; rpt 9 0; rpt 8 0],
          [rpt (-6) 0; rpt (-16) 0; rpt 12 0], 32).
Proof.
  unfold GreedySolver.solve, GreedySolver.solve_in_order, GreedySolver.initial_state.
  rewrite of_list_map_c8. unfold map_c8. cbn [Map.start_point].
  erewrite while_continue; cycle 1.
  { solve_guard. }
  { apply body_commit with (o := rpt (-6) 0) (i := rpt (-3) 0).
    - solve_nearest.
    - apply intersection_axis_to; cbn [Map.survey_radius];
        [lra | solve_abs | solve_abs].
    - eval_axis. solve_R. }
  unfold_sets; eval_axis.
  erewrite while_continue; cycle 1.
  { solve_guard. }
  { apply body_commit with (o := rpt (-16) 0) (i := rpt (-13) 0).
    - solve_nearest.
    - apply intersection_axis_to; cbn [Map.survey_radius];
        [lra | solve_abs | solve_abs].
    - eval_axis. solve_R. }
  unfold_sets; eval_axis.
  erewrite while_continue; cycle 1.
  { solve_guard. }
  { apply body_commit with (o := rpt 12 0) (i := rpt 9 0).
    - solve_nearest.
    - apply intersection_axis_to; cbn [Map.survey_radius];
        [lra | solve_abs | solve_abs].
    - eval_axis. solve_R. }
  unfold_sets; eval_axis.
  rewrite while_stop by solve_guard.
  cbn [bind]. unfold GreedySolver.finish.
  eval_axis. solve_total.
Qed.

Lemma of_list_map_c5 : PySet.of_list (Map.objects map_c5) = [rpt 14 0].
Proof. reflexivity. Qed.

Lemma point_to_line_c5 :
  GreedySolver._point_to_line_distance (rpt 14 0) (rpt 0 0) (rpt 10 0) = 4.
Proof.
  rewrite (@point_to_line_axis 14 0 10 1);
    [solve_abs | solve_abs | apply clamp01_high; solve_far].
Qed.

Lemma greedy_c5 :
  GreedySolver.solve 1 map_c5 = Some ([rpt 0 0; rpt 10 0], [], 9).
Proof.
  unfold GreedySolver.solve, GreedySolver.solve_in_order, GreedySolver.initial_state.
  rewrite of_list_map_c5. unfold map_c5. cbn [Map.start_point].
  erewrite while_break; cycle 1.
  { solve_guard. }
  { apply body_break with (o := rpt 14 0) (i := rpt 11 0).
    - solve_nearest.
    - apply intersection_axis_to; cbn [Map.survey_radius];
        [lra | solve_abs | solve_abs].
    - eval_axis. solve_R. }
  cbn [bind]. unfold GreedySolver.finish.
  eval_axis. rewrite point_to_line_c5. eval_axis. solve_total.
Qed.

Lemma segment_distance_axis (p a b t : R) :
  b - a <> 0 ->
  Point.clamp01 ((p - a) * (b - a) / ((b - a) * (b - a))) = t ->
  Point.distance_point_to_segment (rpt p 0) (rpt a 0) (rpt b 0)
  = Rabs (p - (a + t * (b - a))) - 1.
Proof.
  intros Hab Ht. unfold Point.distance_point_to_segment.
  cbn [Point.x Point.y]. unfold_num.
  replace (Reqb (b - a) (0 - 0)) with false by (symmetry; reflect_R; lra).
  cbn [andb].
  replace ((p - a) * (b - a) + (0 - 0) * (0 - 0)) with ((p - a) * (b - a)) by ring.
  replace ((b - a) * (b - a) + (0 - 0) * (0 - 0)) with ((b - a) * (b - a)) by ring.
  rewrite Ht.
  replace (0 + t * (0 - 0)) with 0 by ring.
  apply distance_axis.
Qed.

Lemma segment_distance_c5 :
  Point.distance_point_to_segment (rpt 14 0) (rpt 0 0) (rpt 10 0) = 3.
Proof.
  rewrite (@segment_distance_axis 14 0 10 1);
    [solve_abs | lra | apply clamp01_high; solve_far].
Qed.

Lemma surveyed_c5 : Solver.get_surveyed_objects map_c5 [] = [rpt 14 0].
Proof.
  unfold Solver.get_surveyed_objects, Solver.is_surveyed.
  cbn [map_c5 Map.start_point Map.end_point Map.objects Map.survey_radius
       app Solver.segments fold_left existsb fst snd].
  rewrite segment_distance_c5. unfold_num. decide_R. reflexivity.
Qed.

(** ** The claims on coverage and distance *)

Lemma validate_map_c8 (r : R) : 0 <= r -> Map.validate (map_c8 r) = true.
Proof.
  intros Hr. apply validate_iff.
  cbn [map_c8 Map.start_point Map.end_point Map.max_distance Map.survey_radius].
  rewrite distance_axis.
  split; [|solve_R].
  unfold Point.__eq__, Point.tolerance; cbn. decide_R. reflexivity.
Qed.

Lemma surveyed_set_grows_with_radius_witness :
  3 <= 6
  /\ incl (Solver.get_surveyed_objects (with_radius (map_c8 3) 3) [])
          (Solver.get_surveyed_objects (with_radius (map_c8 3) 6) []).
Proof.
  assert (H : 3 <= 6) by lra.
  split; [exact H|].
  exact (proj1 (surveyed_set_grows_with_radius (map_c8 3) [] H)).
Defined.

(** C8, counterexample: the same validated map, solved by the greedy
    strategy with radius 3 and with radius 6.  With radius 3 all three
    objects are surveyed; with radius 6 the first object is covered from the
    start point, the route turns to the object at 12 instead of the one at
    -16, the latter can no longer be afforded, and only two objects are
    surveyed.  The float instance gives the same counts. *)
Lemma greedy_surveys_fewer_with_larger_radius :
  Map.validate (map_c8 3) = true
  /\ Map.validate (map_c8 6) = true
  /\ GreedySolver.solve 4 (map_c8 3)
     = Some ([rpt 0 0; rpt (-3) 0; rpt (-13) 0; rpt 9 0; rpt 8 0],
             [rpt (-6) 0; rpt (-16) 0; rpt 12 0], 32)
  /\ GreedySolver.solve 4 (map_c8 6)
     = Some ([rpt 0 0; rpt 0 0; rpt 6 0; rpt 8 0], [rpt (-6) 0; rpt 12 0], 5)
  /\ surveyed_count (GreedySolver.solve 4 (fmap_c8 3)) = Some 3%nat
  /\ surveyed_count (GreedySolver.solve 4 (fmap_c8 6)) = Some 2%nat.
Proof.
  split; [apply validate_map_c8; lra|].
  split; [apply validate_map_c8; lra|].
  split; [exact greedy_c8_radius_3|].
  split; [exact greedy_c8_radius_6|].
  split; vm_compute; reflexivity.
Qed.

Lemma distance_value (a b : Point.t R) (c : R) :
  0 <= c + 1 ->
  (Point.x a - Point.x b) * (Point.x a - Point.x b)
  + (Point.y a - Point.y b) * (Point.y a - Point.y b) = (c + 1) * (c + 1) ->
  Point.distance_to a b = c.
Proof.
  intros Hc Hsq. rewrite distance_to_unfold, Hsq, sqrt_square by exact Hc. ring.
Qed.

Lemma clamp01_mid (v : R) : 0 < v < 1 -> Point.clamp01 v = v.
Proof.
  intros Hv. unfold Point.clamp01. unfold_num.
  rewrite (proj2 (Rltb_true_iff v 1)) by lra.
  rewrite (proj2 (Rltb_true_iff 0 v)) by lra. reflexivity.
Qed.

(** [distance_to] is the Euclidean distance minus the error of the first
    point, which is 1 for every point.  Route lengths and the coverage test
    of [get_surveyed_objects] are built from it.  The post-loop coverage
    test of the greedy solver is not: for a final segment whose biased
    length is not 0 it answers the plain Euclidean distance from the object
    to a point of the segment, the one at the parameter it computes with
    the square of the biased length. *)
Theorem distance_is_biased_euclid (a b p : Point.t R)
    (Hsegment : Point.distance_to a b <> 0) :
  Point.error a = 1
  /\ Point.distance_to a b = euclid a b - Point.error a
  /\ Solver.calculate_route_distance [a; b] = euclid a b - Point.error a
  /\ (exists c, Point.distance_point_to_segment p a b = euclid p c - Point.error p)
  /\ let t := Point.clamp01
                (((Point.x p - Point.x a) * (Point.x b - Point.x a)
                  + (Point.y p - Point.y a) * (Point.y b - Point.y a))
                 / (Point.distance_to a b * Point.distance_to a b)) in
     GreedySolver._point_to_line_distance p a b
     = euclid p (Point.make (Point.x a + t * (Point.x b - Point.x a))
                            (Point.y a + t * (Point.y b - Point.y a)) "").
Proof.
  split; [reflexivity|].
  split; [apply distance_to_euclid|].
  split; [rewrite route_distance_two; apply distance_to_euclid|].
  split.
  - unfold Point.distance_point_to_segment.
    destruct (_ && _); eexists; apply distance_to_euclid.
  - intros t. unfold GreedySolver._point_to_line_distance.
    unfold_num. rewrite (proj2 (Reqb_false_iff _ _) Hsegment).
    fold t. unfold euclid. cbn [Point.x Point.y]. f_equal. ring.
Qed.

Lemma distance_is_biased_euclid_witness :
  Point.distance_to (rpt 0 0) (rpt 10 0) <> 0
  /\ Point.distance_to (rpt 0 0) (rpt 10 0)
     = euclid (rpt 0 0) (rpt 10 0) - Point.error (rpt 0 0).
Proof.
  assert (H : Point.distance_to (rpt 0 0) (rpt 10 0) <> 0).
  { rewrite distance_axis. solve_R. }
  split; [exact H|].
  exact (proj1 (proj2 (@distance_is_biased_euclid (rpt 0 0) (rpt 10 0) (rpt 14 0) H))).
Defined.

(** The post-loop test on the segment from (0, 0) to (10, 0) and the point
    (5, 3), which is 3 above the middle of the segment: the parameter is
    50/81, not 1/2, because the code divides by the square of the biased
    length 9, and the answer is the plain distance to (500/81, 0). *)
Lemma point_to_line_off_axis :
  GreedySolver._point_to_line_distance (rpt 5 3) (rpt 0 0) (rpt 10 0)
  = R_sqrt.sqrt ((95 / 81) * (95 / 81) + 3 * 3).
Proof.
  unfold GreedySolver._point_to_line_distance.
  rewrite distance_axis. unfold_num.
  replace (Rabs (0 - 10) - 1) with 9
    by (unfold Rabs; destruct (Rcase_abs _); lra).
  rewrite (proj2 (Reqb_false_iff 9 0)) by lra.
  replace (((5 - 0) * (10 - 0) + (3 - 0) * (0 - 0)) / (9 * 9)) with (50 / 81) by field.
  rewrite clamp01_mid by lra.
  f_equal. field.
Qed.

Lemma segment_distance_off_axis :
  Point.distance_point_to_segment (rpt 5 3) (rpt 0 0) (rpt 10 0) = 2.
Proof.
  unfold Point.distance_point_to_segment. unfold_num.
  rewrite (proj2 (Reqb_false_iff (10 - 0) (0 - 0))) by lra. cbn [andb].
  replace (((5 - 0) * (10 - 0) + (3 - 0) * (0 - 0))
           / ((10 - 0) * (10 - 0) + (0 - 0) * (0 - 0))) with (1 / 2) by field.
  rewrite clamp01_mid by lra.
  apply distance_value; cbn [Point.x Point.y]; lra.
Qed.

(** C5: the code breaks the claim.  First input: on this validated map the
    greedy solver leaves its loop with the object at (14, 0) unsurveyed and
    tests it against the final segment from (0, 0) to (10, 0); the test
    answers the plain distance 4, above the radius 3, and the object stays
    unsurveyed, while its biased distance to that segment is 3 and
    [get_surveyed_objects] counts it as surveyed on the same route.  Second
    input: for the point (5, 3) above the middle of that segment the test
    answers more than 3, the plain distance to (500/81, 0), where the
    biased distance to the segment is 2.  The float instance, which computes
    as the Python code does, agrees on both. *)
Theorem post_loop_test_is_not_the_biased_distance :
  Map.validate map_c5 = true
  /\ GreedySolver.solve 1 map_c5 = Some ([rpt 0 0; rpt 10 0], [], 9)
  /\ GreedySolver._point_to_line_distance (rpt 14 0) (rpt 0 0) (rpt 10 0) = 4
  /\ Point.distance_point_to_segment (rpt 14 0) (rpt 0 0) (rpt 10 0) = 3
  /\ Solver.get_surveyed_objects map_c5 [] = [rpt 14 0]
  /\ GreedySolver.solve 1 fmap_c5 = Some ([fpt 0 0; fpt 10 0], [], 9%float)
  /\ Solver.get_surveyed_objects fmap_c5 [] = [fpt 14 0]
  /\ 3 < GreedySolver._point_to_line_distance (rpt 5 3) (rpt 0 0) (rpt 10 0)
  /\ Point.distance_point_to_segment (rpt 5 3) (rpt 0 0) (rpt 10 0) = 2
  /\ PrimFloat.ltb 3 (GreedySolver._point_to_line_distance (fpt 5 3) (fpt 0 0) (fpt 10 0))
     = true
  /\ Point.distance_point_to_segment (fpt 5 3) (fpt 0 0) (fpt 10 0) = 2%float.
Proof.
  split; [exact validate_map_c5|].
  split; [exact greedy_c5|].
  split; [exact point_to_line_c5|].
  split; [exact segment_distance_c5|].
  split; [exact surveyed_c5|].
  split; [vm_compute; reflexivity|].
  split; [vm_compute; reflexivity|].
  split.
  { rewrite point_to_line_off_axis.
    rewrite <- (sqrt_square 3) at 1 by lra.
    apply sqrt_lt_1; lra. }
  split; [exact segment_distance_off_axis|].
  split; vm_compute; reflexivity.
Qed.

(** ** The geometric step can lengthen a route *)

Lemma project_c6_first :
  HeuristicSolver._project_point_on_segment (rpt 7 24) (rpt 0 0) (rpt 14 0)
  = rpt 7 0.
Proof.
  unfold HeuristicSolver._project_point_on_segment. cbn [Point.x Point.y]. unfold_num.
  replace (Reqb ((14 - 0) * (14 - 0) + (0 - 0) * (0 - 0)) 0) with false
    by (symmetry; reflect_R; lra).
  replace (((7 - 0) * (14 - 0) + (24 - 0) * (0 - 0))
           / ((14 - 0) * (14 - 0) + (0 - 0) * (0 - 0))) with (1/2) by lra.
  rewrite clamp01_mid by lra.
  f_equal; lra.
Qed.

Lemma optimize_c6_first :
  HeuristicSolver._optimize_point_position map_c6_step (rpt 7 24) (rpt 0 0) (rpt 14 0)
  = rpt 7 0.
Proof.
  unfold HeuristicSolver._optimize_point_position.
  rewrite project_c6_first. cbn [Point.x Point.y map_c6_step Map.survey_radius]. unfold_num.
  rewrite (@sqrt_value _ 24) by lra.
  replace (Reqb 24 0) with false by (symmetry; reflect_R; lra).
  replace (Rleb 24 24) with true by (symmetry; reflect_R; lra).
  reflexivity.
Qed.

Lemma project_c6_second :
  HeuristicSolver._project_point_on_segment (rpt 7 24) (rpt 7 24) (rpt 17 0)
  = rpt 7 24.
Proof.
  unfold HeuristicSolver._project_point_on_segment. cbn [Point.x Point.y]. unfold_num.
  replace (Reqb ((17 - 7) * (17 - 7) + (0 - 24) * (0 - 24)) 0) with false
    by (symmetry; reflect_R; lra).
  rewrite clamp01_low by lra.
  f_equal; lra.
Qed.

Lemma optimize_c6_second :
  HeuristicSolver._optimize_point_position map_c6_step (rpt 7 24) (rpt 7 24) (rpt 17 0)
  = rpt 7 24.
Proof.
  unfold HeuristicSolver._optimize_point_position.
  rewrite project_c6_second. cbn [Point.x Point.y]. unfold_num.
  rewrite (@sqrt_value _ 0) by lra.
  rewrite Reqb_refl. reflexivity.
Qed.

Lemma d_c6_start_first : Point.distance_to (rpt 0 0) (rpt 7 24) = 24.
Proof. apply distance_value; cbn [Point.x Point.y]; lra. Qed.
Lemma d_c6_first_second : Point.distance_to (rpt 7 24) (rpt 14 0) = 24.
Proof. apply distance_value; cbn [Point.x Point.y]; lra. Qed.
Lemma d_c6_second_first : Point.distance_to (rpt 14 0) (rpt 7 24) = 24.
Proof. apply distance_value; cbn [Point.x Point.y]; lra. Qed.
Lemma d_c6_second_end : Point.distance_to (rpt 14 0) (rpt 17 0) = 2.
Proof. apply distance_value; cbn [Point.x Point.y]; lra. Qed.
Lemma d_c6_first_end : Point.distance_to (rpt 7 24) (rpt 17 0) = 25.
Proof. apply distance_value; cbn [Point.x Point.y]; lra. Qed.
Lemma d_c6_start_foot : Point.distance_to (rpt 0 0) (rpt 7 0) = 6.
Proof. apply distance_value; cbn [Point.x Point.y]; lra. Qed.
Lemma d_c6_foot_second : Point.distance_to (rpt 7 0) (rpt 14 0) = 6.
Proof. apply distance_value; cbn [Point.x Point.y]; lra. Qed.
Lemma d_c6_foot_first : Point.distance_to (rpt 7 0) (rpt 7 24) = 23.
Proof. apply distance_value; cbn [Point.x Point.y]; lra. Qed.

Lemma geometric_c6 :
  HeuristicSolver._geometric_optimization map_c6_step route_c6_step
  = [rpt 0 0; rpt 7 0; rpt 7 24; rpt 17 0].
Proof.
  unfold HeuristicSolver._geometric_optimization, route_c6_step.
  cbn [length Nat.sub range seq fold_left].
  unfold HeuristicSolver.geometric_step at 2.
  cbn [nth_error Nat.sub Nat.add map_c6_step Map.objects Map.survey_radius find].
  rewrite distance_to_same. unfold_num.
  replace (Rleb (-1) 24) with true by (symmetry; reflect_R; lra).
  fold map_c6_step. rewrite optimize_c6_first.
  rewrite d_c6_start_first, d_c6_first_second, d_c6_start_foot, d_c6_foot_second.
  replace (Rltb (6 + 6) (24 + 24)) with true by (symmetry; reflect_R; lra).
  cbn [set_nth].
  unfold HeuristicSolver.geometric_step.
  cbn [nth_error Nat.sub Nat.add map_c6_step Map.objects Map.survey_radius find].
  rewrite d_c6_second_first. unfold_num.
  replace (Rleb 24 24) with true by (symmetry; reflect_R; lra).
  fold map_c6_step. rewrite optimize_c6_second.
  rewrite d_c6_first_second, d_c6_second_end, distance_to_same, d_c6_first_end.
  replace (Rltb (-1 + 25) (24 + 2)) with true by (symmetry; reflect_R; lra).
  reflexivity.
Qed.

Lemma geometric_c6_lengthens :
  Solver.calculate_route_distance route_c6_step = 50
  /\ Solver.calculate_route_distance
       (HeuristicSolver._geometric_optimization map_c6_step route_c6_step) = 54.
Proof.
  rewrite geometric_c6. unfold route_c6_step, Solver.calculate_route_distance.
  cbn [length Nat.ltb Nat.leb Solver.segments fold_left fst snd].
  rewrite d_c6_start_first, d_c6_first_second, d_c6_second_end,
    d_c6_start_foot, d_c6_foot_first, d_c6_first_end.
  unfold_num. split; lra.
Qed.

(** C6: the code breaks the claim.

    On the first map the run ends by exhausting the fifty iterations.  The
    first working route is within the budget; 2-opt leaves it as it is; the
    geometric step returns a longer route; the working route of the second
    iteration is longer than that of the first; and the route returned
    exceeds the budget.  This is the code run on floats.

    On the second map all distances are rational.  2-opt hands the route
    (0,0), (7,24), (14,0), (17,0) of length 50 to the geometric step, which
    judges each replacement against the neighbours in the unmodified route
    and returns (0,0), (7,0), (7,24), (17,0) of length 54: over the reals
    and on floats alike. *)
Theorem heuristic_iteration_lengthens_route :
  (exists route first second rest,
     HeuristicSolver.run 10 fmap_c6_run
     = Some (route, HeuristicSolver.Exhausted, first :: second :: rest)
     /\ length (first :: second :: rest) = HeuristicSolver.max_iterations
     /\ (Solver.calculate_route_distance first
         <=? Map.max_distance fmap_c6_run)%num = true
     /\ HeuristicSolver._local_search_2opt 10 first = Some first
     /\ (Solver.calculate_route_distance first
         <? Solver.calculate_route_distance
              (HeuristicSolver._geometric_optimization fmap_c6_run first))%num = true
     /\ (Solver.calculate_route_distance first
         <? Solver.calculate_route_distance second)%num = true
     /\ (Map.max_distance fmap_c6_run
         <? Solver.calculate_route_distance route)%num = true)
  /\ Map.validate fmap_c6_run = true
  /\ Solver.calculate_route_distance route_c6_step = 50
  /\ Solver.calculate_route_distance
       (HeuristicSolver._geometric_optimization map_c6_step route_c6_step) = 54
  /\ Map.validate fmap_c6_step = true
  /\ bind (HeuristicSolver._greedy_initial_route 10 fmap_c6_step)
          (HeuristicSolver._local_search_2opt 10) = Some froute_c6_step
  /\ Solver.calculate_route_distance froute_c6_step = 50%float
  /\ Solver.calculate_route_distance
       (HeuristicSolver._geometric_optimization fmap_c6_step froute_c6_step)
     = 54%float.
Proof.
  split.
  { eexists _, _, _, _.
    split; [vm_compute; reflexivity|].
    repeat split; vm_compute; reflexivity. }
  split; [vm_compute; reflexivity|].
  split; [apply geometric_c6_lengthens|].
  split; [apply geometric_c6_lengthens|].
  repeat split; vm_compute; reflexivity.
Qed.

(** * Further properties of the code *)

(** ** Saving and loading points and maps *)

Section DictRoundTrip.
Context {F : Type}.

Lemma from_dict_to_dict (p : Point.t F) :
  Point.from_dict (Point.to_dict p) = ret p.
Proof. destruct p as [px py pname]. reflexivity. Qed.

Lemma add_objects_to_dict (objs : list (Point.t F)) :
  forall m : Map.t F,
    Map.add_objects m (map Point.to_dict objs)
    = ret (Map.make (Map.start_point m) (Map.end_point m) (Map.objects m ++ objs)
                    (Map.max_distance m) (Map.survey_radius m)).
Proof.
  induction objs as [|p objs IH]; intros m.
  - cbn. rewrite app_nil_r. destruct m; reflexivity.
  - cbn [map Map.add_objects]. rewrite from_dict_to_dict. cbn [and_then ret].
    rewrite IH. unfold Map.add_object. cbn [Map.start_point Map.end_point
      Map.objects Map.max_distance Map.survey_radius].
    rewrite <- app_assoc. reflexivity.
Qed.

(** X1: a point written with [to_dict] is read back by [from_dict] as the
    same point, name included; a dict that has no [name] key is read as a
    point with the empty name. *)
Theorem point_dict_round_trip (p : Point.t F) (vx vy : F) :
  Point.from_dict (Point.to_dict p) = ret p
  /\ Point.from_dict (JDict [("x"%string, JNum vx); ("y"%string, JNum vy)])
     = ret (Point.make vx vy "").
Proof. split; [apply from_dict_to_dict | reflexivity]. Qed.

(** X2: a map written with [to_dict] is read back by [from_dict] as the same
    map: both end points, the budget, the radius, and the objects in the
    order they were added. *)
Theorem map_dict_round_trip (m : Map.t F) :
  Map.from_dict (Map.to_dict m) = ret m.
Proof.
  destruct m as [s e objs l r]. unfold Map.from_dict, Map.to_dict.
  cbn [Json.getitem Json.lookup String.eqb Ascii.eqb Bool.eqb and_then ret
       Map.start_point Map.end_point Map.objects Map.max_distance
       Map.survey_radius Json.as_number Json.as_list].
  rewrite !from_dict_to_dict. cbn [and_then ret].
  rewrite add_objects_to_dict. reflexivity.
Qed.

(** X3: a dict with a key missing is refused with the [KeyError] of the
    first key the code reads and does not find: [x] before [y] for a point,
    [start_point] first for a map, and [objects] last, after everything else
    has been read, so a map without an object list is not read as an empty
    map. *)
Theorem from_dict_missing_key (d : list (string * json F)) (vx l r : F)
    (s e : Point.t F)
    (Hx : Json.lookup "x" d = None) (Hy : Json.lookup "y" d = None)
    (Hs : Json.lookup "start_point" d = None)
    (Ho : Json.lookup "objects" d = None) :
  Point.from_dict (JDict d) = raise (KeyError "x")
  /\ Point.from_dict (JDict (("x"%string, JNum vx) :: d)) = raise (KeyError "y")
  /\ Map.from_dict (JDict d) = raise (KeyError "start_point")
  /\ Map.from_dict
       (JDict (("start_point"%string, Point.to_dict s)
               :: ("end_point"%string, Point.to_dict e)
               :: ("max_distance"%string, JNum l)
               :: ("survey_radius"%string, JNum r) :: d))
     = raise (KeyError "objects").
Proof.
  repeat split.
  - unfold Point.from_dict, Json.getitem. rewrite Hx. reflexivity.
  - unfold Point.from_dict, Json.getitem.
    cbn [Json.lookup String.eqb Ascii.eqb Bool.eqb]. rewrite Hy. reflexivity.
  - unfold Map.from_dict, Json.getitem. rewrite Hs. reflexivity.
  - unfold Map.from_dict, Json.getitem.
    cbn [Json.lookup String.eqb Ascii.eqb Bool.eqb]. rewrite Ho.
    cbn [and_then ret].
    rewrite !from_dict_to_dict. reflexivity.
Qed.

End DictRoundTrip.

Lemma from_dict_missing_key_witness :
  Point.from_dict (JDict [("name"%string, @JStr R "a")]) = raise (KeyError "x")
  /\ Map.from_dict
       (JDict [("start_point"%string, Point.to_dict (rpt 0 0));
               ("end_point"%string, Point.to_dict (rpt 10 0));
               ("max_distance"%string, JNum 20);
               ("survey_radius"%string, JNum 2);
               ("name"%string, JStr "a")])
     = raise (KeyError "objects").
Proof.
  pose proof (@from_dict_missing_key R [("name"%string, JStr "a")] 0 20 2
                (rpt 0 0) (rpt 10 0) eq_refl eq_refl eq_refl eq_refl) as H.
  split; [exact (proj1 H) | exact (proj2 (proj2 (proj2 H)))].
Defined.

(** ** The nearest point of a segment *)

Lemma clamp01_cases (v : R) :
  (v <= 0 /\ Point.clamp01 v = 0)
  \/ (0 < v < 1 /\ Point.clamp01 v = v)
  \/ (1 <= v /\ Point.clamp01 v = 1).
Proof.
  destruct (Rle_dec v 0) as [H0|H0]; [left; split; [lra | apply clamp01_low; lra]|].
  destruct (Rlt_dec v 1) as [H1|H1].
  - right; left. split; [lra | apply clamp01_mid; lra].
  - right; right. split; [lra | apply clamp01_high; lra].
Qed.

Lemma clamp01_range (v : R) : 0 <= Point.clamp01 v <= 1.
Proof.
  destruct (clamp01_cases v) as [[H ->] | [[H ->] | [H ->]]]; lra.
Qed.

(** Among the points [a + t d] with [t] between 0 and 1, the one at the
    clamped projection parameter is a nearest one to [p]. *)
Lemma clamped_parameter_is_nearest (px py ax ay dx dy t : R) :
  dx * dx + dy * dy <> 0 -> 0 <= t <= 1 ->
  let tc := Point.clamp01 (((px - ax) * dx + (py - ay) * dy) / (dx * dx + dy * dy)) in
  (px - (ax + tc * dx)) * (px - (ax + tc * dx))
  + (py - (ay + tc * dy)) * (py - (ay + tc * dy))
  <= (px - (ax + t * dx)) * (px - (ax + t * dx))
     + (py - (ay + t * dy)) * (py - (ay + t * dy)).
Proof.
  intros HD Ht.
  set (N := (px - ax) * dx + (py - ay) * dy).
  set (D2 := dx * dx + dy * dy) in *.
  assert (HD2 : 0 < D2) by (unfold D2 in *; nra).
  set (ts := N / D2).
  assert (HN : N = ts * D2) by (unfold ts; field; lra).
  intros tc. fold ts in tc.
  assert (Hdiff : forall u,
            (px - (ax + u * dx)) * (px - (ax + u * dx))
            + (py - (ay + u * dy)) * (py - (ay + u * dy))
            = (px - ax) * (px - ax) + (py - ay) * (py - ay)
              - D2 * (2 * u * ts - u * u)).
  { intros u. replace (D2 * (2 * u * ts - u * u))
      with (2 * u * (ts * D2) - u * u * D2) by ring.
    rewrite <- HN. unfold N, D2. ring. }
  rewrite (Hdiff tc), (Hdiff t).
  assert (Hgoal : 2 * t * ts - t * t <= 2 * tc * ts - tc * tc).
  { unfold tc. clearbody ts. clear HN Hdiff tc.
    destruct (clamp01_cases ts) as [[H ->] | [[H ->] | [H ->]]].
    - assert (0 <= t * (- ts)) by (apply Rmult_le_pos; lra).
      pose proof (Rle_0_sqr t) as Hsq. unfold Rsqr in Hsq. lra.
    - pose proof (Rle_0_sqr (t - ts)) as Hsq. unfold Rsqr in Hsq. lra.
    - assert (0 <= (1 - t) * (2 * ts - 1 - t)) by (apply Rmult_le_pos; lra). lra. }
  assert (0 <= D2 * ((2 * tc * ts - tc * tc) - (2 * t * ts - t * t)))
    by (apply Rmult_le_pos; lra).
  lra.
Qed.

Lemma distance_to_le (p q q' : Point.t R) :
  (Point.x p - Point.x q) * (Point.x p - Point.x q)
  + (Point.y p - Point.y q) * (Point.y p - Point.y q)
  <= (Point.x p - Point.x q') * (Point.x p - Point.x q')
     + (Point.y p - Point.y q') * (Point.y p - Point.y q') ->
  Point.distance_to p q <= Point.distance_to p q'.
Proof.
  intros H. rewrite !distance_to_unfold.
  apply Rplus_le_compat_r. apply sqrt_le_1; [apply sum_squares_nonneg ..| exact H].
Qed.

Lemma sum_squares_zero (u v : R) : u * u + v * v = 0 -> u = 0 /\ v = 0.
Proof. intros H. apply Rplus_sqr_eq_0. exact H. Qed.

Lemma degenerate_iff (dx dy : R) :
  (Reqb dx dy && Reqb dy 0 = true) <-> dx * dx + dy * dy = 0.
Proof.
  rewrite andb_true_iff, !Reqb_true_iff. split.
  - intros [-> ->]. ring.
  - intros H. apply sum_squares_zero in H. destruct H as [-> ->]. split; reflexivity.
Qed.

Lemma segment_distance_le_any (p a b : Point.t R) (t : R) (n : string) :
  0 <= t <= 1 ->
  Point.distance_point_to_segment p a b
  <= Point.distance_to p
       (Point.make (Point.x a + t * (Point.x b - Point.x a))
                   (Point.y a + t * (Point.y b - Point.y a)) n).
Proof.
  intros Ht. unfold Point.distance_point_to_segment. unfold_num.
  destruct (Reqb (Point.x b - Point.x a) (Point.y b - Point.y a)
            && Reqb (Point.y b - Point.y a) 0) eqn:Hdeg.
  - apply degenerate_iff, sum_squares_zero in Hdeg. destruct Hdeg as [Hx Hy].
    apply distance_to_le. cbn [Point.x Point.y].
    rewrite Hx, Hy, !Rmult_0_r, !Rplus_0_r. lra.
  - apply distance_to_le. cbn [Point.x Point.y].
    apply clamped_parameter_is_nearest; [|exact Ht].
    intros H0. apply degenerate_iff in H0. congruence.
Qed.

Lemma segment_distance_le_start (p a b : Point.t R) :
  Point.distance_point_to_segment p a b <= Point.distance_to p a.
Proof.
  pose proof (@segment_distance_le_any p a b 0 "") as H.
  etransitivity; [apply H; lra|].
  apply distance_to_le. cbn [Point.x Point.y].
  replace (Point.x a + 0 * (Point.x b - Point.x a)) with (Point.x a) by ring.
  replace (Point.y a + 0 * (Point.y b - Point.y a)) with (Point.y a) by ring.
  lra.
Qed.

Lemma segment_distance_le_end (p a b : Point.t R) :
  Point.distance_point_to_segment p a b <= Point.distance_to p b.
Proof.
  pose proof (@segment_distance_le_any p a b 1 "") as H.
  etransitivity; [apply H; lra|].
  apply distance_to_le. cbn [Point.x Point.y].
  replace (Point.x a + 1 * (Point.x b - Point.x a)) with (Point.x b) by ring.
  replace (Point.y a + 1 * (Point.y b - Point.y a)) with (Point.y b) by ring.
  lra.
Qed.

(** X4: the segment distance of a point is at least -1 and at most its
    distance to any point of the segment; in particular it never exceeds
    the distance to either end. *)
Theorem segment_distance_is_least (p a b : Point.t R) :
  -1 <= Point.distance_point_to_segment p a b
  /\ Point.distance_point_to_segment p a b <= Point.distance_to p a
  /\ Point.distance_point_to_segment p a b <= Point.distance_to p b
  /\ forall t n, 0 <= t <= 1 ->
       Point.distance_point_to_segment p a b
       <= Point.distance_to p
            (Point.make (Point.x a + t * (Point.x b - Point.x a))
                        (Point.y a + t * (Point.y b - Point.y a)) n).
Proof.
  split; [|split; [|split]].
  - unfold Point.distance_point_to_segment. destruct (_ && _); apply distance_to_lower.
  - apply segment_distance_le_start.
  - apply segment_distance_le_end.
  - intros t n Ht. apply segment_distance_le_any; exact Ht.
Qed.




Lemma euclid_sym (a b : Point.t R) : euclid a b = euclid b a.
Proof. unfold euclid. f_equal. ring. Qed.

Lemma euclid_value (a b : Point.t R) (c : R) :
  0 <= c ->
  (Point.x b - Point.x a) * (Point.x b - Point.x a)
  + (Point.y b - Point.y a) * (Point.y b - Point.y a) = c * c ->
  euclid a b = c.
Proof.
  intros Hc H. unfold euclid. apply sqrt_value; [exact Hc|]. rewrite <- H. ring.
Qed.

Lemma optimized_position_radius (m : Map.t R) (obj prev next : Point.t R)
    (Hradius : 0 <= Map.survey_radius m) :
  euclid obj (HeuristicSolver._optimize_point_position m obj prev next)
  <= Map.survey_radius m.
Proof.
  unfold HeuristicSolver._optimize_point_position. unfold_num.
  set (q := HeuristicSolver._project_point_on_segment obj prev next).
  set (ux := Point.x q - Point.x obj). set (uy := Point.y q - Point.y obj).
  set (d := R_sqrt.sqrt (ux * ux + uy * uy)).
  set (r := Map.survey_radius m) in *.
  assert (Hd : 0 <= d) by apply sqrt_pos.
  assert (Hdd : d * d = ux * ux + uy * uy)
    by (apply sqrt_sqrt; apply sum_squares_nonneg).
  destruct (Reqb d 0) eqn:H0.
  - rewrite euclid_self. exact Hradius.
  - destruct (Rleb d r) eqn:Hle; reflect_R.
    + unfold euclid. replace ((Point.x q - Point.x obj) ^ 2 + (Point.y q - Point.y obj) ^ 2)
        with (ux * ux + uy * uy) by (unfold ux, uy; ring).
      fold d. exact Hle.
    + unfold euclid. cbn [Point.x Point.y].
      rewrite (@sqrt_value _ r); [lra | exact Hradius |].
      replace ((Point.x obj + ux / d * r - Point.x obj) ^ 2
               + (Point.y obj + uy / d * r - Point.y obj) ^ 2)
        with ((ux * ux + uy * uy) / (d * d) * (r * r)) by (field; lra).
      rewrite <- Hdd. field. lra.
Qed.

(** X6: for a radius that is not negative, the position the heuristic moves
    a waypoint to is within the survey radius of the object it was computed
    for, in plain Euclidean distance: it is the object itself when the
    projection falls on it, the projection when that is within the radius,
    and otherwise a point at distance exactly the radius. *)
Theorem optimized_position_within_radius (m : Map.t R) (obj prev next : Point.t R)
    (Hradius : 0 <= Map.survey_radius m) :
  let projection := HeuristicSolver._project_point_on_segment obj prev next in
  let position := HeuristicSolver._optimize_point_position m obj prev next in
  euclid obj position <= Map.survey_radius m
  /\ (euclid obj projection = 0 -> position = obj)
  /\ (0 < euclid obj projection <= Map.survey_radius m -> position = projection)
  /\ (Map.survey_radius m < euclid obj projection ->
      euclid obj position = Map.survey_radius m).
Proof.
  cbv zeta. split; [apply optimized_position_radius; exact Hradius|].
  unfold HeuristicSolver._optimize_point_position. unfold_num.
  set (q := HeuristicSolver._project_point_on_segment obj prev next).
  set (ux := Point.x q - Point.x obj). set (uy := Point.y q - Point.y obj).
  set (r := Map.survey_radius m) in *.
  assert (Hq : euclid obj q = R_sqrt.sqrt (ux * ux + uy * uy))
    by (unfold euclid, ux, uy; f_equal; ring).
  rewrite Hq. set (d := R_sqrt.sqrt (ux * ux + uy * uy)).
  assert (Hdd : d * d = ux * ux + uy * uy)
    by (apply sqrt_sqrt; apply sum_squares_nonneg).
  destruct (Reqb d 0) eqn:H0; reflect_R.
  { split; [reflexivity|]. split; [lra|]. rewrite euclid_self. lra. }
  destruct (Rleb d r) eqn:Hle; reflect_R.
  { split; [contradiction|]. split; [reflexivity | lra]. }
  split; [contradiction|]. split; [lra|]. intros _.
  assert (Hd : 0 <= d) by apply sqrt_pos.
  apply euclid_value; [exact Hradius|]. cbn [Point.x Point.y].
  replace ((Point.x obj + ux / d * r - Point.x obj) * (Point.x obj + ux / d * r - Point.x obj)
           + (Point.y obj + uy / d * r - Point.y obj) * (Point.y obj + uy / d * r - Point.y obj))
    with ((ux * ux + uy * uy) / (d * d) * (r * r)) by (field; lra).
  rewrite <- Hdd. field. lra.
Qed.

Lemma optimized_position_within_radius_witness :
  0 <= Map.survey_radius map_c5
  /\ euclid (rpt 14 0)
       (HeuristicSolver._optimize_point_position map_c5 (rpt 14 0) (rpt 0 0) (rpt 10 0))
     <= Map.survey_radius map_c5.
Proof.
  assert (H : 0 <= Map.survey_radius map_c5) by (cbn; lra).
  split; [exact H|].
  exact (proj1 (optimized_position_within_radius map_c5 (rpt 14 0) (rpt 0 0) (rpt 10 0) H)).
Defined.

(** ** The nearest unsurveyed object *)

Lemma nearest_fold_min (cur : Point.t R) (u : list (Point.t R)) :
  forall (seen : list (Point.t R)) (acc : option R * option (Point.t R)),
    match acc with
    | (Some d, Some o) =>
        d = Point.distance_to cur o /\ In o seen
        /\ forall p, In p seen -> d <= Point.distance_to cur p
    | (None, None) => seen = []
    | _ => False
    end ->
    match fold_left (GreedySolver.nearest_step cur) u acc with
    | (Some d, Some o) =>
        d = Point.distance_to cur o /\ In o (seen ++ u)
        /\ forall p, In p (seen ++ u) -> d <= Point.distance_to cur p
    | (None, None) => seen ++ u = []
    | _ => False
    end.
Proof.
  induction u as [|q u IH]; intros seen acc Hacc.
  - cbn [fold_left]. rewrite app_nil_r. exact Hacc.
  - cbn [fold_left].
    replace (seen ++ q :: u) with ((seen ++ [q]) ++ u)
      by (rewrite <- app_assoc; reflexivity).
    apply IH. unfold GreedySolver.nearest_step.
    destruct acc as [[d|] [o|]]; cbn [fst]; try contradiction; unfold_num.
    + destruct Hacc as (Hd & Ho & Hmin).
      destruct (Rltb (Point.distance_to cur q) d) eqn:Hlt; reflect_R.
      * split; [reflexivity|]. split; [apply in_or_app; right; left; reflexivity|].
        intros p Hp. apply in_app_or in Hp. destruct Hp as [Hp | [<- | []]]; [|lra].
        specialize (Hmin p Hp). lra.
      * split; [exact Hd|]. split; [apply in_or_app; left; exact Ho|].
        intros p Hp. apply in_app_or in Hp. destruct Hp as [Hp | [<- | []]];
          [apply Hmin; exact Hp | exact Hlt].
    + subst seen. split; [reflexivity|]. split; [left; reflexivity|].
      intros p [<- | []]. lra.
Qed.

(** X7: the scan of the greedy solver finds nothing only in an empty set;
    otherwise it answers a member of the set that no other member is
    nearer to the current position than. *)
Theorem find_nearest_is_nearest (cur : Point.t R) (u : list (Point.t R)) :
  match GreedySolver.find_nearest cur u with
  | None => u = []
  | Some o =>
      In o u /\ forall p, In p u -> Point.distance_to cur o <= Point.distance_to cur p
  end.
Proof.
  unfold GreedySolver.find_nearest.
  pose proof (@nearest_fold_min cur u [] (None, None) eq_refl) as H.
  cbn [app] in H.
  destruct (fold_left _ u _) as [[d|] [o|]]; cbn [snd]; try contradiction.
  - destruct H as (-> & Ho & Hmin). split; assumption.
  - exact H.
Qed.

(** ** 2-opt ends in a local optimum *)

Lemma find_first_None {A B : Type} (f : A -> option B) (l : list A) :
  find_first f l = None -> forall a, In a l -> f a = None.
Proof.
  induction l as [|x l IH]; cbn [find_first]; [intros _ a []|].
  destruct (f x) eqn:Hx; [discriminate|].
  intros H a [<- | Ha]; [exact Hx | apply IH; assumption].
Qed.

Lemma scan_2opt_None (route : list (Point.t R)) (best : R) :
  HeuristicSolver.scan_2opt route best = None ->
  forall i j, (1 <= i < j)%nat -> (j < length route - 1)%nat ->
    best <= Solver.calculate_route_distance (HeuristicSolver.reverse_segment route i j).
Proof.
  unfold HeuristicSolver.scan_2opt. intros H i j Hij Hj.
  pose proof (@find_first_None _ _ _ _ H i) as Hi.
  assert (Hin : In i (range 1 (length route - 2))) by (apply range_In; lia).
  specialize (Hi Hin). cbv beta in Hi.
  pose proof (@find_first_None _ _ _ _ Hi j) as Hjn.
  assert (Hjin : In j (range (i + 1) (length route - 1))) by (apply range_In; lia).
  specialize (Hjn Hjin). cbv beta zeta in Hjn. unfold_num.
  destruct (Rltb _ _) eqn:Hlt; [discriminate|]. reflect_R. exact Hlt.
Qed.

Lemma improve_loop_optimum (route0 : list (Point.t R)) (B : R) :
  forall fuel route,
    Permutation route0 route ->
    Solver.calculate_route_distance route <= B ->
    (shorter_arrangements route0 (Solver.calculate_route_distance route) < fuel)%nat ->
    exists r,
      HeuristicSolver.improve_loop fuel route route
        (Solver.calculate_route_distance route) = Some r
      /\ Permutation route0 r
      /\ Solver.calculate_route_distance r <= B
      /\ HeuristicSolver.scan_2opt r (Solver.calculate_route_distance r) = None.
Proof.
  induction fuel as [|fuel IH]; intros route Hp HB Hfuel; [lia|].
  cbn [HeuristicSolver.improve_loop].
  destruct (HeuristicSolver.scan_2opt route _) as [nr|] eqn:Hscan.
  - pose proof (scan_2opt_sound _ _ Hscan) as (Hp' & _ & Hlt).
    assert (Hp0 : Permutation route0 nr) by (exact (Permutation_trans Hp Hp')).
    apply IH; [exact Hp0 | lra |].
    pose proof (shorter_arrangements_decreases Hp0 Hlt). lia.
  - exists route. auto.
Qed.

(** X8: given enough fuel, 2-opt returns a rearrangement of the route it
    was given that is no longer than it, and that no reversal of a stretch
    of interior points makes strictly shorter. *)
Theorem local_search_2opt_local_optimum (fuel : nat) (route : list (Point.t R))
    (Hfuel : (fact (length route) < fuel)%nat) :
  exists r,
    HeuristicSolver._local_search_2opt fuel route = Some r
    /\ Permutation route r
    /\ Solver.calculate_route_distance r <= Solver.calculate_route_distance route
    /\ forall i j, (1 <= i < j)%nat -> (j < length r - 1)%nat ->
         Solver.calculate_route_distance r
         <= Solver.calculate_route_distance (HeuristicSolver.reverse_segment r i j).
Proof.
  unfold HeuristicSolver._local_search_2opt.
  destruct (@improve_loop_optimum route (Solver.calculate_route_distance route)
              fuel route (Permutation_refl _) (Rle_refl _)) as (r & Hr & Hp & Hle & Hopt).
  { pose proof (shorter_arrangements_bound route
                  (Solver.calculate_route_distance route)). lia. }
  exists r. repeat split; try assumption.
  intros i j Hij Hj. exact (@scan_2opt_None _ _ Hopt i j Hij Hj).
Qed.

Lemma local_search_2opt_local_optimum_witness :
  exists r,
    HeuristicSolver._local_search_2opt 25
      [rpt 0 0; rpt 3 0; rpt 1 0; rpt 4 0] = Some r
    /\ Permutation [rpt 0 0; rpt 3 0; rpt 1 0; rpt 4 0] r
    /\ Solver.calculate_route_distance r
       <= Solver.calculate_route_distance [rpt 0 0; rpt 3 0; rpt 1 0; rpt 4 0]
    /\ forall i j, (1 <= i < j)%nat -> (j < length r - 1)%nat ->
         Solver.calculate_route_distance r
         <= Solver.calculate_route_distance (HeuristicSolver.reverse_segment r i j).
Proof.
  apply (@local_search_2opt_local_optimum 25 [rpt 0 0; rpt 3 0; rpt 1 0; rpt 4 0]).
  cbn. lia.
Defined.

(** ** Point removal takes the best single removal *)

Lemma remove_fold_best (route : list (Point.t R)) :
  forall (l done : list nat) (acc : list (Point.t R) * R),
    snd acc = Solver.calculate_route_distance (fst acc) ->
    (fst acc = route \/ exists i, In i done /\ fst acc = HeuristicSolver.drop_nth route i) ->
    snd acc <= Solver.calculate_route_distance route ->
    (forall i, In i done ->
       snd acc <= Solver.calculate_route_distance (HeuristicSolver.drop_nth route i)) ->
    let res := fold_left
                 (fun acc i =>
                    let temp_route := HeuristicSolver.drop_nth route i in
                    let temp_distance := Solver.calculate_route_distance temp_route in
                    if (temp_distance <? snd acc)%num then (temp_route, temp_distance)
                    else acc) l acc in
    (fst res = route
     \/ exists i, In i (done ++ l) /\ fst res = HeuristicSolver.drop_nth route i)
    /\ Solver.calculate_route_distance (fst res) <= Solver.calculate_route_distance route
    /\ forall i, In i (done ++ l) ->
         Solver.calculate_route_distance (fst res)
         <= Solver.calculate_route_distance (HeuristicSolver.drop_nth route i).
Proof.
  induction l as [|k l IH]; intros done acc Hsnd Hfst Hle Hmin.
  - cbn [fold_left]. rewrite app_nil_r. rewrite <- Hsnd. auto.
  - cbn [fold_left]. cbv zeta.
    replace (done ++ k :: l) with ((done ++ [k]) ++ l)
      by (rewrite <- app_assoc; reflexivity).
    unfold_num.
    destruct (Rltb (Solver.calculate_route_distance (HeuristicSolver.drop_nth route k))
                   (snd acc)) eqn:Hlt; reflect_R.
    + apply IH; cbn [fst snd].
      * reflexivity.
      * right. exists k. split; [apply in_or_app; right; left|]; reflexivity.
      * lra.
      * intros i Hi. apply in_app_or in Hi. destruct Hi as [Hi | [<- | []]]; [|lra].
        specialize (Hmin i Hi). lra.
    + apply IH.
      * exact Hsnd.
      * destruct Hfst as [Hf | (i & Hi & Hf)]; [left; exact Hf|].
        right. exists i. split; [apply in_or_app; left; exact Hi | exact Hf].
      * exact Hle.
      * intros i Hi. apply in_app_or in Hi. destruct Hi as [Hi | [<- | []]];
          [apply Hmin; exact Hi | exact Hlt].
Qed.

(** X9: from a route of at most three points, point removal answers the
    start and end point of the map, whatever the route holds.  From a
    longer one it answers the route itself or the route with one interior
    point taken out, and its answer is no longer than the route and no
    longer than the route with any one interior point taken out. *)
Theorem remove_farthest_point_is_best_removal (m : Map.t R) (route : list (Point.t R)) :
  let r := HeuristicSolver._remove_farthest_point m route in
  if (length route <=? 3)%nat then r = [Map.start_point m; Map.end_point m]
  else
    (r = route
     \/ exists i, (1 <= i < length route - 1)%nat /\ r = HeuristicSolver.drop_nth route i)
    /\ Solver.calculate_route_distance r <= Solver.calculate_route_distance route
    /\ forall i, (1 <= i < length route - 1)%nat ->
         Solver.calculate_route_distance r
         <= Solver.calculate_route_distance (HeuristicSolver.drop_nth route i).
Proof.
  cbv zeta. unfold HeuristicSolver._remove_farthest_point.
  destruct (length route <=? 3)%nat; [reflexivity|].
  pose proof (@remove_fold_best route (range 1 (length route - 1)) []
                (route, Solver.calculate_route_distance route)
                eq_refl (or_introl eq_refl) (Rle_refl _)) as H.
  cbn [app fst snd] in H. cbv zeta in H.
  destruct H as (Hshape & Hle & Hmin); [intros i []|].
  split; [|split].
  - destruct Hshape as [Hs | (i & Hi & Hs)]; [left; exact Hs|].
    right. exists i. split; [apply range_In in Hi; lia | exact Hs].
  - exact Hle.
  - intros i Hi. apply Hmin. apply range_In. lia.
Qed.

(** ** The initial route of the heuristic *)

Lemma min_by_least (key : Point.t R -> R) (l : list (Point.t R)) :
  forall best w, In w (best :: l) ->
    key (HeuristicSolver.min_by key best l) <= key w.
Proof.
  induction l as [|p l IH]; intros best w Hw; cbn [HeuristicSolver.min_by].
  - destruct Hw as [<- | []]. lra.
  - unfold_num. destruct (Rltb (key p) (key best)) eqn:Hlt; reflect_R.
    + destruct Hw as [<- | [<- | Hw]].
      * pose proof (IH p p (or_introl eq_refl)). lra.
      * apply IH. left; reflexivity.
      * apply IH. right; exact Hw.
    + destruct Hw as [<- | [<- | Hw]].
      * apply IH. left; reflexivity.
      * pose proof (IH best best (or_introl eq_refl)). lra.
      * apply IH. right; exact Hw.
Qed.

Lemma list_remove_perm (c : Point.t R) (l : list (Point.t R)) :
  In c l ->
  (forall p, In p l -> Point.__eq__ p c = true -> p = c) ->
  Permutation l (c :: HeuristicSolver.list_remove c l).
Proof.
  induction l as [|p l IH]; [contradiction|].
  intros Hin Hdist. cbn [HeuristicSolver.list_remove].
  destruct (Point.__eq__ p c) eqn:Heq.
  - rewrite (Hdist p (or_introl eq_refl) Heq). apply Permutation_refl.
  - destruct Hin as [-> | Hin]; [rewrite point_eq_refl in Heq; discriminate|].
    apply Permutation_trans with (p :: c :: HeuristicSolver.list_remove c l).
    + apply perm_skip. apply IH; [exact Hin|].
      intros q Hq. apply Hdist. right; exact Hq.
    + apply perm_swap.
Qed.

Lemma chain_nearest_first :
  forall (fuel : nat) (remaining route : list (Point.t R)) (cur : Point.t R),
    (length remaining <= fuel)%nat ->
    (forall p q, In p remaining -> In q remaining -> Point.__eq__ p q = true -> p = q) ->
    exists visits,
      HeuristicSolver.chain fuel route cur remaining = Some (route ++ visits)
      /\ Permutation remaining visits
      /\ nearest_first cur visits.
Proof.
  induction fuel as [|fuel IH]; intros remaining route cur Hfuel Hdist.
  - destruct remaining; [|cbn in Hfuel; lia].
    exists []. rewrite app_nil_r. cbn. auto.
  - destruct remaining as [|p l]; [exists []; rewrite app_nil_r; cbn; auto|].
    cbn [HeuristicSolver.chain].
    set (c := HeuristicSolver.min_by _ p l).
    pose proof (min_by_In (fun obj => Point.distance_to cur obj) l p) as Hc.
    fold c in Hc.
    pose proof (@list_remove_length c (p :: l) Hc) as Hlen.
    pose proof (@list_remove_perm c (p :: l) Hc
                  (fun q Hq Heq => Hdist q c Hq Hc Heq)) as Hperm.
    destruct (IH (HeuristicSolver.list_remove c (p :: l)) (route ++ [c]) c)
      as (visits & Hchain & Hp & Hnf).
    + cbn [length] in *; lia.
    + intros a b Ha Hb. apply Hdist.
      * apply (Permutation_in _ (Permutation_sym Hperm)). right; exact Ha.
      * apply (Permutation_in _ (Permutation_sym Hperm)). right; exact Hb.
    + exists (c :: visits). rewrite Hchain, <- app_assoc. cbn [app].
      split; [reflexivity|].
      assert (Hpv : Permutation (p :: l) (c :: visits))
        by (exact (Permutation_trans Hperm (perm_skip c Hp))).
      split; [exact Hpv|].
      cbn [nearest_first]. split; [|exact Hnf].
      intros w Hw.
      apply (@min_by_least (fun obj => Point.distance_to cur obj) l p w).
      apply (Permutation_in _ (Permutation_sym Hpv)). exact Hw.
Qed.

(** X10: when no two objects of the map are equal under [__eq__] without
    being the same point, the initial route is the start point, every object
    exactly once, and the end point; and each object on it is one of the
    nearest, from the point before it, among the objects not yet visited. *)
Theorem greedy_initial_route_visits_each_object (fuel : nat) (m : Map.t R)
    (Hfuel : (length (Map.objects m) <= fuel)%nat)
    (Hdistinct : forall p q, In p (Map.objects m) -> In q (Map.objects m) ->
                   Point.__eq__ p q = true -> p = q) :
  exists visits,
    HeuristicSolver._greedy_initial_route fuel m
    = Some (Map.start_point m :: visits ++ [Map.end_point m])
    /\ Permutation (Map.objects m) visits
    /\ nearest_first (Map.start_point m) visits.
Proof.
  unfold HeuristicSolver._greedy_initial_route.
  destruct (@chain_nearest_first fuel (Map.objects m) [Map.start_point m]
              (Map.start_point m) Hfuel Hdistinct) as (visits & -> & Hp & Hnf).
  exists visits. cbn [bind app]. auto.
Qed.

Lemma greedy_initial_route_visits_each_object_witness :
  exists visits,
    HeuristicSolver._greedy_initial_route 2
      (Map.make (rpt 0 0) (rpt 10 0) [rpt 5 0; rpt 2 0] 20 2)
    = Some (rpt 0 0 :: visits ++ [rpt 10 0])
    /\ Permutation [rpt 5 0; rpt 2 0] visits
    /\ nearest_first (rpt 0 0) visits.
Proof.
  apply (@greedy_initial_route_visits_each_object 2
           (Map.make (rpt 0 0) (rpt 10 0) [rpt 5 0; rpt 2 0] 20 2)).
  - cbn. lia.
  - cbn [Map.objects].
    intros p q [<- | [<- | []]] [<- | [<- | []]] H; try reflexivity;
      exfalso; apply point_eq_iff in H; cbn [Point.x Point.y] in H;
      destruct H as [Hx _]; unfold Rabs in Hx;
      destruct (Rcase_abs _) in Hx; lra.
Defined.

(** X11: two objects that are equal under [__eq__] are not both visited.
    When the second of them is the nearer to the start point, [min] chooses
    it and [remove] takes the first out of the list, so the initial route
    visits the second twice and the first never. *)
Theorem greedy_initial_route_repeats_near_duplicate
    (s e a b : Point.t R) (l r : R) (fuel : nat)
    (Hfuel : (2 <= fuel)%nat)
    (Heq : Point.__eq__ a b = true)
    (Hnear : Point.distance_to s b < Point.distance_to s a) :
  HeuristicSolver._greedy_initial_route fuel (Map.make s e [a; b] l r)
  = Some [s; b; b; e].
Proof.
  destruct fuel as [|[|fuel]]; [lia | lia |].
  unfold HeuristicSolver._greedy_initial_route. cbn [Map.objects Map.start_point Map.end_point].
  cbn [HeuristicSolver.chain HeuristicSolver.min_by]. unfold_num.
  rewrite (proj2 (Rltb_true_iff _ _) Hnear).
  cbn [HeuristicSolver.list_remove]. rewrite Heq.
  cbn [HeuristicSolver.chain HeuristicSolver.min_by HeuristicSolver.list_remove].
  rewrite point_eq_refl. destruct fuel; reflexivity.
Qed.

Lemma greedy_initial_route_repeats_near_duplicate_witness :
  HeuristicSolver._greedy_initial_route 2
    (Map.make (rpt 0 0) (rpt 10 0) [rpt 5 (1 / 200); rpt 5 0] 20 2)
  = Some [rpt 0 0; rpt 5 0; rpt 5 0; rpt 10 0].
Proof.
  apply (@greedy_initial_route_repeats_near_duplicate
           (rpt 0 0) (rpt 10 0) (rpt 5 (1 / 200)) (rpt 5 0) 20 2 2).
  - lia.
  - apply point_eq_iff. cbn [Point.x Point.y]. unfold Rabs.
    repeat match goal with |- context [Rcase_abs ?x] => destruct (Rcase_abs x) end; lra.
  - rewrite !distance_to_unfold. cbn [Point.x Point.y].
    apply Rplus_lt_compat_r. apply sqrt_lt_1; nra.
Defined.

(** ** What [is_valid_route] accepts *)

Lemma hd_error_rev_last {A : Type} (l : list A) (d : A) :
  l <> [] -> hd_error (rev l) = Some (last l d).
Proof.
  intros Hne. destruct (exists_last Hne) as (l' & a & ->).
  rewrite rev_app_distr, last_last. reflexivity.
Qed.

Lemma is_valid_route_well_formed (m : Map.t R) (route : list (Point.t R)) :
  well_formed_route m route ->
  Solver.calculate_route_distance route <= Map.max_distance m ->
  Solver.is_valid_route m route = true.
Proof.
  intros (Hhd & Hlast & Hlen) Hbudget. unfold Solver.is_valid_route.
  destruct (length route <? 2)%nat eqn:Hlt; [apply Nat.ltb_lt in Hlt; lia|].
  rewrite Hhd, (@hd_error_rev_last _ route (Map.start_point m))
    by (destruct route; [cbn in Hlen; lia | discriminate]).
  rewrite Hlast, !point_eq_refl. cbn [negb orb]. unfold_num. reflect_R. exact Hbudget.
Qed.

Lemma greedy_solve_returns (m : Map.t R) (fuel : nat)
    (unsurveyed route surveyed : list (Point.t R)) (total : R) :
  Map.validate m = true ->
  GreedySolver.solve_in_order fuel m unsurveyed = Some (route, surveyed, total) ->
  well_formed_route m route
  /\ total = Solver.calculate_route_distance route
  /\ Solver.calculate_route_distance route <= Map.max_distance m.
Proof.
  intros Hv Hrun. unfold GreedySolver.solve_in_order in Hrun.
  destruct (GreedySolver.while_loop fuel m _) as [s|] eqn:Hloop; [|discriminate].
  cbn [bind] in Hrun.
  pose proof (@greedy_finish m s
                (@greedy_inv_while m fuel _ _ (@greedy_inv_initial m unsurveyed Hv) Hloop))
    as Hfin.
  assert (Heq : GreedySolver.finish m s = (route, surveyed, total)).
  { set (f := GreedySolver.finish m s) in *. clearbody f. congruence. }
  rewrite Heq in Hfin. cbn [fst snd] in Hfin. exact Hfin.
Qed.

(** X12: whenever the greedy solver returns on a validated map, in whatever
    order it iterates the unsurveyed set, the route it returns passes
    [is_valid_route] and the total it reports is the length of that
    route. *)
Theorem greedy_answer_is_valid (m : Map.t R) (fuel : nat)
    (unsurveyed route surveyed : list (Point.t R)) (total : R)
    (Hvalid : Map.validate m = true)
    (Hrun : GreedySolver.solve_in_order fuel m unsurveyed
            = Some (route, surveyed, total)) :
  Solver.is_valid_route m route = true
  /\ total = Solver.calculate_route_distance route.
Proof.
  destruct (@greedy_solve_returns m fuel unsurveyed route surveyed total Hvalid Hrun)
    as (Hwf & Htotal & Hbudget).
  split; [apply is_valid_route_well_formed; assumption | exact Htotal].
Qed.

Lemma greedy_answer_is_valid_witness :
  Solver.is_valid_route (map_c8 3)
    [rpt 0 0; rpt (-3) 0; rpt (-13) 0; rpt 9 0; rpt 8 0] = true
  /\ 32 = Solver.calculate_route_distance
            [rpt 0 0; rpt (-3) 0; rpt (-13) 0; rpt 9 0; rpt 8 0].
Proof.
  assert (Hv : Map.validate (map_c8 3) = true) by (apply validate_map_c8; lra).
  exact (@greedy_answer_is_valid (map_c8 3) 4
           (PySet.of_list (Map.objects (map_c8 3)))
           [rpt 0 0; rpt (-3) 0; rpt (-13) 0; rpt 9 0; rpt 8 0]
           [rpt (-6) 0; rpt (-16) 0; rpt 12 0] 32 Hv greedy_c8_radius_3).
Defined.

(** ** How the heuristic leaves its loop *)

Lemma two_point_route (m : Map.t R) (r : list (Point.t R)) :
  well_formed_route m r -> (length r <= 2)%nat ->
  r = [Map.start_point m; Map.end_point m].
Proof.
  intros (Hhd & Hlast & Hlen) Hle.
  destruct r as [|a [|b [|c r]]]; cbn [length] in *; try lia.
  cbn in Hhd, Hlast. congruence.
Qed.

Lemma iteration_exit_spec (fuel : nat) (m : Map.t R) (route : list (Point.t R)) :
  well_formed_route m route ->
  (fact (length route) < fuel)%nat ->
  exists res,
    HeuristicSolver.iteration fuel m route = Some res
    /\ match res with
       | inl (HeuristicSolver.Feasible, r) =>
           well_formed_route m r /\ length r = length route
           /\ Solver.calculate_route_distance r <= Map.max_distance m
       | inl (HeuristicSolver.Collapsed, r) =>
           r = [Map.start_point m; Map.end_point m]
       | inl (HeuristicSolver.Exhausted, _) => False
       | inr r => well_formed_route m r /\ (length r <= length route)%nat
       end.
Proof.
  intros Hwf Hfuel. unfold HeuristicSolver.iteration.
  destruct (@local_search_2opt_spec fuel route Hfuel) as (r1 & -> & Hse1 & _).
  cbn [bind].
  pose proof (geometric_optimization_same_ends m r1) as Hse2.
  pose proof (@well_formed_same_ends m _ _ Hwf (same_ends_trans Hse1 Hse2)) as Hwf2.
  assert (Hlen2 : length (HeuristicSolver._geometric_optimization m r1) = length route).
  { destruct Hse1 as (_ & _ & L1). destruct Hse2 as (_ & _ & L2). lia. }
  unfold_num.
  destruct (Rleb _ _) eqn:Hle.
  { eexists; split; [reflexivity|]. reflect_R.
    split; [exact Hwf2 | split; [exact Hlen2 | exact Hle]]. }
  destruct (@remove_farthest_point_spec m _ Hwf2) as (Hwf3 & Hlen3).
  destruct (length _ <=? 2)%nat eqn:Hshort;
    (eexists; split; [reflexivity|]).
  - apply Nat.leb_le in Hshort. apply two_point_route; assumption.
  - split; [exact Hwf3 | lia].
Qed.

Lemma outer_loop_exit_spec (fuel : nat) (m : Map.t R) :
  forall (remaining : nat) (route : list (Point.t R)) history,
    well_formed_route m route ->
    (fact (length route) < fuel)%nat ->
    exists r e h,
      HeuristicSolver.outer_loop fuel remaining m route history = Some (r, e, h)
      /\ well_formed_route m r
      /\ (length r <= length route)%nat
      /\ (length h <= length history + remaining)%nat
      /\ match e with
         | HeuristicSolver.Feasible =>
             Solver.calculate_route_distance r <= Map.max_distance m
         | HeuristicSolver.Collapsed => r = [Map.start_point m; Map.end_point m]
         | HeuristicSolver.Exhausted => length h = (length history + remaining)%nat
         end.
Proof.
  induction remaining as [|k IH]; intros route history Hwf Hfuel.
  - cbn [HeuristicSolver.outer_loop]. exists route, HeuristicSolver.Exhausted, history.
    repeat split; try apply Hwf; lia.
  - cbn [HeuristicSolver.outer_loop].
    destruct (@iteration_exit_spec fuel m route Hwf Hfuel) as (res & -> & Hres).
    cbn [bind].
    destruct res as [[e r]|r].
    + exists r, e, (history ++ [route]).
      split; [reflexivity|]. rewrite length_app. cbn [length].
      destruct e.
      * destruct Hres as (Hwf' & Hl & Hb). repeat split; try apply Hwf'; try lia.
        exact Hb.
      * subst r. destruct Hwf as (_ & _ & Hl).
        repeat split; cbn [hd_error last length]; try reflexivity; lia.
      * contradiction.
    + destruct Hres as [Hwf' Hlen].
      destruct (IH r (history ++ [route]) Hwf') as (r' & e & h & Hrun & Hwfr & Hl & Hh & He).
      { pose proof (@fact_le _ _ Hlen). lia. }
      exists r', e, h. rewrite length_app in Hh, He. cbn [length] in Hh, He.
      split; [exact Hrun|]. split; [exact Hwfr|]. split; [lia|]. split; [lia|].
      destruct e; try exact He. lia.
Qed.

(** X13: on a validated map, given enough fuel, the heuristic leaves its
    loop after at most 50 iterations with a route of at most as many points
    as the initial one.  When it leaves because the budget is met or because
    the route has collapsed to the start and end point, the route passes
    [is_valid_route]; it leaves by the iteration cap only after exactly 50
    iterations. *)
Theorem heuristic_answer_valid_unless_exhausted (fuel : nat) (m : Map.t R)
    (Hvalid : Map.validate m = true)
    (Hfuel : (fact (length (Map.objects m) + 2) < fuel)%nat) :
  exists route e h,
    HeuristicSolver.run fuel m = Some (route, e, h)
    /\ (length h <= HeuristicSolver.max_iterations)%nat
    /\ (length route <= length (Map.objects m) + 2)%nat
    /\ (e = HeuristicSolver.Collapsed ->
        route = [Map.start_point m; Map.end_point m])
    /\ (e <> HeuristicSolver.Exhausted -> Solver.is_valid_route m route = true)
    /\ (e = HeuristicSolver.Exhausted -> length h = HeuristicSolver.max_iterations).
Proof.
  unfold HeuristicSolver.run.
  pose proof (fact_ge_self (length (Map.objects m) + 2)) as Hge.
  destruct (@greedy_initial_route_spec fuel m) as (route0 & -> & Hwf & Hlen); [lia|].
  cbn [bind].
  destruct (@outer_loop_exit_spec fuel m HeuristicSolver.max_iterations route0 [] Hwf)
    as (r & e & h & Hrun & Hwfr & Hl & Hh & He); [rewrite Hlen; exact Hfuel|].
  exists r, e, h. cbn [length] in Hh, He. rewrite Nat.add_0_l in Hh, He.
  split; [exact Hrun|]. split; [exact Hh|]. split; [lia|].
  split; [intros ->; exact He|].
  split; [|intros ->; exact He].
  intros Hne. apply is_valid_route_well_formed; [exact Hwfr|].
  destruct e; [exact He | | contradiction].
  subst r. rewrite route_distance_two.
  apply validate_iff in Hvalid. destruct Hvalid as (_ & _ & _ & Hd). exact Hd.
Qed.

Lemma heuristic_answer_valid_unless_exhausted_witness :
  exists route e h,
    HeuristicSolver.run 7 map_c5 = Some (route, e, h)
    /\ (length h <= HeuristicSolver.max_iterations)%nat
    /\ (length route <= length (Map.objects map_c5) + 2)%nat
    /\ (e = HeuristicSolver.Collapsed ->
        route = [Map.start_point map_c5; Map.end_point map_c5])
    /\ (e <> HeuristicSolver.Exhausted -> Solver.is_valid_route map_c5 route = true)
    /\ (e = HeuristicSolver.Exhausted -> length h = HeuristicSolver.max_iterations).
Proof.
  apply (@heuristic_answer_valid_unless_exhausted 7 map_c5 validate_map_c5).
  cbn. lia.
Defined.

(** ** The surveyed set of a route *)

Lemma add_In (p q : Point.t R) (s : list (Point.t R)) :
  In q (PySet.add p s) -> In q s \/ q = p.
Proof.
  unfold PySet.add. destruct (PySet.mem p s); [left; assumption|].
  intros H. apply in_app_or in H. destruct H as [H | [<- | []]]; auto.
Qed.

Lemma add_keeps (p q : Point.t R) (s : list (Point.t R)) :
  In q s -> In q (PySet.add p s).
Proof.
  unfold PySet.add. destruct (PySet.mem p s); [auto|].
  intros H. apply in_or_app. left; exact H.
Qed.

Lemma mem_add (p : Point.t R) (s : list (Point.t R)) :
  PySet.mem p (PySet.add p s) = true.
Proof.
  unfold PySet.add. destruct (PySet.mem p s) eqn:H; [exact H|].
  unfold PySet.mem. rewrite existsb_app. cbn [existsb].
  rewrite same_member_refl. apply orb_true_iff. right; reflexivity.
Qed.

Lemma mem_add_keeps (p q : Point.t R) (s : list (Point.t R)) :
  PySet.mem q s = true -> PySet.mem q (PySet.add p s) = true.
Proof.
  unfold PySet.add. destruct (PySet.mem p s); [auto|].
  intros H. unfold PySet.mem in *. rewrite existsb_app, H. reflexivity.
Qed.

Lemma of_list_In (l : list (Point.t R)) (p : Point.t R) :
  In p (PySet.of_list l) -> In p l.
Proof.
  unfold PySet.of_list.
  assert (H : forall acc, In p (fold_left (fun s q => PySet.add q s) l acc) ->
                          In p acc \/ In p l).
  { induction l as [|q l IH]; intros acc; cbn [fold_left]; [auto|].
    intros Hin. apply IH in Hin. destruct Hin as [Hin | Hin]; [|right; right; exact Hin].
    apply add_In in Hin. destruct Hin as [Hin | ->]; [left; exact Hin | right; left; reflexivity]. }
  intros Hin. apply H in Hin. destruct Hin as [[] | Hin]. exact Hin.
Qed.

Lemma of_list_mem (l : list (Point.t R)) (p : Point.t R) :
  In p l -> PySet.mem p (PySet.of_list l) = true.
Proof.
  unfold PySet.of_list.
  assert (H : forall acc, PySet.mem p acc = true \/ In p l ->
                          PySet.mem p (fold_left (fun s q => PySet.add q s) l acc) = true).
  { induction l as [|q l IH]; intros acc; cbn [fold_left].
    - intros [H | []]. exact H.
    - intros [H | [-> | H]]; apply IH.
      + left. apply mem_add_keeps; exact H.
      + left. apply mem_add.
      + right; exact H. }
  intros Hin. apply H. right; exact Hin.
Qed.

Lemma segments_endpoint (route : list (Point.t R)) (w : Point.t R) :
  In w route -> (2 <= length route)%nat ->
  exists ab, In ab (Solver.segments route) /\ (fst ab = w \/ snd ab = w).
Proof.
  induction route as [|a [|b route] IH]; intros Hin Hlen; cbn [length] in Hlen;
    [contradiction | lia |].
  destruct Hin as [<- | Hin].
  - exists (a, b). split; [left; reflexivity | left; reflexivity].
  - destruct route as [|c route].
    + destruct Hin as [Hb | []]. exists (a, b). split; [left; reflexivity | right; exact Hb].
    + destruct (IH Hin) as (ab & Hab & Hw); [cbn [length]; lia|].
      exists ab. split; [right; exact Hab | exact Hw].
Qed.

Lemma is_surveyed_near_waypoint (m : Map.t R) (route : list (Point.t R))
    (p w : Point.t R) :
  In w route -> (2 <= length route)%nat ->
  Point.distance_to p w <= Map.survey_radius m ->
  Solver.is_surveyed m route p = true.
Proof.
  intros Hin Hlen Hd. unfold Solver.is_surveyed. apply existsb_exists.
  destruct (@segments_endpoint route w Hin Hlen) as (ab & Hab & Hw).
  exists ab. split; [exact Hab|]. unfold_num. reflect_R.
  destruct Hw as [<- | <-].
  - pose proof (segment_distance_le_start p (fst ab) (snd ab)). lra.
  - pose proof (segment_distance_le_end p (fst ab) (snd ab)). lra.
Qed.

(** X14: the set [get_surveyed_objects] answers holds only objects of the
    map, each within the survey radius of a segment of the route extended
    by the start and end point, and never more entries than the map has
    objects.  Every object of the map within the radius of such a segment
    is in it, and so is every object within the radius of a point of the
    route, of the start point or of the end point. *)
Theorem get_surveyed_objects_sound_and_complete (m : Map.t R) (route : list (Point.t R)) :
  let surveyed := Solver.get_surveyed_objects m route in
  let full := [Map.start_point m] ++ route ++ [Map.end_point m] in
  (forall p, In p surveyed ->
     In p (Map.objects m) /\ Solver.is_surveyed m full p = true)
  /\ (forall p, In p (Map.objects m) -> Solver.is_surveyed m full p = true ->
        PySet.mem p surveyed = true)
  /\ (forall p w, In p (Map.objects m) -> In w full ->
        Point.distance_to p w <= Map.survey_radius m ->
        PySet.mem p surveyed = true)
  /\ (length surveyed <= length (Map.objects m))%nat.
Proof.
  cbv zeta. rewrite get_surveyed_objects_filter.
  set (full := [Map.start_point m] ++ route ++ [Map.end_point m]).
  assert (Hmem : forall p, In p (Map.objects m) -> Solver.is_surveyed m full p = true ->
                   PySet.mem p (filter (Solver.is_surveyed m full)
                                       (PySet.of_list (Map.objects m))) = true).
  { intros p Hin Hs. rewrite mem_filter; [apply of_list_mem; exact Hin | | exact Hs].
    intros q Hpq. symmetry. apply is_surveyed_same_member; exact Hpq. }
  split; [|split; [|split]].
  - intros p Hp. apply filter_In in Hp. destruct Hp as [Hin Hs].
    split; [apply of_list_In; exact Hin | exact Hs].
  - exact Hmem.
  - intros p w Hin Hw Hd. apply Hmem; [exact Hin|].
    apply is_surveyed_near_waypoint with (w := w); [exact Hw | | exact Hd].
    unfold full. rewrite !length_app. cbn [length]. lia.
  - etransitivity; [apply filter_length_le | apply of_list_length_le].
Qed.

(** ** The greedy solver's surveyed set against [get_surveyed_objects] *)

Lemma distance_to_sym (a b : Point.t R) :
  Point.distance_to a b = Point.distance_to b a.
Proof.
  rewrite !distance_to_unfold. f_equal. f_equal. ring.
Qed.

Lemma fold_add_In (l acc : list (Point.t R)) (p : Point.t R) :
  In p (fold_left (fun acc obj => PySet.add obj acc) l acc) -> In p acc \/ In p l.
Proof.
  revert acc. induction l as [|q l IH]; intros acc; cbn [fold_left]; [auto|].
  intros Hin. apply IH in Hin. destruct Hin as [Hin | Hin]; [|right; right; exact Hin].
  apply add_In in Hin. destruct Hin as [Hin | ->]; [left; exact Hin | right; left; reflexivity].
Qed.

Lemma fold_remove_incl (l u : list (Point.t R)) (p : Point.t R) :
  In p (fold_left (fun acc obj => PySet.remove obj acc) l u) -> In p u.
Proof.
  revert u. induction l as [|q l IH]; intros u; cbn [fold_left]; [auto|].
  intros Hin. apply IH in Hin. unfold PySet.remove in Hin.
  apply filter_In in Hin. tauto.
Qed.

Lemma fold_add_if_In (test : Point.t R -> bool) (l acc : list (Point.t R)) (p : Point.t R) :
  In p (fold_left (fun acc obj => if test obj then PySet.add obj acc else acc) l acc) ->
  In p acc \/ (In p l /\ test p = true).
Proof.
  revert acc. induction l as [|q l IH]; intros acc; cbn [fold_left]; [auto|].
  intros Hin. apply IH in Hin. destruct Hin as [Hin | [Hin Ht]]; [|right; split; [right|]; assumption].
  destruct (test q) eqn:Hq; [|left; exact Hin].
  apply add_In in Hin. destruct Hin as [Hin | ->]; [left; exact Hin|].
  right. split; [left; reflexivity | exact Hq].
Qed.

(** The post-loop test of the greedy solver is passed only by objects
    within the radius of the closing segment. *)
Lemma point_to_line_covers (p a b : Point.t R) (r : R) :
  GreedySolver._point_to_line_distance p a b <= r ->
  Point.distance_point_to_segment p a b <= r.
Proof.
  unfold GreedySolver._point_to_line_distance. unfold_num.
  destruct (Reqb (Point.distance_to a b) 0).
  - intros H. pose proof (segment_distance_le_start p a b). lra.
  - set (t := Point.clamp01 _). intros H.
    pose proof (@segment_distance_le_any p a b t "" (clamp01_range _)) as Hle.
    rewrite distance_to_unfold in Hle. cbn [Point.x Point.y] in Hle. lra.
Qed.

Lemma segments_app_In (l : list (Point.t R)) (e a b : Point.t R) :
  In (a, b) (Solver.segments l) -> In (a, b) (Solver.segments (l ++ [e])).
Proof.
  destruct l as [|x l]; [contradiction|].
  destruct (l) as [|y l'] eqn:El; [contradiction|]. rewrite <- El.
  intros H. rewrite (@segments_snoc (x :: l) x e) by discriminate.
  apply in_or_app. left; exact H.
Qed.

Lemma segments_cons_In (l : list (Point.t R)) (s a b : Point.t R) :
  In (a, b) (Solver.segments l) -> In (a, b) (Solver.segments (s :: l)).
Proof.
  destruct l as [|x l]; [contradiction|]. intros H. right; exact H.
Qed.

Lemma segments_last_In (l : list (Point.t R)) (d e : Point.t R) :
  l <> [] -> In (last l d, e) (Solver.segments (l ++ [e])).
Proof.
  intros Hne. rewrite (@segments_snoc l d e Hne). apply in_or_app. right; left; reflexivity.
Qed.

Lemma segments_from_In (l : list (Point.t R)) (e w : Point.t R) :
  In w l -> exists b, In (w, b) (Solver.segments (l ++ [e])).
Proof.
  induction l as [|a l IH]; [contradiction|].
  intros [-> | Hin].
  - destruct l as [|b l]; [exists e | exists b]; left; reflexivity.
  - destruct (IH Hin) as (b & Hb). exists b.
    destruct l as [|c l]; [contradiction|]. right; exact Hb.
Qed.

Section GreedySurveyed.
Variable m : Map.t R.
Variable U : list (Point.t R).

Lemma surveyed_inv_body (s s' : GreedySolver.state) :
  surveyed_inv m U s -> GreedySolver.body m s = GreedySolver.Continue s' ->
  surveyed_inv m U s'.
Proof.
  intros (Hne & Hlast & Hincl & Hsv). unfold GreedySolver.body.
  destruct (GreedySolver.find_nearest _ _) as [o|]; [|discriminate].
  destruct (GreedySolver._find_intersection_with_circle _ _ _ _) as [i|].
  - destruct (_ >? _)%num; [discriminate|].
    intros [= <-]. unfold surveyed_inv.
    cbn [GreedySolver.route GreedySolver.current_position
         GreedySolver.surveyed_objects GreedySolver.unsurveyed_objects].
    split; [intros H; apply app_eq_nil in H; destruct H; discriminate|].
    split; [apply last_last|].
    split; [intros p Hp; apply Hincl; apply fold_remove_incl in Hp; exact Hp|].
    intros p Hp. apply fold_add_In in Hp. destruct Hp as [Hp | Hp].
    + destruct (Hsv p Hp) as (HU & w & Hw & Hd).
      split; [exact HU|]. exists w. split; [apply in_or_app; left; exact Hw | exact Hd].
    + apply filter_In in Hp. destruct Hp as [Hp Hd]. unfold_num. reflect_R.
      split; [apply Hincl; exact Hp|].
      exists i. split; [apply in_or_app; right; left; reflexivity|].
      rewrite distance_to_sym. exact Hd.
  - intros [= <-]. unfold surveyed_inv.
    cbn [GreedySolver.route GreedySolver.current_position
         GreedySolver.surveyed_objects GreedySolver.unsurveyed_objects].
    split; [exact Hne|]. split; [exact Hlast|]. split; [|exact Hsv].
    intros p Hp. apply Hincl. unfold PySet.remove in Hp. apply filter_In in Hp. tauto.
Qed.

Lemma surveyed_inv_while (fuel : nat) (s s' : GreedySolver.state) :
  surveyed_inv m U s -> GreedySolver.while_loop fuel m s = Some s' ->
  surveyed_inv m U s'.
Proof.
  revert s. induction fuel as [|fuel IH]; intros s Hinv; cbn; [discriminate|].
  destruct (GreedySolver.guard m s); [|intros [= <-]; exact Hinv].
  destruct (GreedySolver.body m s) as [s1|s1] eqn:Hbody.
  - apply IH. eapply surveyed_inv_body; eassumption.
  - intros [= <-]. apply greedy_inv_body_break in Hbody. subst s1. exact Hinv.
Qed.

Lemma surveyed_inv_finish (s : GreedySolver.state) :
  surveyed_inv m U s ->
  forall p, In p (snd (fst (GreedySolver.finish m s))) ->
    In p U /\ Solver.is_surveyed m (fst (fst (GreedySolver.finish m s))) p = true.
Proof.
  intros (Hne & Hlast & Hincl & Hsv) p. unfold GreedySolver.finish. cbn [fst snd].
  set (route := GreedySolver.route s ++ [Map.end_point m]).
  assert (Hold : In p (GreedySolver.surveyed_objects s) ->
                 In p U /\ Solver.is_surveyed m route p = true).
  { intros Hp. destruct (Hsv p Hp) as (HU & w & Hw & Hd). split; [exact HU|].
    unfold Solver.is_surveyed. apply existsb_exists.
    destruct (@segments_from_In (GreedySolver.route s) (Map.end_point m) w Hw) as (b & Hb).
    exists (w, b). split; [exact Hb|]. cbn [fst snd]. unfold_num. reflect_R.
    pose proof (segment_distance_le_start p w b). lra. }
  destruct (_ && _); [|exact Hold].
  intros Hp. apply fold_add_if_In in Hp. destruct Hp as [Hp | [Hp Ht]]; [exact (Hold Hp)|].
  split; [apply Hincl; exact Hp|].
  unfold Solver.is_surveyed. apply existsb_exists.
  exists (GreedySolver.current_position s, Map.end_point m).
  split; [rewrite <- Hlast; apply segments_last_In; exact Hne|].
  cbn [fst snd]. unfold_num. reflect_R. apply point_to_line_covers. exact Ht.
Qed.

End GreedySurveyed.

(** X15: whenever the greedy solver returns, in whatever order it iterates
    the set of the map's objects, every object it reports as surveyed is an
    object of the map that [get_surveyed_objects] also counts as surveyed by
    the route the solver returns. *)
Theorem greedy_surveyed_confirmed_by_route (m : Map.t R) (fuel : nat)
    (unsurveyed route surveyed : list (Point.t R)) (total : R)
    (Horder : Permutation unsurveyed (PySet.of_list (Map.objects m)))
    (Hrun : GreedySolver.solve_in_order fuel m unsurveyed
            = Some (route, surveyed, total)) :
  forall p, In p surveyed ->
    In p (Map.objects m)
    /\ PySet.mem p (Solver.get_surveyed_objects m route) = true.
Proof.
  unfold GreedySolver.solve_in_order in Hrun.
  destruct (GreedySolver.while_loop fuel m _) as [s|] eqn:Hloop; [|discriminate].
  cbn [bind] in Hrun.
  assert (Hfin : GreedySolver.finish m s = (route, surveyed, total)).
  { set (f := GreedySolver.finish m s) in *. clearbody f. congruence. }
  assert (Hinit : surveyed_inv m unsurveyed (GreedySolver.initial_state m unsurveyed)).
  { unfold surveyed_inv, GreedySolver.initial_state.
    cbn [GreedySolver.route GreedySolver.current_position
         GreedySolver.surveyed_objects GreedySolver.unsurveyed_objects last].
    split; [discriminate|]. split; [reflexivity|]. split; [apply incl_refl|].
    intros p []. }
  pose proof (@surveyed_inv_finish m unsurveyed s
                (@surveyed_inv_while m unsurveyed fuel _ _ Hinit Hloop)) as Hres.
  rewrite Hfin in Hres. cbn [fst snd] in Hres.
  intros p Hp. destruct (Hres p Hp) as [HU Hs].
  assert (Hobj : In p (Map.objects m)).
  { apply of_list_In. exact (Permutation_in _ Horder HU). }
  split; [exact Hobj|].
  rewrite get_surveyed_objects_filter.
  rewrite mem_filter.
  - apply of_list_mem; exact Hobj.
  - intros q Hpq. symmetry. apply is_surveyed_same_member; exact Hpq.
  - unfold Solver.is_surveyed in *. apply existsb_exists in Hs.
    destruct Hs as ([a b] & Hab & Hd). apply existsb_exists. exists (a, b).
    split; [|exact Hd].
    cbn [app]. apply segments_cons_In. apply segments_app_In. exact Hab.
Qed.

Lemma greedy_surveyed_confirmed_by_route_witness :
  Forall (fun p => In p (Map.objects (map_c8 3))
                   /\ PySet.mem p (Solver.get_surveyed_objects (map_c8 3)
                                     [rpt 0 0; rpt (-3) 0; rpt (-13) 0; rpt 9 0; rpt 8 0])
                      = true)
         [rpt (-6) 0; rpt (-16) 0; rpt 12 0].
Proof.
  apply Forall_forall.
  exact (@greedy_surveyed_confirmed_by_route (map_c8 3) 4
           (PySet.of_list (Map.objects (map_c8 3)))
           [rpt 0 0; rpt (-3) 0; rpt (-13) 0; rpt 9 0; rpt 8 0]
           [rpt (-6) 0; rpt (-16) 0; rpt 12 0] 32
           (Permutation_refl _) greedy_c8_radius_3).
Defined.

(** ** Route length in Euclidean terms *)

Lemma fold_left_distance_acc (l : list (Point.t R * Point.t R)) :
  forall acc,
    fold_left (fun total ab => total + Point.distance_to (fst ab) (snd ab)) l acc
    = acc + fold_right (fun ab s => euclid (fst ab) (snd ab) + s) 0 l - INR (length l).
Proof.
  induction l as [|ab l IH]; intros acc.
  - cbn. lra.
  - cbn [fold_left fold_right length]. rewrite IH, S_INR, distance_to_euclid.
    unfold Point.error. unfold_num. lra.
Qed.

Lemma segments_length (route : list (Point.t R)) :
  length (Solver.segments route) = (length route - 1)%nat.
Proof.
  induction route as [|a [|b route] IH]; [reflexivity | reflexivity|].
  change (Solver.segments (a :: b :: route))
    with ((a, b) :: Solver.segments (b :: route)).
  cbn [length] in *. rewrite IH. lia.
Qed.

(** X16: the length [calculate_route_distance] computes for a route is its
    Euclidean length less 1 for every leg, so never less than minus the
    number of legs. *)
Theorem route_distance_is_euclid_less_legs (route : list (Point.t R)) :
  Solver.calculate_route_distance route
  = euclid_length route - INR (length route - 1)
  /\ - INR (length route - 1) <= Solver.calculate_route_distance route.
Proof.
  assert (Heq : Solver.calculate_route_distance route
                = euclid_length route - INR (length route - 1)).
  { rewrite route_distance_path. unfold path_length, euclid_length.
    rewrite fold_left_distance_acc, segments_length. lra. }
  split; [exact Heq|].
  rewrite Heq. assert (0 <= euclid_length route); [|lra].
  unfold euclid_length. induction (Solver.segments route) as [|ab l IH]; cbn; [lra|].
  pose proof (euclid_nonneg (fst ab) (snd ab)). lra.
Qed.

(** ** The coverage the runner reports *)

Lemma coverage_bounds (surveyed : list (Point.t R)) (m : Map.t R) :
  (length surveyed <= length (Map.objects m))%nat ->
  0 <= Runner.coverage surveyed m <= 100.
Proof.
  intros Hle. unfold Runner.coverage. unfold_num.
  destruct (Nat.eqb (length (Map.objects m)) 0) eqn:Hz; [lra|].
  apply Nat.eqb_neq in Hz.
  rewrite <- !INR_IZR_INZ.
  assert (Hk : 0 < INR (length (Map.objects m))) by (apply lt_0_INR; lia).
  pose proof (pos_INR (length surveyed)) as Hn.
  apply le_INR in Hle.
  set (n := INR (length surveyed)) in *.
  set (k := INR (length (Map.objects m))) in *.
  assert (H0 : 0 <= n / k)
    by (apply Rmult_le_pos; [lra | left; apply Rinv_0_lt_compat; lra]).
  assert (H1 : n / k <= 1)
    by (apply (Rmult_le_reg_r k); [lra|]; unfold Rdiv;
        rewrite Rmult_assoc, Rinv_l by lra; lra).
  lra.
Qed.

(** X17: the coverage the runner computes from the surveyed set of
    [get_surveyed_objects] is a percentage: between 0 and 100, and 0 for a
    map without objects. *)
Theorem coverage_is_a_percentage (m : Map.t R) (route : list (Point.t R)) :
  0 <= Runner.coverage (Solver.get_surveyed_objects m route) m <= 100
  /\ (Map.objects m = [] ->
      Runner.coverage (Solver.get_surveyed_objects m route) m = 0).
Proof.
  split.
  - apply coverage_bounds. rewrite get_surveyed_objects_filter.
    etransitivity; [apply filter_length_le | apply of_list_length_le].
  - intros Hnil. unfold Runner.coverage. rewrite Hnil. reflexivity.
Qed.

(** ** The greedy solver never counts an object twice *)

Lemma same_member_iff (p q : Point.t R) :
  PySet.same_member p q = true <-> Point.x p = Point.x q /\ Point.y p = Point.y q.
Proof.
  split; [apply same_member_coords|].
  intros [Hx Hy]. unfold PySet.same_member, PySet.hash_eqb, Point.__hash__.
  cbn [fst snd]. unfold_num.
  rewrite Hx, Hy, !Reqb_refl. cbn [andb].
  apply point_eq_iff. rewrite Hx, Hy, !Rminus_diag, Rabs_R0. lra.
Qed.

Lemma mem_same_member (p q : Point.t R) (s : list (Point.t R)) :
  PySet.same_member p q = true -> PySet.mem p s = true -> PySet.mem q s = true.
Proof.
  intros Hpq. apply same_member_iff in Hpq. destruct Hpq as [Hx Hy].
  unfold PySet.mem. rewrite !existsb_exists.
  intros (e & He & Hpe). exists e. split; [exact He|].
  apply same_member_iff in Hpe. apply same_member_iff.
  destruct Hpe as [Hx' Hy']. split; congruence.
Qed.

Lemma add_remove_step (o : Point.t R) (sv un : list (Point.t R)) :
  PySet.mem o sv = true \/ In o un ->
  (length (PySet.add o sv) + length (PySet.remove o un) <= length sv + length un)%nat.
Proof.
  intros H.
  assert (Hrem : (length (PySet.remove o un) <= length un)%nat)
    by (unfold PySet.remove; apply filter_length_le).
  unfold PySet.add. destruct (PySet.mem o sv) eqn:Hmem; [lia|].
  destruct H as [H | H]; [discriminate|].
  pose proof (@remove_length_lt o un H). rewrite length_app. cbn [length]. lia.
Qed.

Lemma add_remove_batch (objs : list (Point.t R)) :
  forall sv un,
    (forall o, In o objs -> PySet.mem o sv = true \/ In o un) ->
    (length (fold_left (fun acc obj => PySet.add obj acc) objs sv)
     + length (fold_left (fun acc obj => PySet.remove obj acc) objs un)
     <= length sv + length un)%nat.
Proof.
  induction objs as [|o objs IH]; intros sv un Hpre; cbn [fold_left]; [lia|].
  pose proof (@add_remove_step o sv un (Hpre o (or_introl eq_refl))) as Hstep.
  etransitivity; [apply IH | exact Hstep].
  intros o' Ho'. destruct (Hpre o' (or_intror Ho')) as [Hm | Hin].
  - left. apply mem_add_keeps; exact Hm.
  - destruct (PySet.same_member o o') eqn:Hoo.
    + left. apply (@mem_same_member o o' _ Hoo). apply mem_add.
    + right. unfold PySet.remove. apply filter_In. rewrite Hoo. auto.
Qed.

Lemma fold_add_if_length (test : Point.t R -> bool) (l : list (Point.t R)) :
  forall acc,
    (length (fold_left (fun acc obj => if test obj then PySet.add obj acc else acc) l acc)
     <= length acc + length l)%nat.
Proof.
  induction l as [|p l IH]; intros acc; cbn [fold_left length]; [lia|].
  etransitivity; [apply IH|].
  destruct (test p); [pose proof (add_length_le p acc)|]; lia.
Qed.

Lemma count_inv_body (m : Map.t R) (N : nat) (s s' : GreedySolver.state) :
  (length (GreedySolver.surveyed_objects s)
   + length (GreedySolver.unsurveyed_objects s) <= N)%nat ->
  GreedySolver.body m s = GreedySolver.Continue s' ->
  (length (GreedySolver.surveyed_objects s')
   + length (GreedySolver.unsurveyed_objects s') <= N)%nat.
Proof.
  intros HN. unfold GreedySolver.body.
  destruct (GreedySolver.find_nearest _ _) as [o|]; [|discriminate].
  destruct (GreedySolver._find_intersection_with_circle _ _ _ _) as [i|].
  - destruct (_ >? _)%num; [discriminate|].
    intros [= <-].
    cbn [GreedySolver.surveyed_objects GreedySolver.unsurveyed_objects].
    etransitivity; [apply add_remove_batch | exact HN].
    intros q Hq. apply filter_In in Hq. right; tauto.
  - intros [= <-].
    cbn [GreedySolver.surveyed_objects GreedySolver.unsurveyed_objects].
    pose proof (filter_length_le (fun q => negb (PySet.same_member o q))
                  (GreedySolver.unsurveyed_objects s)).
    unfold PySet.remove. lia.
Qed.

Lemma count_inv_while (m : Map.t R) (N : nat) (fuel : nat) :
  forall s s',
    (length (GreedySolver.surveyed_objects s)
     + length (GreedySolver.unsurveyed_objects s) <= N)%nat ->
    GreedySolver.while_loop fuel m s = Some s' ->
    (length (GreedySolver.surveyed_objects s')
     + length (GreedySolver.unsurveyed_objects s') <= N)%nat.
Proof.
  induction fuel as [|fuel IH]; intros s s' HN; cbn; [discriminate|].
  destruct (GreedySolver.guard m s); [|intros [= <-]; exact HN].
  destruct (GreedySolver.body m s) as [s1|s1] eqn:Hbody.
  - apply IH. eapply count_inv_body; eassumption.
  - intros [= <-]. apply greedy_inv_body_break in Hbody. subst s1. exact HN.
Qed.

(** X18: whenever the greedy solver returns, in whatever order it iterates
    the set of the map's objects, it reports no more surveyed objects than
    the map has, so the coverage the runner computes from its answer is
    between 0 and 100. *)
Theorem greedy_coverage_is_a_percentage (m : Map.t R) (fuel : nat)
    (unsurveyed route surveyed : list (Point.t R)) (total : R)
    (Horder : Permutation unsurveyed (PySet.of_list (Map.objects m)))
    (Hrun : GreedySolver.solve_in_order fuel m unsurveyed
            = Some (route, surveyed, total)) :
  (length surveyed <= length (Map.objects m))%nat
  /\ 0 <= Runner.coverage surveyed m <= 100.
Proof.
  pose proof (of_list_length_le (Map.objects m)) as HU.
  rewrite <- (Permutation_length Horder) in HU.
  unfold GreedySolver.solve_in_order in Hrun.
  destruct (GreedySolver.while_loop fuel m _) as [s|] eqn:Hloop; [|discriminate].
  cbn [bind] in Hrun.
  assert (Hfin : snd (fst (GreedySolver.finish m s)) = surveyed).
  { set (f := GreedySolver.finish m s) in *. clearbody f.
    injection Hrun as ->. reflexivity. }
  assert (Hinit : (length (GreedySolver.surveyed_objects
                             (GreedySolver.initial_state m unsurveyed))
                   + length (GreedySolver.unsurveyed_objects
                               (GreedySolver.initial_state m unsurveyed))
                   <= length unsurveyed)%nat)
    by (cbn; lia).
  pose proof (@count_inv_while m (length unsurveyed) fuel _ _ Hinit Hloop) as Hcount.
  assert (Hlen : (length surveyed <= length (Map.objects m))%nat).
  { rewrite <- Hfin. unfold GreedySolver.finish. cbn [fst snd].
    destruct (_ && _).
    - etransitivity; [apply fold_add_if_length | lia].
    - lia. }
  split; [exact Hlen | apply coverage_bounds; exact Hlen].
Qed.

Lemma greedy_coverage_is_a_percentage_witness :
  (length [rpt (-6) 0; rpt (-16) 0; rpt 12 0] <= length (Map.objects (map_c8 3)))%nat
  /\ 0 <= Runner.coverage [rpt (-6) 0; rpt (-16) 0; rpt 12 0] (map_c8 3) <= 100.
Proof.
  exact (@greedy_coverage_is_a_percentage (map_c8 3) 4
           (PySet.of_list (Map.objects (map_c8 3)))
           [rpt 0 0; rpt (-3) 0; rpt (-13) 0; rpt 9 0; rpt 8 0]
           [rpt (-6) 0; rpt (-16) 0; rpt 12 0] 32
           (Permutation_refl _) greedy_c8_radius_3).
Defined.

(** ** The generator's uniqueness test *)

Lemma is_point_unique_cons (p e : Point.t R) (l : list (Point.t R)) :
  DataGenerator._is_point_unique p (e :: l)
  = if Rltb (Point.distance_to p e) 5 then false
    else DataGenerator._is_point_unique p l.
Proof. reflexivity. Qed.

(** X19: the generator accepts a point exactly when it is at Euclidean
    distance 6 or more from every existing point: the minimum of 5 the code
    names, plus the 1 every distance is short by.  An accepted point
    therefore never compares equal to an existing one. *)
Theorem is_point_unique_iff (p : Point.t R) (existing : list (Point.t R)) :
  (DataGenerator._is_point_unique p existing = true
   <-> forall e, In e existing -> 6 <= euclid p e)
  /\ (DataGenerator._is_point_unique p existing = true ->
      forall e, In e existing -> Point.__eq__ p e = false).
Proof.
  assert (Hiff : DataGenerator._is_point_unique p existing = true
                 <-> forall e, In e existing -> 6 <= euclid p e).
  { induction existing as [|e l IH]; [split; [intros _ e [] | reflexivity]|].
    rewrite is_point_unique_cons.
    destruct (Rltb (Point.distance_to p e) 5) eqn:Hlt; reflect_R;
      rewrite distance_to_euclid in Hlt; unfold Point.error in Hlt; unfold_num.
    - split; [discriminate|]. intros H. specialize (H e (or_introl eq_refl)). lra.
    - rewrite IH. split.
      + intros H q [<- | Hq]; [lra | apply H; exact Hq].
      + intros H q Hq. apply H. right; exact Hq. }
  split; [exact Hiff|].
  intros Hu e He. apply Hiff with (e := e) in Hu; [|exact He].
  destruct (Point.__eq__ p e) eqn:Heq; [|reflexivity].
  apply point_eq_iff in Heq. destruct Heq as [Hx Hy].
  assert (Hlt : euclid p e < 6); [|lra].
  unfold euclid.
  apply Rabs_def2 in Hx. apply Rabs_def2 in Hy.
  apply Rlt_le_trans with (R_sqrt.sqrt 1); [|rewrite sqrt_1; lra].
  set (u := Point.x e - Point.x p). set (v := Point.y e - Point.y p).
  assert (Hu2 : 0 < (1 / 100 - u) * (1 / 100 + u))
    by (apply Rmult_lt_0_compat; unfold u; lra).
  assert (Hv2 : 0 < (1 / 100 - v) * (1 / 100 + v))
    by (apply Rmult_lt_0_compat; unfold v; lra).
  pose proof (pow2_ge_0 u). pose proof (pow2_ge_0 v).
  apply sqrt_lt_1; [lra | lra |].
  replace (u ^ 2 + v ^ 2)
    with (2 / 10000 - (1 / 100 - u) * (1 / 100 + u) - (1 / 100 - v) * (1 / 100 + v))
    by field.
  lra.
Qed.

(** ** Where the greedy solver enters the circle of an object *)

Lemma entry_point_exact (start obj : Point.t R) (r : R) (Hr : 0 <= r) :
  exists i,
    GreedySolver._find_intersection_with_circle start obj obj r = Some i
    /\ (euclid start obj <= r + 1 -> i = start)
    /\ (r + 1 < euclid start obj ->
        euclid i obj = r /\ euclid start i = euclid start obj - r).
Proof.
  unfold GreedySolver._find_intersection_with_circle. unfold_num.
  set (Dx := Point.x obj - Point.x start).
  set (Dy := Point.y obj - Point.y start).
  set (D := R_sqrt.sqrt (Dx * Dx + Dy * Dy)).
  assert (HDpos : 0 <= D) by apply sqrt_pos.
  assert (HDD : D * D = Dx * Dx + Dy * Dy)
    by (unfold D; apply sqrt_sqrt; apply sum_squares_nonneg).
  assert (HE : euclid start obj = D).
  { apply euclid_value; [exact HDpos|]. fold Dx Dy. lra. }
  rewrite HE.
  destruct (Reqb D 0) eqn:HD0; reflect_R.
  { exists start. split; [reflexivity|]. split; [reflexivity | lra]. }
  rewrite distance_to_euclid, HE. unfold Point.error. unfold_num.
  destruct (Rleb (D - 1) r) eqn:Hin; reflect_R.
  { exists start. split; [reflexivity|]. split; [reflexivity | lra]. }
  assert (HDgt : 0 < D) by lra.
  set (dx := Dx / D). set (dy := Dy / D).
  assert (HU : dx * dx + dy * dy = 1).
  { unfold dx, dy.
    replace (Dx / D * (Dx / D) + Dy / D * (Dy / D))
      with ((Dx * Dx + Dy * Dy) / (D * D)) by (field; lra).
    rewrite <- HDD. field. lra. }
  assert (Hp : Dx * dx + Dy * dy = D).
  { unfold dx, dy.
    replace (Dx * (Dx / D) + Dy * (Dy / D)) with ((Dx * Dx + Dy * Dy) / D)
      by (field; lra).
    rewrite <- HDD. field. lra. }
  rewrite Hp.
  assert (Hcx : Point.x start + D * dx = Point.x obj)
    by (unfold dx, Dx; field; lra).
  assert (Hcy : Point.y start + D * dy = Point.y obj)
    by (unfold dy, Dy; field; lra).
  rewrite Hcx, Hcy.
  rewrite (proj2 (Rleb_false_iff D 0)) by lra.
  replace ((Point.x obj - Point.x obj) * (Point.x obj - Point.x obj)
           + (Point.y obj - Point.y obj) * (Point.y obj - Point.y obj))
    with (0 * 0) by ring.
  rewrite sqrt_square by lra.
  rewrite (proj2 (Rltb_false_iff r 0)) by lra.
  replace (r * r - 0 * 0) with (r * r) by ring.
  rewrite sqrt_square by exact Hr.
  eexists. split; [reflexivity|]. split; [intros; lra|].
  intros _. split.
  - apply euclid_value; [exact Hr|]. cbn [Point.x Point.y].
    replace ((Point.x obj - (Point.x obj - r * dx)) * (Point.x obj - (Point.x obj - r * dx))
             + (Point.y obj - (Point.y obj - r * dy)) * (Point.y obj - (Point.y obj - r * dy)))
      with (r * r * (dx * dx + dy * dy)) by ring.
    rewrite HU. ring.
  - apply euclid_value; [lra|]. cbn [Point.x Point.y].
    rewrite <- Hcx, <- Hcy.
    replace ((Point.x start + D * dx - r * dx - Point.x start)
             * (Point.x start + D * dx - r * dx - Point.x start)
             + (Point.y start + D * dy - r * dy - Point.y start)
               * (Point.y start + D * dy - r * dy - Point.y start))
      with ((D - r) * (D - r) * (dx * dx + dy * dy)) by ring.
    rewrite HU. ring.
Qed.

(** X20: in exact arithmetic, for a radius that is not negative, the entry
    point for an object is always found.  It is the current position when
    that is within Euclidean distance [r + 1] of the object; otherwise it is
    the point of the straight line to the object at Euclidean distance
    exactly [r] from it, so the leg to it is [r] shorter than the leg to the
    object.  On binary64 numbers neither part survives rounding.  At radius
    0 no entry point is found for the object (5, 2) from (3, 7): the
    distance from the object to the line through it comes out as a positive
    residue.  And from (1e17, 0) the entry point for the object 16 further
    on, radius 10, is (1e17, 0) itself. *)
Theorem entry_point_characterisation (start obj : Point.t R) (r : R)
    (Hr : 0 <= r) :
  (exists i,
     GreedySolver._find_intersection_with_circle start obj obj r = Some i
     /\ (euclid start obj <= r + 1 -> i = start)
     /\ (r + 1 < euclid start obj ->
         euclid i obj = r /\ euclid start i = euclid start obj - r))
  /\ GreedySolver._find_intersection_with_circle (fpt 3 7) (fpt 5 2) (fpt 5 2) 0%float
     = None
  /\ GreedySolver._find_intersection_with_circle
       (fpt 1e17 0) (fpt 100000000000000016 0) (fpt 100000000000000016 0) 10%float
     = Some (fpt 1e17 0).
Proof.
  split; [apply entry_point_exact; exact Hr|].
  split; vm_compute; reflexivity.
Qed.

Lemma entry_point_characterisation_witness :
  exists i,
    GreedySolver._find_intersection_with_circle (rpt 0 0) (rpt 14 0) (rpt 14 0) 2 = Some i
    /\ euclid i (rpt 14 0) = 2
    /\ euclid (rpt 0 0) i = euclid (rpt 0 0) (rpt 14 0) - 2.
Proof.
  assert (Hr : 0 <= 2) by lra.
  assert (Hfar : 2 + 1 < euclid (rpt 0 0) (rpt 14 0)).
  { rewrite (@euclid_value (rpt 0 0) (rpt 14 0) 14); [lra | lra |].
    cbn [Point.x Point.y]. ring. }
  destruct (proj1 (entry_point_characterisation (rpt 0 0) (rpt 14 0) Hr))
    as (i & Hi & _ & Hout).
  exists i. split; [exact Hi | exact (Hout Hfar)].
Defined.

(** ** What geometric optimisation moves *)

Lemma nth_error_set_nth {A : Type} (i k : nat) (v : A) (l : list A) :
  nth_error (set_nth i v l) k = nth_error l k
  \/ nth_error (set_nth i v l) k = Some v.
Proof.
  revert i k. induction l as [|a l IH]; intros i k; [left; destruct i; reflexivity|].
  destruct i as [|i]; destruct k as [|k]; cbn [set_nth nth_error]; auto.
Qed.

Lemma geometric_step_moves (m : Map.t R) (route opt : list (Point.t R)) (i k : nat) :
  nth_error (HeuristicSolver.geometric_step m route opt i) k = nth_error opt k
  \/ exists obj prev next,
       In obj (Map.objects m)
       /\ nth_error (HeuristicSolver.geometric_step m route opt i) k
          = Some (HeuristicSolver._optimize_point_position m obj prev next).
Proof.
  unfold HeuristicSolver.geometric_step.
  destruct (nth_error route (i - 1)) as [prev|]; [|left; reflexivity].
  destruct (nth_error route i) as [cur|]; [|left; reflexivity].
  destruct (nth_error route (i + 1)) as [next|]; [|left; reflexivity].
  destruct (find _ (Map.objects m)) as [obj|] eqn:Hfind; [|left; reflexivity].
  apply find_some in Hfind. destruct Hfind as [Hobj _].
  destruct (_ <? _)%num; [|left; reflexivity].
  destruct (nth_error_set_nth i k
              (HeuristicSolver._optimize_point_position m obj prev next) opt)
    as [H | H]; [left; exact H|].
  right. exists obj, prev, next. split; [exact Hobj | exact H].
Qed.

Lemma geometric_fold_moves (m : Map.t R) (route : list (Point.t R)) (k : nat) :
  forall (idx : list nat) (opt : list (Point.t R)),
    (nth_error opt k = nth_error route k
     \/ exists obj prev next,
          In obj (Map.objects m)
          /\ nth_error opt k
             = Some (HeuristicSolver._optimize_point_position m obj prev next)) ->
    nth_error (fold_left (HeuristicSolver.geometric_step m route) idx opt) k
    = nth_error route k
    \/ exists obj prev next,
         In obj (Map.objects m)
         /\ nth_error (fold_left (HeuristicSolver.geometric_step m route) idx opt) k
            = Some (HeuristicSolver._optimize_point_position m obj prev next).
Proof.
  induction idx as [|i idx IH]; intros opt Hopt; [exact Hopt|].
  cbn [fold_left]. apply IH.
  destruct (geometric_step_moves m route opt i k) as [H | H];
    [rewrite H; exact Hopt | right; exact H].
Qed.

(** X21: geometric optimisation keeps the number of points, the first
    point and the last.  For a radius that is not negative, every point of
    its answer is either the point the route had at that position or a point
    within the survey radius, in plain Euclidean distance, of an object of
    the map. *)
Theorem geometric_optimization_moves_into_radius (m : Map.t R)
    (route : list (Point.t R)) (Hradius : 0 <= Map.survey_radius m) :
  same_ends route (HeuristicSolver._geometric_optimization m route)
  /\ forall k p,
       nth_error (HeuristicSolver._geometric_optimization m route) k = Some p ->
       nth_error route k = Some p
       \/ exists obj, In obj (Map.objects m) /\ euclid obj p <= Map.survey_radius m.
Proof.
  split; [apply geometric_optimization_same_ends|].
  intros k p Hk. unfold HeuristicSolver._geometric_optimization in Hk.
  destruct (@geometric_fold_moves m route k (range 1 (length route - 1)) route
              (or_introl eq_refl)) as [H | (obj & prev & next & Hobj & H)].
  - left. rewrite <- H. exact Hk.
  - right. exists obj. split; [exact Hobj|].
    rewrite H in Hk. injection Hk as <-.
    apply optimized_position_radius. exact Hradius.
Qed.

Lemma geometric_optimization_moves_into_radius_witness :
  same_ends [rpt 0 0; rpt 14 0; rpt 20 0]
    (HeuristicSolver._geometric_optimization map_c5 [rpt 0 0; rpt 14 0; rpt 20 0]).
Proof.
  assert (H : 0 <= Map.survey_radius map_c5) by (cbn; lra).
  exact (proj1 (@geometric_optimization_moves_into_radius map_c5
                  [rpt 0 0; rpt 14 0; rpt 20 0] H)).
Defined.

(** ** [is_valid_route] in Euclidean terms *)

(** X22: [is_valid_route] accepts a route exactly when it has at least two
    points, its first point equals the start point and its last the end
    point under [__eq__], and its Euclidean length exceeds the budget by no
    more than 1 for every leg. *)
Theorem is_valid_route_iff (m : Map.t R) (route : list (Point.t R)) :
  Solver.is_valid_route m route = true
  <-> (2 <= length route)%nat
      /\ (exists first, hd_error route = Some first
                        /\ Point.__eq__ first (Map.start_point m) = true)
      /\ Point.__eq__ (last route (Map.start_point m)) (Map.end_point m) = true
      /\ euclid_length route <= Map.max_distance m + INR (length route - 1).
Proof.
  unfold Solver.is_valid_route.
  destruct (length route <? 2)%nat eqn:Hlen.
  { apply Nat.ltb_lt in Hlen. split; [discriminate | intros [H _]; lia]. }
  apply Nat.ltb_ge in Hlen.
  assert (Hne : route <> []) by (destruct route; [cbn in Hlen; lia | discriminate]).
  rewrite (@hd_error_rev_last _ route (Map.start_point m) Hne).
  destruct route as [|first route]; [contradiction|]. cbn [hd_error].
  assert (Hdist : Solver.calculate_route_distance (first :: route)
                  = euclid_length (first :: route) - INR (length (first :: route) - 1)).
  { rewrite route_distance_path. unfold path_length, euclid_length.
    rewrite fold_left_distance_acc, segments_length. lra. }
  destruct (Point.__eq__ first (Map.start_point m)) eqn:Hfirst;
    destruct (Point.__eq__ (last (first :: route) (Map.start_point m)) (Map.end_point m))
      eqn:Hlast; cbn [negb orb].
  - unfold_num. rewrite Rleb_true_iff, Hdist. split.
    + intros H. split; [exact Hlen|]. split; [exists first; auto|].
      split; [reflexivity | lra].
    + intros (_ & _ & _ & H). lra.
  - split; [discriminate | intros (_ & _ & H & _); discriminate].
  - split; [discriminate|]. intros (_ & (f & Hf & Heq) & _).
    injection Hf as <-. congruence.
  - split; [discriminate | intros (_ & _ & H & _); discriminate].
Qed.

(** ** Generated tasks *)

Lemma place_object_spec (name : string) (existing : list (Point.t R)) :
  forall (k : nat) (draws : list R) p draws',
    (length draws <= k)%nat ->
    DataGenerator.place_object draws name existing = Some (p, draws') ->
    DataGenerator._is_point_unique p existing = true /\ Point.name p = name.
Proof.
  induction k as [|k IH]; intros draws p draws' Hk;
    destruct draws as [|x [|y rest]]; try discriminate;
    cbn [length] in Hk; try lia.
  cbn [DataGenerator.place_object].
  destruct (DataGenerator._is_point_unique _ existing) eqn:Hu.
  - intros [= <- <-]. split; [exact Hu | reflexivity].
  - apply IH. lia.
Qed.

Lemma ordered_pairs_snoc {A : Type} (P : A -> A -> Prop) (l : list A) (a : A) :
  ForallOrdPairs P l -> (forall e, In e l -> P e a) -> ForallOrdPairs P (l ++ [a]).
Proof.
  induction 1 as [|e l He Hl IH]; intros Ha; cbn [app].
  - constructor; constructor.
  - constructor.
    + apply Forall_app. split; [exact He|].
      constructor; [apply Ha; left; reflexivity | constructor].
    + apply IH. intros e' He'. apply Ha. right; exact He'.
Qed.

Lemma unique_far_apart (p : Point.t R) (existing : list (Point.t R)) :
  DataGenerator._is_point_unique p existing = true ->
  forall e, In e existing -> far_apart e p.
Proof.
  induction existing as [|e l IH]; [intros _ q []|].
  change (DataGenerator._is_point_unique p (e :: l))
    with (if Rltb (Point.distance_to p e) 5 then false
          else DataGenerator._is_point_unique p l).
  destruct (Rltb (Point.distance_to p e) 5) eqn:Hlt; [discriminate|].
  reflect_R. rewrite distance_to_euclid in Hlt. unfold Point.error in Hlt. unfold_num.
  intros Hu q [<- | Hq]; [|apply IH; assumption].
  unfold far_apart. rewrite euclid_sym. lra.
Qed.

Lemma place_objects_spec (start end_ : Point.t R) :
  forall (count i : nat) (draws : list R) (map_data m : Map.t R),
    DataGenerator.place_objects count i draws start end_ map_data = Some m ->
    ForallOrdPairs far_apart (Map.objects map_data) ->
    (forall p, In p (Map.objects map_data) -> far_apart start p /\ far_apart end_ p) ->
    Map.start_point m = Map.start_point map_data
    /\ Map.end_point m = Map.end_point map_data
    /\ Map.max_distance m = Map.max_distance map_data
    /\ Map.survey_radius m = Map.survey_radius map_data
    /\ length (Map.objects m) = (length (Map.objects map_data) + count)%nat
    /\ ForallOrdPairs far_apart (Map.objects m)
    /\ (forall p, In p (Map.objects m) -> far_apart start p /\ far_apart end_ p).
Proof.
  induction count as [|count IH]; intros i draws map_data m;
    cbn [DataGenerator.place_objects].
  - intros [= <-] Hpairs Hends. repeat split; try assumption; try lia; apply Hends; assumption.
  - destruct (DataGenerator.place_object _ _ _) as [[p draws']|] eqn:Hplace;
      [|discriminate].
    apply (@place_object_spec _ _ (length draws) draws p draws' (le_n _)) in Hplace.
    destruct Hplace as [Hu _].
    pose proof (@unique_far_apart p _ Hu) as Hfar.
    intros Hrun Hpairs Hends.
    apply IH in Hrun; cbn [Map.add_object Map.objects Map.start_point Map.end_point
                           Map.max_distance Map.survey_radius] in *.
    + destruct Hrun as (H1 & H2 & H3 & H4 & H5 & H6 & H7).
      rewrite length_app in H5. cbn [length] in H5.
      repeat split; try assumption; try lia; apply H7; assumption.
    + apply ordered_pairs_snoc; [exact Hpairs|].
      intros e He. apply Hfar. right; right; exact He.
    + intros q Hq. apply in_app_or in Hq. destruct Hq as [Hq | [<- | []]].
      * apply Hends; exact Hq.
      * split; apply Hfar; [left | right; left]; reflexivity.
Qed.

Lemma int_above (x : R) : 0 <= x -> x - 1 < IZR (DataGenerator.int x).
Proof.
  intros Hx. unfold DataGenerator.int.
  destruct (Rle_dec 0 x) as [_|Hn]; [|contradiction].
  pose proof (base_Int_part x) as [_ H]. lra.
Qed.

Lemma euclid_ge_dx (a b : Point.t R) : Rabs (Point.x b - Point.x a) <= euclid a b.
Proof.
  unfold euclid. rewrite <- sqrt_Rsqr_abs.
  apply sqrt_le_1; [apply Rle_0_sqr | |].
  - pose proof (pow2_ge_0 (Point.x b - Point.x a)).
    pose proof (pow2_ge_0 (Point.y b - Point.y a)). lra.
  - unfold Rsqr. pose proof (pow2_ge_0 (Point.y b - Point.y a)).
    replace ((Point.x b - Point.x a) * (Point.x b - Point.x a))
      with ((Point.x b - Point.x a) ^ 2) by ring. lra.
Qed.

(** X23: a task the generator returns has the [n] objects asked for, placed
    at Euclidean distance 6 or more from one another and from the start and
    the end point, which lie on the left and the right edge of the plane. *)
Theorem generated_task_is_spaced (plane_size : R) (draws : list R) (n : nat)
    (L r : R) (m : Map.t R)
    (Hrun : DataGenerator.generate_single_task plane_size draws n L r = Some m) :
  length (Map.objects m) = n
  /\ Point.x (Map.start_point m) = 0
  /\ Point.x (Map.end_point m) = plane_size
  /\ Map.survey_radius m = r
  /\ ForallOrdPairs far_apart (Map.objects m)
  /\ forall p, In p (Map.objects m) ->
       far_apart (Map.start_point m) p /\ far_apart (Map.end_point m) p.
Proof.
  unfold DataGenerator.generate_single_task in Hrun.
  destruct draws as [|y_start [|y_end draws']]; try discriminate.
  cbv zeta in Hrun.
  apply place_objects_spec in Hrun; cbn [Map.objects Map.start_point Map.end_point
                                         Map.max_distance Map.survey_radius] in *.
  - destruct Hrun as (H1 & H2 & H3 & H4 & H5 & H6 & H7).
    rewrite H1, H2. cbn [Point.x length] in *.
    repeat split; try assumption; try reflexivity; apply H7; assumption.
  - constructor.
  - intros p [].
Qed.

(** X24: on a plane of size 6 or more, a task the generator returns for a
    radius that is not negative passes validation, whatever budget was asked
    for: a budget the direct flight does not fit in is replaced by one it
    does. *)
Theorem generated_task_validates (plane_size : R) (draws : list R) (n : nat)
    (L r : R) (m : Map.t R)
    (Hsize : 6 <= plane_size) (Hradius : 0 <= r)
    (Hrun : DataGenerator.generate_single_task plane_size draws n L r = Some m) :
  Map.validate m = true.
Proof.
  unfold DataGenerator.generate_single_task in Hrun.
  destruct draws as [|y_start [|y_end draws']]; try discriminate.
  cbv zeta in Hrun.
  set (start := Point.make 0 y_start "Start") in *.
  set (end_ := Point.make plane_size y_end "End") in *.
  set (d := Point.distance_to start end_) in *.
  apply place_objects_spec in Hrun; cbn [Map.objects Map.start_point Map.end_point
                                         Map.max_distance Map.survey_radius] in *;
    [|constructor | intros p []].
  destruct Hrun as (H1 & H2 & H3 & H4 & _).
  assert (Hd : 5 <= d).
  { unfold d. rewrite distance_to_euclid. unfold Point.error. unfold_num.
    pose proof (euclid_ge_dx start end_) as Hdx. cbn [Point.x start end_] in Hdx.
    rewrite Rminus_0_r, Rabs_right in Hdx by lra. lra. }
  apply validate_iff. rewrite H1, H2, H3, H4. fold d.
  split; [|split; [|split]].
  - destruct (Point.__eq__ start end_) eqn:Heq; [|reflexivity].
    apply point_eq_iff in Heq. destruct Heq as [Hx _]. cbn [Point.x start end_] in Hx.
    rewrite Rminus_0_l, Rabs_Ropp, Rabs_right in Hx by lra. lra.
  - destruct (Rltb L d) eqn:Hlt; reflect_R; [|lra].
    pose proof (@int_above (d * (12 / 10))). lra.
  - exact Hradius.
  - destruct (Rltb L d) eqn:Hlt; reflect_R; [|lra].
    pose proof (@int_above (d * (12 / 10))). lra.
Qed.

Lemma generate_example :
  DataGenerator.generate_single_task 200 [0; 0; 50; 0] 1 300 2
  = Some (Map.make (Point.make 0 0 "Start") (Point.make 200 0 "End")
                   [Point.make 50 0 "Object_1"] 300 2).
Proof.
  unfold DataGenerator.generate_single_task.
  rewrite (@distance_value (Point.make 0 0 "Start") (Point.make 200 0 "End") 199)
    by (cbn [Point.x Point.y]; lra).
  rewrite (proj2 (Rltb_false_iff 300 199)) by lra.
  cbn [DataGenerator.place_objects Map.objects app].
  change (DataGenerator.object_name 0) with "Object_1"%string.
  cbn [DataGenerator.place_object].
  change (DataGenerator._is_point_unique (Point.make 50 0 "Object_1")
            [Point.make 0 0 "Start"; Point.make 200 0 "End"])
    with (if Rltb (Point.distance_to (Point.make 50 0 "Object_1")
                                     (Point.make 0 0 "Start")) 5 then false
          else if Rltb (Point.distance_to (Point.make 50 0 "Object_1")
                                          (Point.make 200 0 "End")) 5 then false
          else true).
  rewrite (@distance_value (Point.make 50 0 "Object_1") (Point.make 0 0 "Start") 49)
    by (cbn [Point.x Point.y]; lra).
  rewrite (@distance_value (Point.make 50 0 "Object_1") (Point.make 200 0 "End") 149)
    by (cbn [Point.x Point.y]; lra).
  rewrite (proj2 (Rltb_false_iff 49 5)), (proj2 (Rltb_false_iff 149 5)) by lra.
  reflexivity.
Qed.

Lemma generated_task_is_spaced_witness :
  ForallOrdPairs far_apart [Point.make 50 0 "Object_1"]
  /\ forall p, In p [Point.make 50 0 "Object_1"] ->
       far_apart (Point.make 0 0 "Start") p /\ far_apart (Point.make 200 0 "End") p.
Proof.
  pose proof (@generated_task_is_spaced _ _ _ _ _ _ generate_example) as H.
  cbn [Map.objects Map.start_point Map.end_point] in H.
  exact (proj2 (proj2 (proj2 (proj2 H)))).
Defined.

Lemma generated_task_validates_witness :
  Map.validate (Map.make (Point.make 0 0 "Start") (Point.make 200 0 "End")
                         [Point.make 50 0 "Object_1"] 300 2) = true.
Proof.
  apply (@generated_task_validates 200 [0; 0; 50; 0] 1 300 2); [lra | lra |].
  exact generate_example.
Defined.
